(** * NanoFactorySystem: drawing programs and plane fitting

    A shallow embedding of

    - [nanofactorysystem/aerobasic/programs/drawings/lines.py]
      (module [Drawings] below, and module [Acceleration] for
      [Rectangle3D.adding_acceleration]),
    - [nanofactorysystem/tools/plane.py] (module [Plane] for [PlaneFit],
      module [PlaneScan] for the classes [Plane] and [zPlane]), and
    - the exposure methods of [nanofactorysystem/system.py] (module
      [SystemModel]).

    The values of Python floats are modelled by exact numbers.  The
    drawing code only uses field operations, comparisons and rounding,
    so it is embedded over the rationals [Q] and stays executable; where
    it turns a quotient of floats into a count (the strokes and the
    layers of a hatched corner) the quotient is rounded to a double
    first, as the code does.  The plane fit, the lead points and the
    polylines of the system need a square root or [arctan2], so they are
    embedded over the reals [R]. *)

From Stdlib Require Import ZArith QArith Qround Qabs Qpower.
From Stdlib Require Import List String Ascii Bool Lia.
From Stdlib Require Import DecimalString ZifyNat.
From Stdlib Require Import Reals Lra Permutation.
Import ListNotations.

(** ** Python exceptions and results *)

Inductive PyError : Type :=
| IndexError
| KeyError (key : string)
| TypeError
| ZeroDivisionError
| NotImplementedError
| ValueError_unpack
    (* ValueError: not enough / too many values to unpack *)
| ValueError_zero_size
    (* ValueError: zero-size array to reduction operation *)
| ValueError_direction_mismatch (i : nat) (line0 linei : Q * Q).
    (* ValueError("Direction mismatch. Line {i} does not match with
       direction of line 0 ({lines[0]} vs {lines[i]}") *)

Inductive result (A : Type) : Type :=
| OK (a : A)
| Raise (e : PyError).
Arguments OK {A} a.
Arguments Raise {A} e.

Definition bind {A B : Type} (m : result A) (f : A -> result B) : result B :=
  match m with
  | OK a => f a
  | Raise e => Raise e
  end.

Declare Scope result_scope.
Delimit Scope result_scope with result.
Notation "x <- m ;; k" := (bind m (fun x => k))
  (at level 61, m at next level, right associativity) : result_scope.

(** [try: ... except: ...] with a bare [except]. *)
Definition try_except {A : Type} (m handler : result A) : result A :=
  match m with
  | OK a => OK a
  | Raise _ => handler
  end.

(** A loop body run over a list, stopping at the first exception. *)
Fixpoint mapM {A B : Type} (f : A -> result B) (l : list A) : result (list B) :=
  match l with
  | [] => OK []
  | a :: l' =>
      bind (f a) (fun b => bind (mapM f l') (fun bs => OK (b :: bs)))
  end.

(** ** Python dictionaries with string keys (insertion ordered) *)

Definition dict (V : Type) : Type := list (string * V).

Fixpoint dict_get {V : Type} (k : string) (d : dict V) : option V :=
  match d with
  | [] => None
  | (k', v) :: d' => if String.eqb k k' then Some v else dict_get k d'
  end.

(** [d[k] = v]: overwrite in place, or append a new key. *)
Fixpoint dict_set {V : Type} (k : string) (v : V) (d : dict V) : dict V :=
  match d with
  | [] => [(k, v)]
  | (k', v') :: d' =>
      if String.eqb k k' then (k', v) :: d' else (k', v') :: dict_set k v d'
  end.

(** [d.update(other)] *)
Definition dict_update {V : Type} (d other : dict V) : dict V :=
  fold_left (fun acc kv => dict_set (fst kv) (snd kv) acc) other d.

Definition dict_keys {V : Type} (d : dict V) : list string := map fst d.

Definition dict_remove {V : Type} (k : string) (d : dict V) : dict V :=
  filter (fun kv => negb (String.eqb k (fst kv))) d.

(** ** Numbers *)

(** [np.sign] on an exact number: -1, 0 or 1. *)
Definition np_sign (q : Q) : Z := Z.sgn (Qnum q).

(** Python's [round(x)] on a float: nearest integer, ties to even. *)
Definition py_round (q : Q) : Z :=
  let f := Qfloor q in
  let r := (q - inject_Z f)%Q in
  match (r ?= 1 # 2)%Q with
  | Lt => f
  | Gt => (f + 1)%Z
  | Eq => if Z.even f then f else (f + 1)%Z
  end.

(** *** Double precision

    A Python float is an IEEE 754 double.  Where a quotient of floats is
    turned into an integer (by [round], or by the ceiling that gives
    [np.arange] its length) the rounding of the quotient to a double
    decides a count, so there the division is the division of doubles:
    the exact quotient rounded by [binary64] to the nearest number with
    53 significant bits, ties to the even one, with the smallest
    exponent of the subnormal numbers.  Overflow to infinity is not
    modelled. *)

(** The exponent [e] of a positive number [a]: [2^e <= a < 2^(e+1)]. *)
Definition binade (a : Q) : Z :=
  let e0 := (Z.log2 (Qnum a) - Z.log2 (Zpos (Qden a)))%Z in
  if Qle_bool (2 ^ e0)%Q a then e0 else (e0 - 1)%Z.

Definition binary64 (q : Q) : Q :=
  if Qeq_bool q 0 then 0%Q
  else
    let a := Qabs q in
    let ulp := (2 ^ (Z.max (binade a - 52) (-1074)))%Q in
    (inject_Z (Z.sgn (Qnum q) * py_round (a / ulp)%Q) * ulp)%Q.

(** A number that is a double. *)
Definition is_double (q : Q) : Prop := (binary64 q == q)%Q.

(** Python's true division on floats whose quotient is only used as a
    value: exact. *)
Definition py_div (a b : Q) : result Q :=
  if Qeq_bool b 0 then Raise ZeroDivisionError else OK (a / b)%Q.

(** Python's true division on floats, as a double. *)
Definition py_div_double (a b : Q) : result Q :=
  if Qeq_bool b 0 then Raise ZeroDivisionError else OK (binary64 (a / b)%Q).

(** [np.arange(start, stop, step)] on floats: numpy divides
    [stop - start] by [step] as Python floats, which raises
    [ZeroDivisionError] for a zero step, and takes the ceiling of that
    double for the length; there is no value when the length is not
    positive.  The values are [start + i * step]. *)
Definition np_arange (start stop step : Q) : result (list Q) :=
  let difference := binary64 (stop - start)%Q in
  bind (py_div_double difference step)
    (fun quotient =>
       let len := Z.to_nat (Qceiling quotient) in
       OK (map (fun i => (start + inject_Z (Z.of_nat i) * step)%Q)
               (seq 0 len))).

(** [seq[i]] for a non-negative index. *)
Definition py_index {A : Type} (l : list A) (i : nat) : result A :=
  match nth_error l i with
  | Some a => OK a
  | None => Raise IndexError
  end.


Module Drawings.

Local Open Scope Q_scope.
Local Open Scope string_scope.
Local Open Scope result_scope.

(** *** Coordinate model

    Modelled from the spec: [Coordinate], [Point2D] and [Point3D] live in
    [nanofactorysystem/devices/coordinate_system.py], which is not part of
    the sources at hand.  A [Coordinate] is the axis-named mapping; a point
    is an immutable value with vector addition, 2D rotation about the
    origin (z untouched) and conversion to the mapping.  Adding a 2D and a
    3D point keeps the z of the 3D operand. *)

Definition Coordinate : Type := dict Q.

Record Point : Type := mkPoint { pX : Q; pY : Q; pZ : option Q }.

Definition Point2D (x y : Q) : Point := mkPoint x y None.
Definition Point3D (x y z : Q) : Point := mkPoint x y (Some z).

Definition Point_add (p q : Point) : Point :=
  mkPoint (pX p + pX q) (pY p + pY q)
    match pZ p, pZ q with
    | Some a, Some b => Some (a + b)
    | Some a, None => Some a
    | None, Some b => Some b
    | None, None => None
    end.

Definition as_dict (p : Point) : Coordinate :=
  match pZ p with
  | Some z => [("X", pX p); ("Y", pY p); ("Z", z)]
  | None => [("X", pX p); ("Y", pY p)]
  end.

(** [Point3D( **center)] and [Point2D( **center)]: the keyword arguments
    must be exactly the constructor's fields. *)
Definition Point3D_kwargs (d : Coordinate) : result Point :=
  match dict_get "X" d, dict_get "Y" d, dict_get "Z" d with
  | Some x, Some y, Some z =>
      if (List.length d =? 3)%nat then OK (Point3D x y z) else Raise TypeError
  | _, _, _ => Raise TypeError
  end.

Definition Point2D_kwargs (d : Coordinate) : result Point :=
  match dict_get "X" d, dict_get "Y" d with
  | Some x, Some y =>
      if (List.length d =? 2)%nat then OK (Point2D x y) else Raise TypeError
  | _, _ => Raise TypeError
  end.

(** The float functions [math.cos], [math.sin] and the constant [math.pi]
    are parameters of the model. *)
Class FloatMath : Type := {
  math_cos : Q -> Q;
  math_sin : Q -> Q;
  math_pi : Q
}.

Definition rotate2D `{FloatMath} (p : Point) (angle_rad : Q) : Point :=
  let c := math_cos angle_rad in
  let s := math_sin angle_rad in
  mkPoint (c * pX p - s * pY p) (s * pX p + c * pY p) (pZ p).

(** *** Instruction programs

    Modelled from the spec: [DrawableAeroBasicProgram] is defined in
    [nanofactorysystem/aerobasic/programs/drawings/__init__.py], which is
    not part of the sources at hand.  A program is an ordered sequence of
    instructions bound to one coordinate system; [LINEAR],
    [GALVO_LASER_OVERRIDE] and [comment] append one instruction each and
    [add_programm] appends the instructions of another program.  A call
    of [LINEAR] with keyword arguments is the instruction [LINEAR]; a
    call with positional arguments, whose meaning is that module's, is
    recorded with its arguments as [LINEAR_positional]. *)

Inductive GalvoLaserOverrideMode : Type := ON | OFF.

Inductive Instruction : Type :=
| LINEAR (coordinates : Coordinate) (F E : option Q)
| LINEAR_positional (args : list string) (F E : option Q)
| GALVO_LASER_OVERRIDE (mode : GalvoLaserOverrideMode)
| comment (text : string).

(** [program.LINEAR( **kwargs)] where the rates travel inside the
    dictionary. *)
Definition LINEAR_kwargs (kwargs : dict Q) : Instruction :=
  LINEAR (dict_remove "E" (dict_remove "F" kwargs))
         (dict_get "F" kwargs) (dict_get "E" kwargs).

Section Programs.

Variable CoordinateSystem : Type.

Record DrawableAeroBasicProgram : Type := mkProgram {
  coordinate_system : CoordinateSystem;
  instructions : list Instruction
}.

Definition new_program (cs : CoordinateSystem) : DrawableAeroBasicProgram :=
  mkProgram cs [].

Definition emit (p : DrawableAeroBasicProgram) (i : Instruction)
  : DrawableAeroBasicProgram :=
  mkProgram (coordinate_system p) (instructions p ++ [i]).

Definition add_programm (p other : DrawableAeroBasicProgram)
  : DrawableAeroBasicProgram :=
  mkProgram (coordinate_system p) (instructions p ++ instructions other).

(** *** SingleLine *)

Record SingleLine : Type := mkSingleLine {
  sl_start : Coordinate;
  sl_end : Coordinate;
  sl_F : option Q;
  sl_E : option Q
}.

(** [SingleLine.draw_on] calls [program.LINEAR( *self.start, F=..., E=...)]:
    the single star unpacks the coordinate mapping into its keys, so the
    call passes the axis names as positional arguments and no axis
    value. *)
Definition SingleLine_draw_on (self : SingleLine) (cs : CoordinateSystem)
  : result DrawableAeroBasicProgram :=
  let program := new_program cs in
  let program :=
    emit program
      (LINEAR_positional (dict_keys (sl_start self)) (sl_F self) (sl_E self)) in
  let program := emit program (GALVO_LASER_OVERRIDE ON) in
  let program :=
    emit program
      (LINEAR_positional (dict_keys (sl_end self)) (sl_F self) (sl_E self)) in
  let program := emit program (GALVO_LASER_OVERRIDE OFF) in
  OK program.

(** *** _Lines, XLines, YLines *)

Inductive SingleAxis : Type := AxisX | AxisY.

Definition parameter_name (a : SingleAxis) : string :=
  match a with AxisX => "X" | AxisY => "Y" end.

Definition _direction (line_segment : Q * Q) : Z :=
  np_sign (snd line_segment - fst line_segment).

(** The loop [for i, line in enumerate(lines[1:], start=1)]. *)
Fixpoint _validate_from (direction : Z) (line0 : Q * Q) (i : nat)
    (rest : list (Q * Q)) : result unit :=
  match rest with
  | [] => OK tt
  | line :: rest' =>
      if negb (Z.eqb (_direction line) direction)
      then Raise (ValueError_direction_mismatch i line0 line)
      else _validate_from direction line0 (S i) rest'
  end.

Definition _validate_lines (lines : list (Q * Q)) : result unit :=
  match lines with
  | [] => Raise IndexError
  | line0 :: rest => _validate_from (_direction line0) line0 1 rest
  end.

Record _Lines : Type := mkLines {
  line_axis : SingleAxis;
  lines : list (Q * Q);
  secondary_position : dict Q;
  velocity : Q;
  acceleration : Q
}.

(** [_Lines.__init__]: validation happens before any field is stored. *)
Definition _Lines_init (axis : SingleAxis) (lines : list (Q * Q))
    (secondary_position : dict Q) (velocity acceleration : Q)
  : result _Lines :=
  _ <- _validate_lines lines ;;
  OK (mkLines axis lines secondary_position velocity acceleration).

Definition XLines (y z : Q) (lines : list (Q * Q)) (velocity acceleration : Q)
  : result _Lines :=
  _Lines_init AxisX lines [("Y", y); ("Z", z)] velocity acceleration.

Definition YLines (x z : Q) (lines : list (Q * Q)) (velocity acceleration : Q)
  : result _Lines :=
  _Lines_init AxisY lines [("X", x); ("Z", z)] velocity acceleration.

(** The body of [for line_start, line_end in self.lines]. *)
Definition _Lines_segment (axis : string) (velocity : Q) (line : Q * Q)
  : list Instruction :=
  [ LINEAR_kwargs [(axis, fst line); ("F", velocity)];
    GALVO_LASER_OVERRIDE ON;
    LINEAR_kwargs [(axis, snd line); ("F", velocity)];
    GALVO_LASER_OVERRIDE OFF ].

Definition _Lines_draw_on (self : _Lines) (cs : CoordinateSystem)
  : result DrawableAeroBasicProgram :=
  let program := new_program cs in
  let axis := parameter_name (line_axis self) in
  (* Go to start for acceleration *)
  acceleration_distance <-
    py_div (velocity self ^ 2) (2 * acceleration self) ;;
  match lines self with
  | [] => Raise IndexError
  | line0 :: _ =>
      let start_value :=
        fst line0 - inject_Z (_direction line0) * acceleration_distance in
      let start_position := [(axis, start_value); ("F", velocity self)] in
      let start_position := dict_update start_position (secondary_position self) in
      let program := emit program (LINEAR_kwargs start_position) in
      (* Draw lines *)
      let program :=
        fold_left
          (fun prog line =>
             mkProgram (coordinate_system prog)
               (instructions prog ++ _Lines_segment axis (velocity self) line))
          (lines self) program in
      (* Go to end to decelerate *)
      let end_value :=
        snd (last (lines self) line0)
        + inject_Z (_direction line0) * acceleration_distance in
      let end_position := [(axis, end_value); ("F", velocity self)] in
      let end_position := dict_update end_position (secondary_position self) in
      let program := emit program (LINEAR_kwargs end_position) in
      OK program
  end.

(** *** PolyLine *)

Record PolyLine : Type := mkPolyLine {
  pl_line : list Coordinate;
  pl_F : option Q;
  pl_E : option Q
}.

(** [program.LINEAR( **point, F=..., E=...)]: a point that itself carries
    an ["F"] or ["E"] key gives the keyword twice, a [TypeError]. *)
Definition LINEAR_point (point : Coordinate) (F E : option Q)
  : result Instruction :=
  match dict_get "F" point, dict_get "E" point with
  | None, None => OK (LINEAR point F E)
  | _, _ => Raise TypeError
  end.

Definition PolyLine_draw_on (self : PolyLine) (cs : CoordinateSystem)
  : result DrawableAeroBasicProgram :=
  let program := new_program cs in
  match pl_line self with
  | [] => Raise IndexError
  | first :: rest =>
      move <- LINEAR_point first (pl_F self) (pl_E self) ;;
      let program := emit program move in
      let program := emit program (GALVO_LASER_OVERRIDE ON) in
      moves <- mapM (fun point => LINEAR_point point (pl_F self) (pl_E self)) rest ;;
      let program := fold_left emit moves program in
      let program := emit program (GALVO_LASER_OVERRIDE OFF) in
      OK program
  end.

(** [for k, v in values] iterates over the keys of the dictionary, so
    each key string is unpacked into two one-character strings. *)
Definition unpack2 (key : string) : result (string * string) :=
  match key with
  | String a (String b EmptyString) =>
      OK (String a EmptyString, String b EmptyString)
  | _ => Raise ValueError_unpack
  end.

(** [np.min] and [np.max] applied to a string. *)
Definition np_min_str (v : string) : result Q := Raise TypeError.
Definition np_max_str (v : string) : result Q := Raise TypeError.

(** [values[k].append(v)] for every item of one coordinate. *)
Fixpoint append_items (values : dict (list Q)) (items : list (string * Q))
  : result (dict (list Q)) :=
  match items with
  | [] => OK values
  | (k, v) :: items' =>
      match dict_get k values with
      | None => Raise (KeyError k)
      | Some vs => append_items (dict_set k (vs ++ [v])%list values) items'
      end
  end.

Fixpoint collect_values (values : dict (list Q)) (line : list Coordinate)
  : result (dict (list Q)) :=
  match line with
  | [] => OK values
  | coordinate :: line' =>
      values' <- append_items values coordinate ;;
      collect_values values' line'
  end.

(** The part of [center_point] shared by [PolyLine] and [PolyLines], from
    the two comprehensions over [values] on. *)
Definition center_of_values (values : dict (list Q)) : result Point :=
  min_coord <-
    mapM (fun key => kv <- unpack2 key ;;
                     m <- np_min_str (snd kv) ;; OK (fst kv, m))
         (dict_keys values) ;;
  max_coord <-
    mapM (fun key => kv <- unpack2 key ;;
                     m <- np_max_str (snd kv) ;; OK (fst kv, m))
         (dict_keys values) ;;
  center <-
    mapM (fun k =>
            match dict_get k min_coord, dict_get k max_coord with
            | Some lo, Some hi => OK (k, (lo + hi) / 2)
            | _, _ => Raise (KeyError k)
            end)
         (dict_keys min_coord) ;;
  try_except (Point3D_kwargs center) (Point2D_kwargs center).

Definition PolyLine_center_point (self : PolyLine) : result Point :=
  match pl_line self with
  | [] => Raise IndexError
  | first :: _ =>
      let values := map (fun k => (k, @nil Q)) (dict_keys first) in
      values <- collect_values values (pl_line self) ;;
      center_of_values values
  end.

(** *** PolyLines *)

Record PolyLines : Type := mkPolyLines {
  pls_lines : list (list Coordinate);
  pls_F : option Q;
  pls_E : option Q
}.

Definition newline : string := String (ascii_of_nat 10) EmptyString.

Definition str_nat (n : nat) : string := NilEmpty.string_of_uint (Nat.to_uint n).

Definition polyline_comment (i : nat) : Instruction :=
  comment (newline ++ "[Polyline] - Draw line " ++ str_nat i ++ ":").

(** The loop [for i, line in enumerate(self.lines)]. *)
Fixpoint PolyLines_loop (F E : option Q) (cs : CoordinateSystem)
    (i : nat) (lines : list (list Coordinate))
    (program : DrawableAeroBasicProgram) : result DrawableAeroBasicProgram :=
  match lines with
  | [] => OK program
  | line :: lines' =>
      let program := emit program (polyline_comment i) in
      let poly_line := mkPolyLine line F E in
      sub <- PolyLine_draw_on poly_line cs ;;
      PolyLines_loop F E cs (S i) lines' (add_programm program sub)
  end.

Definition PolyLines_draw_on (self : PolyLines) (cs : CoordinateSystem)
  : result DrawableAeroBasicProgram :=
  PolyLines_loop (pls_F self) (pls_E self) cs 0 (pls_lines self) (new_program cs).

Definition PolyLines_center_point (self : PolyLines) : result Point :=
  match pls_lines self with
  | [] => Raise IndexError
  | [] :: _ => Raise IndexError
  | (first :: _) :: _ =>
      let values := map (fun k => (k, @nil Q)) (dict_keys first) in
      values <- collect_values values (List.concat (pls_lines self)) ;;
      center_of_values values
  end.

(** *** Corner *)

Context `{FloatMath}.

Record Corner : Type := mkCorner {
  corner_center : Point;
  c_length : Q;
  c_width : Q;
  c_height : Q;
  hatch_size : Q;
  layer_height : Q;
  rotation_degree : Q;
  rotation_rad : Q;
  c_F : option Q;
  c_E : option Q
}.

(** [Corner.__init__]; the defaults are [hatch_size=0.5],
    [layer_height=0.75] and [rotation_degree=0]. *)
Definition Corner_init (corner_center : Point)
    (length width height hatch_size layer_height rotation_degree : Q)
    (F E : option Q) : Corner :=
  mkCorner corner_center length width height hatch_size layer_height
    rotation_degree (rotation_degree / 180 * math_pi) F E.

(** One pass of the loop [for i in range(n)] of [single_layer]. *)
Definition single_layer_stroke (corner_center : Point) (length width : Q)
    (n : Z) (hatch : Q) (change_start : bool) (rotation_rad : Q) (i : Z)
  : list Coordinate :=
  let center_diagonal := - (inject_Z i - inject_Z n / 2) * hatch in
  let offset := length - width / 2 in
  let p1 := Point_add corner_center
              (rotate2D (Point2D offset center_diagonal) rotation_rad) in
  let p2 := Point_add corner_center
              (rotate2D (Point2D center_diagonal center_diagonal) rotation_rad) in
  let p3 := Point_add corner_center
              (rotate2D (Point2D center_diagonal offset) rotation_rad) in
  if ((i + (if change_start then 1 else 0)) mod 2 =? 0)%Z
  then [as_dict p1; as_dict p2; as_dict p3]
  else [as_dict p3; as_dict p2; as_dict p1].

Definition single_layer (corner_center : Point) (length width : Q)
    (n : Z) (hatch : Q) (change_start : bool) (E F : option Q)
    (rotation_rad : Q) : PolyLines :=
  let lines :=
    map (fun i => single_layer_stroke corner_center length width n hatch
                    change_start rotation_rad (Z.of_nat i))
        (seq 0 (Z.to_nat n)) in
  mkPolyLines lines F E.

(** The loop [for z in np.arange(0, self.height, self.layer_height)]. *)
Fixpoint Corner_layers (self : Corner) (cs : CoordinateSystem)
    (n : Z) (hatch_corrected : Q) (change_start : bool) (zs : list Q)
    (program : DrawableAeroBasicProgram) : result DrawableAeroBasicProgram :=
  match zs with
  | [] => OK program
  | z :: zs' =>
      let poly_lines :=
        single_layer (Point_add (corner_center self) (Point3D 0 0 z))
          (c_length self) (c_width self) n hatch_corrected change_start
          (c_E self) (c_F self) (rotation_rad self) in
      sub <- PolyLines_draw_on poly_lines cs ;;
      Corner_layers self cs n hatch_corrected (negb change_start) zs'
        (add_programm program sub)
  end.

Definition Corner_draw_on (self : Corner) (cs : CoordinateSystem)
  : result DrawableAeroBasicProgram :=
  let program := new_program cs in
  ratio <- py_div_double (c_width self) (hatch_size self) ;;
  let n := (py_round ratio + 1)%Z in
  hatch_corrected <- py_div (c_width self) (inject_Z (n - 1)) ;;
  zs <- np_arange 0 (c_height self) (layer_height self) ;;
  Corner_layers self cs n hatch_corrected false zs program.

Definition Corner_center_point (self : Corner) : Point :=
  let center_offset := (c_length self - c_width self) / 2 in
  Point_add (corner_center self)
    (rotate2D (Point2D center_offset center_offset) (rotation_rad self)).

(** *** CornerRectangle *)

Record CornerRectangle : Type := mkCornerRectangle {
  cr_center : Point;
  tl_corner : Corner;
  tr_corner : Corner;
  bl_corner : Corner;
  br_corner : Corner
}.

Definition CornerRectangle_init (center : Point)
    (rectangle_width rectangle_height corner_length corner_width height
       layer_height hatch_size : Q) (F E : option Q) : CornerRectangle :=
  let corner dx dy rot :=
    Corner_init (Point_add center (Point2D dx dy)) corner_length corner_width
      height hatch_size layer_height rot F E in
  mkCornerRectangle center
    (corner (- rectangle_width / 2) (- rectangle_height / 2) 0)
    (corner (rectangle_width / 2) (- rectangle_height / 2) 90)
    (corner (- rectangle_width / 2) (rectangle_height / 2) 270)
    (corner (rectangle_width / 2) (rectangle_height / 2) 180).

Definition CornerRectangle_draw_on (self : CornerRectangle)
    (cs : CoordinateSystem) : result DrawableAeroBasicProgram :=
  let program := new_program cs in
  let program := emit program (comment (newline ++ "Drawing Top Left corner")) in
  sub <- Corner_draw_on (tl_corner self) cs ;;
  let program := add_programm program sub in
  let program := emit program (comment (newline ++ "Drawing Top Right corner")) in
  sub <- Corner_draw_on (tr_corner self) cs ;;
  let program := add_programm program sub in
  let program := emit program (comment (newline ++ "Drawing Bottom Right corner")) in
  sub <- Corner_draw_on (br_corner self) cs ;;
  let program := add_programm program sub in
  let program := emit program (comment (newline ++ "Drawing Bottom Left corner")) in
  sub <- Corner_draw_on (bl_corner self) cs ;;
  let program := add_programm program sub in
  OK program.

(** *** VerticalLine *)

Record VerticalLine : Type := mkVerticalLine {
  vl_position : Point;
  z_min : Q;
  z_max : Q;
  vl_F : option Q
}.

Definition VerticalLine_draw_on (self : VerticalLine) (cs : CoordinateSystem)
  : result DrawableAeroBasicProgram :=
  let program := new_program cs in
  let point := as_dict (vl_position self) in
  let point := dict_set "Z" (z_min self) point in
  move <- LINEAR_point point (vl_F self) None ;;
  let program := emit program move in
  let program := emit program (GALVO_LASER_OVERRIDE ON) in
  let point := dict_set "Z" (z_max self) point in
  move <- LINEAR_point point (vl_F self) None ;;
  let program := emit program move in
  let program := emit program (GALVO_LASER_OVERRIDE OFF) in
  OK program.

(** *** The shape family and its lowering operation

    [Rectangle3D.draw_on] starts with [raise NotImplementedError], so a
    [Rectangle3D] carries no data here. *)

Inductive DrawableObject : Type :=
| ShapeSingleLine (s : SingleLine)
| ShapeLines (s : _Lines)
| ShapePolyLine (s : PolyLine)
| ShapePolyLines (s : PolyLines)
| ShapeCorner (s : Corner)
| ShapeCornerRectangle (s : CornerRectangle)
| ShapeRectangle3D
| ShapeVerticalLine (s : VerticalLine).

Definition draw_on (shape : DrawableObject) (cs : CoordinateSystem)
  : result DrawableAeroBasicProgram :=
  match shape with
  | ShapeSingleLine s => SingleLine_draw_on s cs
  | ShapeLines s => _Lines_draw_on s cs
  | ShapePolyLine s => PolyLine_draw_on s cs
  | ShapePolyLines s => PolyLines_draw_on s cs
  | ShapeCorner s => Corner_draw_on s cs
  | ShapeCornerRectangle s => CornerRectangle_draw_on s cs
  | ShapeRectangle3D => Raise NotImplementedError
  | ShapeVerticalLine s => VerticalLine_draw_on s cs
  end.

End Programs.

Arguments mkProgram {CoordinateSystem} _ _.
Arguments coordinate_system {CoordinateSystem} _.
Arguments instructions {CoordinateSystem} _.
Arguments new_program {CoordinateSystem} cs.
Arguments emit {CoordinateSystem} p i.
Arguments add_programm {CoordinateSystem} p other.
Arguments SingleLine_draw_on {CoordinateSystem} self cs.
Arguments _Lines_draw_on {CoordinateSystem} self cs.
Arguments PolyLine_draw_on {CoordinateSystem} self cs.
Arguments PolyLines_loop {CoordinateSystem} F E cs i lines program.
Arguments PolyLines_draw_on {CoordinateSystem} self cs.
Arguments Corner_layers {CoordinateSystem _} self cs n hatch_corrected
  change_start zs program.
Arguments Corner_draw_on {CoordinateSystem _} self cs.
Arguments CornerRectangle_draw_on {CoordinateSystem _} self cs.
Arguments VerticalLine_draw_on {CoordinateSystem} self cs.
Arguments draw_on {CoordinateSystem _} shape cs.

(** *** Laser gating

    A scan of the instruction list with the gate state: an [ON] is only
    legal while the gate is off, an [OFF] only while it is on, and the
    gate must be off when the program ends. *)

Fixpoint gated_from (gate_on : bool) (prog : list Instruction) : bool :=
  match prog with
  | [] => negb gate_on
  | GALVO_LASER_OVERRIDE ON :: prog' =>
      if gate_on then false else gated_from true prog'
  | GALVO_LASER_OVERRIDE OFF :: prog' =>
      if gate_on then gated_from false prog' else false
  | _ :: prog' => gated_from gate_on prog'
  end.

Definition well_gated (prog : list Instruction) : bool := gated_from false prog.

(** The gate instructions of a program, in order. *)
Fixpoint gate_trace (prog : list Instruction) : list GalvoLaserOverrideMode :=
  match prog with
  | [] => []
  | GALVO_LASER_OVERRIDE m :: prog' => m :: gate_trace prog'
  | _ :: prog' => gate_trace prog'
  end.

(** [k] on/off pairs. *)
Fixpoint on_off_pairs (k : nat) : list GalvoLaserOverrideMode :=
  match k with
  | O => []
  | S k' => ON :: OFF :: on_off_pairs k'
  end.

(** *** Vocabulary of the specification *)

(** The gate instructions of the program are [k] on/off pairs. *)
Definition paired (prog : list Instruction) : Prop :=
  exists k, gate_trace prog = on_off_pairs k.

(** [XLines(...)] or [YLines(...)], by the swept axis; [other] is the
    fixed position on the axis that is not swept. *)
Definition new_sweep (axis : SingleAxis) (other z : Q) (lines : list (Q * Q))
    (velocity acceleration : Q) : result _Lines :=
  match axis with
  | AxisX => XLines other z lines velocity acceleration
  | AxisY => YLines other z lines velocity acceleration
  end.

(** The move to [value] on the swept axis, at the fixed secondary
    position and with feed rate [v]. *)
Definition sweep_move (axis : SingleAxis) (value other z v : Q) : Instruction :=
  match axis with
  | AxisX => LINEAR [("X", value); ("Y", other); ("Z", z)] (Some v) None
  | AxisY => LINEAR [("Y", value); ("X", other); ("Z", z)] (Some v) None
  end.

Section Hatch.

Context `{FloatMath}.

(** The position of stroke [i] on the diagonal of the corner. *)
Definition stroke_diagonal (n : Z) (pitch : Q) (i : nat) : Q :=
  - (inject_Z (Z.of_nat i) - inject_Z n / 2) * pitch.

(** The three points of stroke [i] of the layer at height offset [z], in
    the order outer end on the length side, corner point, outer end on
    the width side. *)
Definition stroke_points (c : Corner) (z : Q) (n : Z) (pitch : Q) (i : nat)
  : Coordinate * Coordinate * Coordinate :=
  let center := Point_add (corner_center c) (Point3D 0 0 z) in
  let diagonal := stroke_diagonal n pitch i in
  let offset := c_length c - c_width c / 2 in
  (as_dict (Point_add center
              (rotate2D (Point2D offset diagonal) (rotation_rad c))),
   as_dict (Point_add center
              (rotate2D (Point2D diagonal diagonal) (rotation_rad c))),
   as_dict (Point_add center
              (rotate2D (Point2D diagonal offset) (rotation_rad c)))).

(** Stroke [i] of layer [k]: a comment, then the three points as one
    gated polyline, in reversed order iff [(i + k) mod 2 = 1]. *)
Definition stroke_instructions (c : Corner) (k : nat) (z : Q) (n : Z)
    (pitch : Q) (i : nat) : list Instruction :=
  let '(p1, p2, p3) := stroke_points c z n pitch i in
  let move p := LINEAR p (c_F c) (c_E c) in
  polyline_comment i ::
  if ((i + k) mod 2 =? 1)%nat
  then [move p3; GALVO_LASER_OVERRIDE ON; move p2; move p1;
        GALVO_LASER_OVERRIDE OFF]
  else [move p1; GALVO_LASER_OVERRIDE ON; move p2; move p3;
        GALVO_LASER_OVERRIDE OFF].

(** Layer [k] at height offset [z]: strokes [0 .. n-1]. *)
Definition layer_instructions (c : Corner) (n : Z) (pitch : Q)
    (k : nat) (z : Q) : list Instruction :=
  flat_map (stroke_instructions c k z n pitch) (seq 0 (Z.to_nat n)).

(** Layers [k0, k0 + 1, ...] at the height offsets [zs]. *)
Definition layers_instructions (c : Corner) (n : Z) (pitch : Q)
    (k0 : nat) (zs : list Q) : list Instruction :=
  flat_map (fun kz => layer_instructions c n pitch (fst kz) (snd kz))
           (combine (seq k0 (List.length zs)) zs).

End Hatch.

(** The only instance of the float functions used for closed examples:
    it is exact at angle 0, the only angle those examples use. *)
Definition float_math_at_zero : FloatMath :=
  {| math_cos := fun _ => 1; math_sin := fun _ => 0; math_pi := 355 # 113 |}.

(** A corner at the origin with length 10, height 3, layer height 3/4 and
    no rotation. *)
Definition example_corner (width hatch : Q) : Corner :=
  @Corner_init float_math_at_zero (Point2D 0 0) 10 width 3 hatch (3 # 4) 0
    None None.

(** *** Center points of the line sweeps

    [XLines] and [YLines] keep the fixed coordinates as attributes of
    their own beside the fields of [_Lines]. *)

Record XLines_object : Type := mkXLines {
  x_base : _Lines;
  x_y : Q;
  x_z : Q
}.

Record YLines_object : Type := mkYLines {
  y_base : _Lines;
  y_x : Q;
  y_z : Q
}.

(** [XLines.__init__] with its attributes [self.y] and [self.z]. *)
Definition XLines_init (y z : Q) (lines : list (Q * Q))
    (velocity acceleration : Q) : result XLines_object :=
  base <- XLines y z lines velocity acceleration ;;
  OK (mkXLines base y z).

Definition YLines_init (x z : Q) (lines : list (Q * Q))
    (velocity acceleration : Q) : result YLines_object :=
  base <- YLines x z lines velocity acceleration ;;
  OK (mkYLines base x z).

(** [(self.lines[0][0] + self.lines[-1][1]) / 2] *)
Definition sweep_middle (lines : list (Q * Q)) : result Q :=
  match lines with
  | [] => Raise IndexError
  | line0 :: _ => OK ((fst line0 + snd (last lines line0)) / 2)
  end.

Definition XLines_center_point (self : XLines_object) : result Point :=
  middle <- sweep_middle (lines (x_base self)) ;;
  OK (Point3D middle (x_y self) (x_z self)).

Definition YLines_center_point (self : YLines_object) : result Point :=
  middle <- sweep_middle (lines (y_base self)) ;;
  OK (Point3D (y_x self) middle (y_z self)).

Definition CornerRectangle_center_point (self : CornerRectangle) : Point :=
  cr_center self.

Definition VerticalLine_center_point (self : VerticalLine) : Point :=
  vl_position self.

(** *** Rectangle3D.points_to_cmds

    The method appends to the program it is given, so an exception
    leaves that program with whatever was appended before it.  A command
    maps the program to the program as it is left and the outcome. *)

Section Commands.

Variable CoordinateSystem : Type.

Definition cmd (A : Type) : Type :=
  DrawableAeroBasicProgram CoordinateSystem ->
  DrawableAeroBasicProgram CoordinateSystem * result A.

Definition cmd_ret {A : Type} (a : A) : cmd A := fun p => (p, OK a).

Definition cmd_bind {A B : Type} (m : cmd A) (f : A -> cmd B) : cmd B :=
  fun p =>
    match m p with
    | (p', OK a) => f a p'
    | (p', Raise e) => (p', Raise e)
    end.

Definition cmd_lift {A : Type} (r : result A) : cmd A := fun p => (p, r).

Definition cmd_emit (i : Instruction) : cmd unit :=
  fun p => (emit p i, OK tt).

(** A [for] loop over a list. *)
Fixpoint cmd_for {A : Type} (body : A -> cmd unit) (l : list A) : cmd unit :=
  match l with
  | [] => cmd_ret tt
  | a :: l' => cmd_bind (body a) (fun _ => cmd_for body l')
  end.

(** [program.LINEAR(X=point[0], Y=point[1], Z=point[2])] *)
Definition LINEAR_xyz (point : list Q) : cmd unit :=
  cmd_bind (cmd_lift (py_index point 0)) (fun x =>
  cmd_bind (cmd_lift (py_index point 1)) (fun y =>
  cmd_bind (cmd_lift (py_index point 2)) (fun z =>
  cmd_emit (LINEAR [("X", x); ("Y", y); ("Z", z)] None None)))).

(** The body of [for line in layer]. *)
Definition points_to_cmds_line (line : list (list Q)) : cmd unit :=
  cmd_bind (cmd_lift (py_index line 0)) (fun point_start_accel =>
  cmd_bind (cmd_lift (py_index line 1)) (fun point_start_laser =>
  cmd_bind (cmd_lift (py_index line 2)) (fun point_end_laser =>
  cmd_bind (cmd_lift (py_index line 3)) (fun point_end_accel =>
  cmd_bind (LINEAR_xyz point_start_accel) (fun _ =>
  cmd_bind (LINEAR_xyz point_start_laser) (fun _ =>
  cmd_bind (cmd_emit (GALVO_LASER_OVERRIDE ON)) (fun _ =>
  cmd_bind (LINEAR_xyz point_end_laser) (fun _ =>
  cmd_bind (cmd_emit (GALVO_LASER_OVERRIDE OFF)) (fun _ =>
  LINEAR_xyz point_end_accel))))))))).

Definition points_to_cmds (structure_points : list (list (list (list Q))))
  : cmd unit :=
  cmd_for (fun layer => cmd_for points_to_cmds_line layer) structure_points.

End Commands.

Arguments cmd_ret {CoordinateSystem A} a.
Arguments cmd_bind {CoordinateSystem A B} m f.
Arguments cmd_lift {CoordinateSystem A} r.
Arguments cmd_emit {CoordinateSystem} i.
Arguments cmd_for {CoordinateSystem A} body l.
Arguments LINEAR_xyz {CoordinateSystem} point.
Arguments points_to_cmds_line {CoordinateSystem} line.
Arguments points_to_cmds {CoordinateSystem} structure_points.

(** *** Further vocabulary of the specification *)

(** A point that can be passed as [**point] beside [F=] and [E=]. *)
Definition plain_point (point : Coordinate) : Prop :=
  dict_get "F" point = None /\ dict_get "E" point = None.

(** The instructions of one polyline: move to the first point, gate on,
    move through the other points, gate off. *)
Definition polyline_instructions (F E : option Q) (line : list Coordinate)
  : list Instruction :=
  match line with
  | [] => []
  | first :: rest =>
      LINEAR first F E :: GALVO_LASER_OVERRIDE ON
      :: map (fun point => LINEAR point F E) rest
      ++ [GALVO_LASER_OVERRIDE OFF]
  end.

(** The targets of the moves of a program, in order. *)
Fixpoint move_targets (prog : list Instruction) : list Coordinate :=
  match prog with
  | [] => []
  | LINEAR coordinates _ _ :: prog' => coordinates :: move_targets prog'
  | _ :: prog' => move_targets prog'
  end.

(** A point with at least three coordinates. *)
Definition has_xyz (point : list Q) : Prop := (3 <= List.length point)%nat.

(** A line that [points_to_cmds] can draw: four points with three
    coordinates each; further points and coordinates are not looked at. *)
Definition drawable_line (line : list (list Q)) : Prop :=
  exists p0 p1 p2 p3 more,
    line = p0 :: p1 :: p2 :: p3 :: more /\
    has_xyz p0 /\ has_xyz p1 /\ has_xyz p2 /\ has_xyz p3.

(** The move to the first three coordinates of a point. *)
Definition xyz_move (point : list Q) : Instruction :=
  LINEAR [("X", nth 0 point 0); ("Y", nth 1 point 0); ("Z", nth 2 point 0)]
         None None.

(** The six instructions [points_to_cmds] appends for a drawable line. *)
Definition line_commands (line : list (list Q)) : list Instruction :=
  [ xyz_move (nth 0 line []); xyz_move (nth 1 line []);
    GALVO_LASER_OVERRIDE ON; xyz_move (nth 2 line []);
    GALVO_LASER_OVERRIDE OFF; xyz_move (nth 3 line []) ].


(** A move at feed rate [v] without a secondary rate. *)
Definition at_velocity (v : Q) (i : Instruction) : Prop :=
  match i with
  | LINEAR _ F E => F = Some v /\ E = None
  | LINEAR_positional _ F E => F = Some v /\ E = None
  | _ => True
  end.

(** The targets of the two moves of a segment: only the swept axis is
    named. *)
Definition segment_targets (axis : SingleAxis) (line : Q * Q)
  : list Coordinate :=
  [[(parameter_name axis, fst line)]; [(parameter_name axis, snd line)]].

(** The float functions at whole quarter turns, with [355/113] for pi:
    exact cosine and sine of 0, 90, 180 and 270 degrees as
    [Corner.__init__] converts them to radians. *)
Definition float_math_right_angles : FloatMath :=
  {| math_cos := fun angle =>
       if Qeq_bool angle (90 / 180 * (355 # 113)) then 0
       else if Qeq_bool angle (180 / 180 * (355 # 113)) then - (1)
       else if Qeq_bool angle (270 / 180 * (355 # 113)) then 0
       else 1;
     math_sin := fun angle =>
       if Qeq_bool angle (90 / 180 * (355 # 113)) then 1
       else if Qeq_bool angle (180 / 180 * (355 # 113)) then 0
       else if Qeq_bool angle (270 / 180 * (355 # 113)) then - (1)
       else 0;
     math_pi := 355 # 113 |}.

(** The comment [CornerRectangle.draw_on] puts before each corner. *)

Definition corner_comment (name : string) : Instruction :=
  comment (newline ++ "Drawing " ++ name ++ " corner")%string.

(** *** Rectangle3D: slicing

    [np.ceil] returns a numpy float, and [range] only takes an object
    with [__index__], which a numpy float is not.  The bodies of the two
    loops add numbers to points, an arithmetic of [coordinate_system.py];
    they are parameters here. *)

Inductive py_number : Type :=
| PyInt (n : Z)
| NpFloat64 (x : Q).

Definition number_value (n : py_number) : Q :=
  match n with
  | PyInt n => inject_Z n
  | NpFloat64 x => x
  end.

Definition np_ceil (x : Q) : py_number := NpFloat64 (inject_Z (Qceiling x)).

(** [range(n)] *)
Definition py_range (n : py_number) : result (list Z) :=
  match n with
  | PyInt n => OK (map Z.of_nat (seq 0 (Z.to_nat n)))
  | NpFloat64 _ => Raise TypeError
  end.

Record Rectangle3D : Type := mkRectangle3D {
  bottom_left : Point;
  r_width : Q;
  r_length : Q;
  r_height : Q;
  r_layer_height : Q;
  r_hatch_size : Q;
  r_velocity : option Q
}.

Definition Rectangle3D_center_point (self : Rectangle3D) : Point :=
  Point_add (bottom_left self) (Point2D (r_width self / 2) (r_height self / 2)).

Section Slicing.

(** The list of point pairs of one layer. *)
Variable point_list : Type.

(** The loop [for i in range(N)] of [calc_points_layer], given [a],
    [hatch_size_opt], the starting point and the indices. *)
Variable layer_loop :
  Rectangle3D -> Q -> Q -> option Point -> list Z -> result point_list.

(** [points_structure[-1][-1][1] + i * self.layer_height] *)
Variable next_start : point_list -> Z -> Q -> option Point.

Definition calc_points_layer (self : Rectangle3D) (slicing_direction : Z)
    (starting_point : option Point) : result point_list :=
  a <- (if (slicing_direction =? 0)%Z then OK (r_length self)
        else if (slicing_direction =? 1)%Z then OK (r_width self)
        else Raise NotImplementedError) ;;
  ratio <- py_div a (r_hatch_size self) ;;
  let N := np_ceil ratio in
  let hatch_size_opt := a / number_value N in
  indices <- py_range N ;;
  layer_loop self a hatch_size_opt starting_point indices.

(** The loop [for i in range(N)] of [slicing_layers]. *)
Fixpoint slicing_loop (self : Rectangle3D) (indices : list Z)
    (a : option Point) (points_structure : list point_list)
  : result (list point_list) :=
  match indices with
  | [] => OK points_structure
  | i :: indices' =>
      layer <- calc_points_layer self (i mod 2) a ;;
      slicing_loop self indices'
        (next_start layer i (r_layer_height self))
        (points_structure ++ [layer])%list
  end.

Definition slicing_layers (self : Rectangle3D)
  : result (list point_list) :=
  ratio <- py_div (r_height self) (r_layer_height self) ;;
  let N := np_ceil ratio in
  indices <- py_range N ;;
  slicing_loop self indices None [].

End Slicing.

End Drawings.

Module Plane.

Local Open Scope R_scope.

(** *** Vectors and 3x3 matrices *)

Definition vec3 : Type := (R * R * R)%type.
Definition mat3 : Type := (vec3 * vec3 * vec3)%type.

Definition dot (u v : vec3) : R :=
  let '(u1, u2, u3) := u in
  let '(v1, v2, v3) := v in
  u1 * v1 + u2 * v2 + u3 * v3.

Definition vsub (u v : vec3) : vec3 :=
  let '(u1, u2, u3) := u in
  let '(v1, v2, v3) := v in
  (u1 - v1, u2 - v2, u3 - v3).

Definition vscale (k : R) (u : vec3) : vec3 :=
  let '(u1, u2, u3) := u in (k * u1, k * u2, k * u3).

(** [np.cross] *)
Definition cross (u v : vec3) : vec3 :=
  let '(u1, u2, u3) := u in
  let '(v1, v2, v3) := v in
  (u2 * v3 - u3 * v2, u3 * v1 - u1 * v3, u1 * v2 - u2 * v1).

Definition mat_vec (m : mat3) (v : vec3) : vec3 :=
  let '(r1, r2, r3) := m in (dot r1 v, dot r2 v, dot r3 v).

Definition trace (m : mat3) : R :=
  let '((a11, _, _), (_, a22, _), (_, _, a33)) := m in a11 + a22 + a33.

(** Sum of the principal 2x2 minors. *)
Definition minors2 (m : mat3) : R :=
  let '((a11, a12, a13), (a21, a22, a23), (a31, a32, a33)) := m in
  (a11 * a22 - a12 * a21) + (a11 * a33 - a13 * a31) + (a22 * a33 - a23 * a32).

Definition det (m : mat3) : R :=
  let '((a11, a12, a13), (a21, a22, a23), (a31, a32, a33)) := m in
  a11 * (a22 * a33 - a23 * a32)
  - a12 * (a21 * a33 - a23 * a31)
  + a13 * (a21 * a32 - a22 * a31).

(** The adjugate (transposed cofactor matrix). *)
Definition adjugate (m : mat3) : mat3 :=
  let '((a11, a12, a13), (a21, a22, a23), (a31, a32, a33)) := m in
  ((a22 * a33 - a23 * a32, a13 * a32 - a12 * a33, a12 * a23 - a13 * a22),
   (a23 * a31 - a21 * a33, a11 * a33 - a13 * a31, a13 * a21 - a11 * a23),
   (a21 * a32 - a22 * a31, a12 * a31 - a11 * a32, a11 * a22 - a12 * a21)).

(** *** Least squares

    [np.linalg.lstsq(A, b, rcond=None)[0]] for a matrix with three
    columns: the least-squares solution of [A x = b], the one of minimum
    norm when the columns are dependent.  LAPACK computes it by a singular
    value decomposition in floating point; here it is the exact value
    [pinv(A^T A) (A^T b)], with the pseudo-inverse of the symmetric
    matrix [A^T A] read off its characteristic polynomial
    [x^3 - trace x^2 + minors2 x - det]. *)

(** [A^T A] *)
Fixpoint gram (A : list vec3) : mat3 :=
  match A with
  | [] => ((0, 0, 0), (0, 0, 0), (0, 0, 0))
  | (a1, a2, a3) :: A' =>
      let '((n11, n12, n13), (n21, n22, n23), (n31, n32, n33)) := gram A' in
      ((a1 * a1 + n11, a1 * a2 + n12, a1 * a3 + n13),
       (a2 * a1 + n21, a2 * a2 + n22, a2 * a3 + n23),
       (a3 * a1 + n31, a3 * a2 + n32, a3 * a3 + n33))
  end.

(** [A^T b] *)
Fixpoint atb (A : list vec3) (b : list R) : vec3 :=
  match A, b with
  | (a1, a2, a3) :: A', z :: b' =>
      let '(c1, c2, c3) := atb A' b' in
      (a1 * z + c1, a2 * z + c2, a3 * z + c3)
  | _, _ => (0, 0, 0)
  end.

Definition lstsq (A : list vec3) (b : list R) : vec3 :=
  let N := gram A in
  let c := atb A b in
  if Req_dec_T (det N) 0 then
    if Req_dec_T (minors2 N) 0 then
      if Req_dec_T (trace N) 0 then (0, 0, 0)
      else vscale (/ trace N) c
    else vscale (/ minors2 N) (vsub (vscale (trace N) c) (mat_vec N c))
  else vscale (/ det N) (mat_vec (adjugate N) c).

(** *** Elementary functions *)

Definition np_hypot (x y : R) : R := sqrt (x * x + y * y).

Definition np_arctan2 (y x : R) : R :=
  if Rlt_dec 0 x then atan (y / x)
  else if Rlt_dec x 0 then
    if Rle_dec 0 y then atan (y / x) + PI else atan (y / x) - PI
  else if Rlt_dec 0 y then PI / 2
  else if Rlt_dec y 0 then - PI / 2
  else 0.

(** Python's [x % m] on floats, for a positive [m]. *)
Definition py_mod (x m : R) : R := x - m * IZR (Int_part (x / m)).

(** [np.max] of a vector. *)
Definition np_max (v : list R) : result R :=
  match v with
  | [] => Raise ValueError_zero_size
  | x :: v' => OK (fold_left Rmax v' x)
  end.

(** Python's [sum] of a vector. *)
Definition py_sum (v : list R) : R := fold_left Rplus v 0.

(** *** PlaneFit *)

Record PlaneFit : Type := mkPlaneFit {
  params : vec3;
  dev : list R;
  avg : R;
  slope : R;
  theta : R;
  phi : R
}.

Definition getz_params (params : vec3) (x y : R) : R := dot params (x, y, 1).

Definition getvec_params (params : vec3) (x y : R) : vec3 :=
  (x, y, getz_params params x y).

(** The rows of [A] after [A[:,-1] = 1.0]. *)
Definition design_row (point : vec3) : vec3 :=
  let '(x, y, _) := point in (x, y, 1).

(** The column [b = A[:,-1]] before it is overwritten. *)
Definition target (point : vec3) : R :=
  let '(_, _, z) := point in z.

Definition PlaneFit_init (points : list vec3) (given : option vec3)
  : result PlaneFit :=
  match points with
  | [] => Raise IndexError
  | _ :: _ =>
      (* Least squares plane fitting *)
      let A := map design_row points in
      let b := map target points in
      let params :=
        match given with
        | None => lstsq A b
        | Some p => p
        end in
      (* Average z deviation *)
      let dev := map (fun ab => dot (fst ab) params - snd ab) (combine A b) in
      let avg :=
        sqrt (py_sum (map (fun d => d * d) dev)) / INR (List.length dev) in
      (* Surface normal vector *)
      let p0 := getvec_params params 0 0 in
      let p1 := vsub (getvec_params params 1 0) p0 in
      let p2 := vsub (getvec_params params 0 1) p0 in
      let '(x, y, z) := cross p1 p2 in
      (* Length of y projection *)
      let rxy := np_hypot x y in
      (* Plane slope and polar angle *)
      let slope := rxy / z in
      let theta := np_arctan2 rxy z * 180 / PI in
      (* Azimuthal angle *)
      let phi := np_arctan2 y x * 180 / PI in
      let phi := py_mod phi 360 - 180 in
      OK (mkPlaneFit params dev avg slope theta phi)
  end.

Definition max_dev (self : PlaneFit) : result R := np_max (map Rabs (dev self)).

Definition getz (self : PlaneFit) (x y : R) : R := getz_params (params self) x y.

Definition getvec (self : PlaneFit) (x y : R) : vec3 :=
  getvec_params (params self) x y.

(** *** Vocabulary of the specification *)

(** The samples lie on the plane [z = sx x + sy y + z0]. *)
Definition on_plane (p : vec3) (points : list vec3) : Prop :=
  forall point, In point points -> target point = dot (design_row point) p.

(** Three of the samples have lateral positions that are not collinear. *)
Definition non_collinear (points : list vec3) : Prop :=
  exists p1 p2 p3,
    In p1 points /\ In p2 points /\ In p3 points /\
    det (design_row p1, design_row p2, design_row p3) <> 0.

(** The squared norm of a vector. *)
Definition norm2 (v : vec3) : R := dot v v.

(** A symmetric matrix, by its upper triangle. *)
Definition sym3 (n11 n12 n13 n22 n23 n33 : R) : mat3 :=
  ((n11, n12, n13), (n12, n22, n23), (n13, n23, n33)).

(** The sum of the squared residuals [|A x - b|^2]. *)
Fixpoint residual2 (A : list vec3) (b : list R) (x : vec3) : R :=
  match A, b with
  | a :: A', z :: b' => (dot a x - z) * (dot a x - z) + residual2 A' b' x
  | _, _ => 0
  end.

(** The sum over the rows [a'] of [A] of [|a' x a|^2]. *)
Fixpoint cross_squares (A : list vec3) (a : vec3) : R :=
  match A with
  | [] => 0
  | a' :: A' => norm2 (cross a' a) + cross_squares A' a
  end.

(** The sum over the rows [a] of [A'] of [trace N |a|^2 - a^T N a]. *)
Fixpoint rows_defect (N : mat3) (A' : list vec3) : R :=
  match A' with
  | [] => 0
  | a :: A'' => trace N * norm2 a - dot a (mat_vec N a) + rows_defect N A''
  end.

(** The sum of the squares of [A v]. *)
Fixpoint sum_squares (A : list vec3) (v : vec3) : R :=
  match A with
  | [] => 0
  | a :: A' => dot a v * dot a v + sum_squares A' v
  end.

(** The samples with the plane [q] added to their heights. *)
Definition tilted (q : vec3) (points : list vec3) : list vec3 :=
  map (fun point => (fst (fst point), snd (fst point),
                     snd point + dot (design_row point) q)) points.

(** The sum of two parameter vectors. *)
Definition vadd3 (u v : vec3) : vec3 :=
  (fst (fst u) + fst (fst v), snd (fst u) + snd (fst v), snd u + snd v).

End Plane.

(** * Lead-in and lead-out points (lines.py, [Rectangle3D.adding_acceleration])

    The method works on numpy arrays and normalises with
    [np.linalg.norm], so it is modelled over the real numbers, for points
    with three coordinates, the ones [points_to_cmds] reads.  Dividing
    the zero vector by its norm gives an array of [nan] (numpy warns, it
    does not raise). *)

Module Acceleration.

Import Plane.
Local Open Scope R_scope.
Local Open Scope result_scope.

Definition vadd (u v : vec3) : vec3 :=
  let '(u1, u2, u3) := u in
  let '(v1, v2, v3) := v in
  (u1 + v1, u2 + v2, u3 + v3).

(** [np.linalg.norm] *)
Definition np_norm (v : vec3) : R := sqrt (dot v v).

(** A point as [tolist()] returns it: three numbers, or three [nan]. *)
Inductive np_point : Type :=
| Numbers (v : vec3)
| NaNs.

(** The body of [for line in layer]. *)
Definition adding_acceleration_line (line : list vec3)
  : result (list np_point) :=
  start_point <- py_index line 0 ;;
  end_point <- py_index line 1 ;;
  (* Calculate the direction vector *)
  let direction_vector := vsub end_point start_point in
  if Req_dec_T (np_norm direction_vector) 0 then
    OK [NaNs; Numbers start_point; Numbers end_point; NaNs]
  else
    (* Normalize the direction vector *)
    let norm_direction_vector :=
      vscale (/ np_norm direction_vector) direction_vector in
    let length := 1 in
    (* Calculate the new points *)
    let new_start_point :=
      vsub start_point (vscale length norm_direction_vector) in
    let new_end_point :=
      vadd end_point (vscale length norm_direction_vector) in
    OK [Numbers new_start_point; Numbers start_point; Numbers end_point;
        Numbers new_end_point].

Definition adding_acceleration (structure_points : list (list (list vec3)))
  : result (list (list (list np_point))) :=
  mapM (fun layer => mapM adding_acceleration_line layer) structure_points.

(** The distance of two points. *)
Definition distance (u v : vec3) : R := np_norm (vsub u v).

End Acceleration.

(** * The layer plane detector (plane.py, classes [Plane] and [zPlane])

    [Plane] keeps the interface estimates [zlo] and [zup] and the list
    of steps.  The layer scan of a step ([self.layer.run] and its
    container) and the stage moves are hardware: what the scan reports
    is an input of [run].  [RuntimeError] and Python's [ValueError] of an
    empty [min()] are errors beside the ones of the drawing modules. *)

Inductive Exception : Type :=
| Py (e : PyError)
| RuntimeError (message : string)
| ValueError_empty_sequence.

Inductive outcome (A : Type) : Type :=
| Returned (a : A)
| Raised (e : Exception).

Arguments Returned {A} a.
Arguments Raised {A} e.

Module PlaneScan.

Import Plane.
Local Open Scope R_scope.
Local Open Scope string_scope.
Local Open Scope list_scope.
Local Open Scope result_scope.

(** The items of a layer container that [run] reads: its
    ["meas/result.json"] and its uuid. *)
Record LayerResult : Type := mkLayerResult {
  r_zLower : R;
  r_dzLower : R;
  r_zUpper : R;
  r_dzUpper : R;
  r_uuid : string
}.

(** One entry of [self.steps]. *)
Record Step : Type := mkStep {
  scan : nat;
  step_x : R;
  step_y : R;
  zLowerInit : R;
  zLower : R;
  dzLower : R;
  zUpperInit : R;
  zUpper : R;
  dzUpper : R;
  dzInit : R;
  layerUuid : string
}.

(** The state of a [Plane] object, with the two parameters [run]
    reads. *)
Record PlaneObject : Type := mkPlane {
  zlo : R;
  zup : R;
  steps : list Step;
  dzCoarseDefault : R;
  dzFineDefault : R
}.

(** [Plane.__init__]: the initial estimates and no results yet. *)
Definition Plane_init (zlo zup dzCoarseDefault dzFineDefault : R)
  : PlaneObject :=
  mkPlane zlo zup [] dzCoarseDefault dzFineDefault.

(** [Plane.run], given the result of the layer scan it starts. *)
Definition run (self : PlaneObject) (x y : R) (result : LayerResult)
  : PlaneObject :=
  let pos := List.length (steps self) in
  (* Detect layer interfaces *)
  let dz :=
    if Req_dec_T (zlo self) (zup self) then dzCoarseDefault self
    else dzFineDefault self in
  (* Append results of this step *)
  let step :=
    mkStep pos x y
           (zlo self) (r_zLower result) (r_dzLower result)
           (zup self) (r_zUpper result) (r_dzUpper result)
           dz (r_uuid result) in
  (* Store results as estimates for the next scan *)
  mkPlane (r_zLower result) (r_zUpper result) (steps self ++ [step])
          (dzCoarseDefault self) (dzFineDefault self).

(** A sequence of calls of [run]. *)
Definition runs (self : PlaneObject) (scans : list (R * R * LayerResult))
  : PlaneObject :=
  fold_left (fun self xyr => run self (fst (fst xyr)) (snd (fst xyr)) (snd xyr))
            scans self.

(** One value of the dictionary [result] of [_pop_results]. *)
Record FitResult : Type := mkFitResult {
  xSlope : R;
  ySlope : R;
  z0 : R;
  avgDeviation : R;
  maxDeviation : R;
  gradient : R;
  polarAngle : R;
  azimuthAngle : R;
  fit_points : list vec3
}.

(** The body of the loop of [_pop_results]. *)
Definition fit_result (points : list vec3) : result FitResult :=
  plane <- PlaneFit_init points None ;;
  maximum <- max_dev plane ;;
  OK (mkFitResult (fst (fst (params plane))) (snd (fst (params plane)))
                  (snd (params plane)) (avg plane) maximum (slope plane)
                  (theta plane) (phi plane) points).

Definition lower_point (s : Step) : vec3 := (step_x s, step_y s, zLower s).
Definition upper_point (s : Step) : vec3 := (step_x s, step_y s, zUpper s).

(** [Plane._pop_results]: the two fits and the steps; the steps are
    only cleared when both fits returned. *)
Definition _pop_results (self : PlaneObject)
  : PlaneObject * result (dict FitResult * list Step) :=
  let steps := steps self in
  let lower := map lower_point steps in
  let upper := map upper_point steps in
  match (lower_fit <- fit_result lower ;;
         upper_fit <- fit_result upper ;;
         OK [("lower", lower_fit); ("upper", upper_fit)]) with
  | OK result =>
      (mkPlane (zlo self) (zup self) [] (dzCoarseDefault self)
               (dzFineDefault self),
       OK (result, steps))
  | Raise e => (self, Raise e)
  end.

(** The items of the container that depend on the scans; the
    references, the constant and the configuration items are left
    out. *)
Record Container : Type := mkContainer {
  meas_steps : list Step;
  meas_result : dict FitResult
}.

(** [Plane.container].  After [_pop_results] the method collects the
    items of the system ([self.system.items()]) and its own parameters
    ([self.parameters()]) and builds the container ([Container(...)]).
    These calls leave this module and may raise, as the container class
    does with [RuntimeError "Author name is missing!"]: whether they
    return is the input [building].  They run after [_pop_results] has
    emptied the step list. *)
Definition container (self : PlaneObject) (building : outcome unit)
  : PlaneObject * outcome Container :=
  (* Collect results *)
  if (List.length (steps self) =? 0)%nat then
    (self, Raised (RuntimeError "No results!"))
  else
    match _pop_results self with
    | (self', OK (result, steps)) =>
        (* Container dictionary; Return container object *)
        match building with
        | Returned _ => (self', Returned (mkContainer steps result))
        | Raised e => (self', Raised e)
        end
    | (self', Raise e) => (self', Raised (Py e))
    end.

(** [zPlane] *)
Record zPlaneObject : Type := mkzPlane { zp_params : vec3 }.

Definition zPlane_init (plane : Container) (key : string)
  : result zPlaneObject :=
  match dict_get key (meas_result plane) with
  | None => Raise (KeyError key)
  | Some params => OK (mkzPlane (xSlope params, ySlope params, z0 params))
  end.

Definition zPlane_getz (self : zPlaneObject) (x y : R) : R :=
  dot (zp_params self) (x, y, 1).

(** *** Vocabulary of the specification *)

(** The steps are numbered from [k], and each starts from the
    estimates the step before it found, the first from [lo] and [up];
    the scan range is the coarse one exactly when the two estimates it
    starts from are equal. *)
Fixpoint chained (coarse fine : R) (k : nat) (lo up : R) (steps : list Step)
  : Prop :=
  match steps with
  | [] => True
  | s :: steps' =>
      scan s = k /\ zLowerInit s = lo /\ zUpperInit s = up /\
      dzInit s = (if Req_dec_T lo up then coarse else fine) /\
      chained coarse fine (S k) (zLower s) (zUpper s) steps'
  end.

(** The estimates after the steps. *)
Fixpoint estimates_after (lo up : R) (steps : list Step) : R * R :=
  match steps with
  | [] => (lo, up)
  | s :: steps' => estimates_after (zLower s) (zUpper s) steps'
  end.

(** What a step records of the position and of the report of its
    scan. *)
Definition recorded (s : Step) : R * R * LayerResult :=
  (step_x s, step_y s,
   mkLayerResult (zLower s) (dzLower s) (zUpper s) (dzUpper s) (layerUuid s)).

End PlaneScan.

(** * The system class (system.py)

    The methods of [System] that expose drive the controller; a method
    is modelled by the list of commands it sends, in order, and by how
    it ends.  [self.position] reads the stages, so the position it
    returns is an input. *)

Module SystemModel.

Local Open Scope R_scope.
Local Open Scope string_scope.
Local Open Scope list_scope.

Inductive Command : Type :=
| moveabs (speed : R) (axes : dict R)
| pulse (power duration : R)
| laseron (power : R)
| laseroff.

(** Python's [min] and [max] of a list. *)
Definition py_min (l : list R) : outcome R :=
  match l with
  | [] => Raised ValueError_empty_sequence
  | x :: l' => Returned (fold_left Rmin l' x)
  end.

Definition py_max (l : list R) : outcome R :=
  match l with
  | [] => Raised ValueError_empty_sequence
  | x :: l' => Returned (fold_left Rmax l' x)
  end.

Definition enumerate {A : Type} (l : list A) : list (nat * A) :=
  combine (seq 0 (List.length l)) l.

Section Methods.

(** [self["speed"]] *)
Variable travel_speed : R.

(** [System.polyline]: the commands sent and the way the call ends. *)
Definition polyline (line : list (R * R)) (power speed dia : R)
  : list Command * outcome unit :=
  let x := map fst line in
  let y := map snd line in
  match py_min x, py_min y, py_max x, py_max y with
  | Returned llx, Returned lly, Returned urx, Returned ury =>
      let size := sqrt ((urx - llx) ^ 2 + (ury - lly) ^ 2) in
      if Rlt_dec size (0.2 * dia) then
        let x := 0.5 * (llx + urx) in
        let y := 0.5 * (lly + ury) in
        let sent := [moveabs travel_speed [("x", x); ("y", y)]] in
        if Req_dec_T speed 0 then (sent, Raised (Py ZeroDivisionError))
        else (sent ++ [pulse power (10 * dia / speed)], Returned tt)
      else
        match line with
        | [] => ([], Raised (Py IndexError))
        | (x, y) :: rest =>
            (moveabs travel_speed [("x", x); ("y", y)]
             :: laseron power
             :: map (fun xy => moveabs speed [("x", fst xy); ("y", snd xy)])
                    rest
             ++ [laseroff],
             Returned tt)
        end
  | Raised e, _, _, _ => ([], Raised e)
  | _, Raised e, _, _ => ([], Raised e)
  | _, _, Raised e, _ => ([], Raised e)
  | _, _, _, Raised e => ([], Raised e)
  end.

(** The loop [for line in lines] of [System.polylines]. *)
Fixpoint polylines_loop (lines : list (list (R * R))) (power speed dia : R)
  : list Command * outcome unit :=
  match lines with
  | [] => ([], Returned tt)
  | line :: lines' =>
      match polyline line power speed dia with
      | (sent, Returned _) =>
          let '(sent', r) := polylines_loop lines' power speed dia in
          (sent ++ sent', r)
      | (sent, Raised e) => (sent, Raised e)
      end
  end.

(** [System.polylines] *)
Definition polylines (z : R) (lines : list (list (R * R)))
    (power speed dia : R) : list Command * outcome unit :=
  let '(sent, r) := polylines_loop lines power speed dia in
  (moveabs travel_speed [("z", z)] :: sent, r).

(** The position of pixel [i] of [n] in a row or column centred at
    [c]. *)
Definition pixel_position (c pitch : R) (n i : nat) : R :=
  c + (INR i - 0.5 * (INR n - 1)) * pitch.

(** The inner loop of [System.dots] over one row at height [y]. *)
Definition dots_row (x0 y pitch power dt : R) (row : list R) : list Command :=
  let w := List.length row in
  flat_map
    (fun iv =>
       let x := pixel_position x0 pitch w (fst iv) in
       if Rlt_dec 0 (snd iv) then
         [moveabs travel_speed [("x", x); ("y", y)]; pulse power dt]
       else [])
    (enumerate row).

(** [System.dots], where [position_xy] is what [self.position("xy")]
    returns. *)
Definition dots (position_xy : R * R) (z : R) (img : list (list R))
    (pitch power dt : R) : list Command :=
  let '(x0, y0) := position_xy in
  let h := List.length img in
  moveabs travel_speed [("z", z)]
  :: flat_map
       (fun jrow =>
          let y := pixel_position y0 pitch h (fst jrow) in
          dots_row x0 y pitch power dt (snd jrow))
       (enumerate img)
  ++ [moveabs travel_speed [("x", x0); ("y", y0)]].

End Methods.

(** *** Vocabulary of the specification *)

(** The laser state after the commands, started in state [on]. *)
Fixpoint laser_after (on : bool) (sent : list Command) : bool :=
  match sent with
  | [] => on
  | laseron _ :: sent' => laser_after true sent'
  | laseroff :: sent' => laser_after false sent'
  | _ :: sent' => laser_after on sent'
  end.

(** The pulses among the commands, in order. *)
Fixpoint pulses (sent : list Command) : list (R * R) :=
  match sent with
  | [] => []
  | pulse power duration :: sent' => (power, duration) :: pulses sent'
  | _ :: sent' => pulses sent'
  end.

(** The number of exposures among the commands: pulses and switchings
    on of the laser. *)
Fixpoint exposures (sent : list Command) : nat :=
  match sent with
  | [] => 0
  | pulse _ _ :: sent' => S (exposures sent')
  | laseron _ :: sent' => S (exposures sent')
  | _ :: sent' => exposures sent'
  end.

(** [m] is the least element of [l]. *)
Definition least (m : R) (l : list R) : Prop :=
  In m l /\ Forall (fun v => m <= v) l.

(** [m] is the greatest element of [l]. *)
Definition greatest (m : R) (l : list R) : Prop :=
  In m l /\ Forall (fun v => v <= m) l.

(** The targets of the moves among the commands, in order. *)
Fixpoint targets (sent : list Command) : list (dict R) :=
  match sent with
  | [] => []
  | moveabs _ axes :: sent' => axes :: targets sent'
  | _ :: sent' => targets sent'
  end.

(** The pixels of an image that are exposed, with their column and row
    indices and the width of their row, in the order of the loops. *)
Definition exposed_row (j : nat) (row : list R) : list (nat * nat * nat) :=
  flat_map
    (fun iv =>
       if Rlt_dec 0 (snd iv) then [(fst iv, j, List.length row)] else [])
    (enumerate row).

Definition exposed (img : list (list R)) : list (nat * nat * nat) :=
  flat_map (fun jrow => exposed_row (fst jrow) (snd jrow)) (enumerate img).

(** The target of the move to an exposed pixel of an image of [h]
    rows. *)
Definition pixel_target (x0 y0 pitch : R) (h : nat) (ijw : nat * nat * nat)
  : dict R :=
  [("x", pixel_position x0 pitch (snd ijw) (fst (fst ijw)));
   ("y", pixel_position y0 pitch h (snd (fst ijw)))].

End SystemModel.

(** * Properties of the drawing programs *)

Module DrawingsSpec.

Import Drawings.
Local Open Scope string_scope.
Local Open Scope list_scope.
Local Open Scope Q_scope.

(** Linear arithmetic with [mod] by a constant. *)
Ltac lia_mod := zify; Z.to_euclidean_division_equations; lia.

(** ** Validation of monotone line sweeps *)

Lemma validate_from_ok direction line0 i rest :
  _validate_from direction line0 i rest = OK tt <->
  Forall (fun line => _direction line = direction) rest.
Proof.
  revert i. induction rest as [|line rest IH]; intros i; simpl.
  - split; [constructor | reflexivity].
  - destruct (Z.eqb_spec (_direction line) direction) as [e|ne]; simpl.
    + rewrite IH. split.
      * intros Hr. constructor; assumption.
      * intros Hr. inversion Hr; assumption.
    + split; [discriminate|].
      intros Hr. inversion Hr; contradiction.
Qed.

Lemma validate_from_first_mismatch direction line0 rest :
  forall start k linek,
    nth_error rest k = Some linek ->
    _direction linek <> direction ->
    (forall j linej, (j < k)%nat -> nth_error rest j = Some linej ->
                     _direction linej = direction) ->
    _validate_from direction line0 start rest =
    Raise (ValueError_direction_mismatch (start + k) line0 linek).
Proof.
  induction rest as [|line rest IH]; intros start k linek Hk Hne Hbefore.
  - destruct k; discriminate.
  - destruct k as [|k]; simpl in *.
    + injection Hk as ->.
      destruct (Z.eqb_spec (_direction linek) direction); [contradiction|].
      simpl. rewrite Nat.add_0_r. reflexivity.
    + assert (Hd : _direction line = direction)
        by (apply (Hbefore 0%nat); [lia | reflexivity]).
      rewrite Hd, Z.eqb_refl. simpl.
      rewrite (IH (S start) k linek Hk Hne).
      * f_equal. f_equal. lia.
      * intros j linej Hj Hnth. apply (Hbefore (S j)); [lia | exact Hnth].
Qed.

Lemma Lines_init_ok axis lines sec v a :
  (exists s, _Lines_init axis lines sec v a = OK s) <->
  _validate_lines lines = OK tt.
Proof.
  unfold _Lines_init. destruct (_validate_lines lines) as [[]|e]; simpl.
  - split; [reflexivity | eexists; reflexivity].
  - split; [intros [s Hs]; discriminate | discriminate].
Qed.

Lemma Lines_init_raise axis lines sec v a e :
  _validate_lines lines = Raise e ->
  _Lines_init axis lines sec v a = Raise e.
Proof. unfold _Lines_init. intros ->. reflexivity. Qed.

(** C1 (as amended).  For a non-empty segment list, building the sweep
    succeeds exactly when every segment has the direction of segment 0.
    Segment 0 is the reference: when a segment [i >= 1] is the only one
    whose direction differs from the others, the constructor itself (no
    sweep object exists, so nothing can be lowered) raises the direction
    mismatch error carrying the index [i], segment 0 and segment [i]. *)
Theorem sweep_validation axis lines sec v a :
  lines <> [] ->
  ((exists s, _Lines_init axis lines sec v a = OK s) <->
   Forall (fun line => _direction line = _direction (hd (0, 0) lines)) lines)
  /\
  (forall i line0 linei,
      (1 <= i)%nat ->
      nth_error lines 0 = Some line0 ->
      nth_error lines i = Some linei ->
      (forall j linej, j <> i -> nth_error lines j = Some linej ->
                       _direction linej = _direction line0) ->
      _direction linei <> _direction line0 ->
      _Lines_init axis lines sec v a =
      Raise (ValueError_direction_mismatch i line0 linei)).
Proof.
  intros Hne. destruct lines as [|l0 rest]; [contradiction|]. split.
  - rewrite Lines_init_ok. simpl. rewrite validate_from_ok. split.
    + intros Hr. constructor; [reflexivity | assumption].
    + intros Hr. inversion Hr; assumption.
  - intros i line0 linei Hi H0 Hnth Hothers Hdiff.
    simpl in H0. injection H0 as <-.
    destruct i as [|k]; [lia|]. simpl in Hnth.
    apply Lines_init_raise. simpl.
    apply (validate_from_first_mismatch _ l0 rest 1 k linei Hnth Hdiff).
    intros j linej Hj Hjn. apply (Hothers (S j)); [lia | exact Hjn].
Qed.

Lemma sweep_validation_witness :
  [(0, 1); (2, 3); (5, 4)] <> [] /\
  XLines 0 0 [(0, 1); (2, 3); (5, 4)] 200 1000 =
  Raise (ValueError_direction_mismatch 2 (0, 1) (5, 4)).
Proof.
  split; [discriminate|].
  apply (sweep_validation AxisX [(0, 1); (2, 3); (5, 4)]
           [("Y", 0); ("Z", 0)] 200 1000); try discriminate; try reflexivity.
  - lia.
  - intros [|[|[|[|j]]]] linej Hj Hn; simpl in Hn;
      try discriminate; try contradiction; injection Hn as <-; reflexivity.
Defined.

(** C1 (as stated) fails when the reversed segment is segment 0: in
    [[(1,0); (0,1); (0,1)]] segment 0 is the only descending one, yet the
    error carries index 1, the first segment compared with segment 0. *)
Lemma sweep_first_segment_reversed :
  let lines := [(1, 0); (0, 1); (0, 1)] in
  _direction (1, 0) <> 1%Z /\
  (forall j linej, j <> 0%nat -> nth_error lines j = Some linej ->
                   _direction linej = 1%Z) /\
  XLines 0 0 lines 200 1000 =
    Raise (ValueError_direction_mismatch 1 (1, 0) (0, 1)) /\
  ~ (exists l l', XLines 0 0 lines 200 1000 =
                  Raise (ValueError_direction_mismatch 0 l l')).
Proof.
  cbv zeta. repeat split.
  - discriminate.
  - intros [|[|[|[|j]]]] linej Hj Hn; simpl in Hn;
      try discriminate; try contradiction; injection Hn as <-; reflexivity.
  - intros (l & l' & Hx). discriminate Hx.
Qed.

(** ** Laser gating of lowered programs *)

Section Gating.

Context {CoordinateSystem : Type} `{FloatMath}.

Lemma gate_trace_app p q : gate_trace (p ++ q) = gate_trace p ++ gate_trace q.
Proof.
  induction p as [|i p IH]; simpl; [reflexivity|].
  destruct i; simpl; rewrite IH; reflexivity.
Qed.

Lemma on_off_pairs_add a b :
  on_off_pairs a ++ on_off_pairs b = on_off_pairs (a + b).
Proof. induction a as [|a IH]; simpl; [reflexivity | rewrite IH; reflexivity]. Qed.

Lemma paired_nil : paired [].
Proof. exists 0%nat. reflexivity. Qed.

Lemma paired_app p q : paired p -> paired q -> paired (p ++ q).
Proof.
  intros [a Ha] [b Hb]. exists (a + b)%nat.
  rewrite gate_trace_app, Ha, Hb. apply on_off_pairs_add.
Qed.

Lemma paired_move coords F E p : paired p -> paired (LINEAR coords F E :: p).
Proof. intros [k Hk]. exists k. exact Hk. Qed.

Lemma paired_comment text p : paired p -> paired (comment text :: p).
Proof. intros [k Hk]. exists k. exact Hk. Qed.

Lemma paired_on_off p : paired p ->
  paired (GALVO_LASER_OVERRIDE ON :: GALVO_LASER_OVERRIDE OFF :: p).
Proof. intros [k Hk]. exists (S k). simpl. rewrite Hk. reflexivity. Qed.

(** The state machine [gated_from] accepts exactly the programs whose
    gate instructions are on/off pairs. *)
Lemma gated_from_trace prog :
  (gated_from false prog = true <-> exists k, gate_trace prog = on_off_pairs k)
  /\
  (gated_from true prog = true <->
   exists k, gate_trace prog = OFF :: on_off_pairs k).
Proof.
  induction prog as [|i prog [IHoff IHon]]; simpl.
  - split; split; intros Hg.
    + exists 0%nat. reflexivity.
    + reflexivity.
    + discriminate.
    + destruct Hg as [k Hk]. discriminate.
  - destruct i as [coords F E|args F E|[|]|text]; simpl.
    + split; assumption.
    + split; assumption.
    + split.
      * rewrite IHon. split; intros [k Hk].
        -- exists (S k). simpl. rewrite Hk. reflexivity.
        -- destruct k as [|k]; [discriminate|].
           simpl in Hk. injection Hk as Hk. exists k. exact Hk.
      * split; [discriminate|]. intros [k Hk]. discriminate.
    + split.
      * split; [discriminate|]. intros [[|k] Hk]; discriminate.
      * rewrite IHoff. split; intros [k Hk].
        -- exists k. rewrite Hk. reflexivity.
        -- injection Hk as Hk. exists k. exact Hk.
    + split; assumption.
Qed.

Lemma well_gated_paired prog : well_gated prog = true <-> paired prog.
Proof. apply gated_from_trace. Qed.

Lemma moves_no_gate F E points moves :
  mapM (fun point => LINEAR_point point F E) points = OK moves ->
  gate_trace moves = [].
Proof.
  revert moves. induction points as [|pt points IH]; intros moves; simpl.
  - intros [= <-]. reflexivity.
  - unfold LINEAR_point at 1.
    destruct (dict_get "F" pt), (dict_get "E" pt); simpl; try discriminate.
    destruct (mapM _ points) as [ms|e]; simpl; [|discriminate].
    intros [= <-]. simpl. apply IH. reflexivity.
Qed.

Lemma fold_left_emit (moves : list Instruction)
      (p : DrawableAeroBasicProgram CoordinateSystem) :
  fold_left emit moves p =
  mkProgram (coordinate_system p) (instructions p ++ moves).
Proof.
  revert p. induction moves as [|m moves IH]; intros p; simpl.
  - rewrite app_nil_r. destruct p; reflexivity.
  - rewrite IH. simpl. rewrite <- app_assoc. reflexivity.
Qed.

Lemma fold_left_segments (seg : Q * Q -> list Instruction) lines
      (p : DrawableAeroBasicProgram CoordinateSystem) :
  fold_left
    (fun prog line =>
       mkProgram (coordinate_system prog) (instructions prog ++ seg line))
    lines p =
  mkProgram (coordinate_system p) (instructions p ++ flat_map seg lines).
Proof.
  revert p. induction lines as [|l lines IH]; intros p; simpl.
  - rewrite app_nil_r. destruct p; reflexivity.
  - rewrite IH. simpl. rewrite <- app_assoc. reflexivity.
Qed.

Lemma LINEAR_point_move point F E move :
  LINEAR_point point F E = OK move -> move = LINEAR point F E.
Proof.
  unfold LINEAR_point.
  destruct (dict_get "F" point), (dict_get "E" point); congruence.
Qed.

Lemma PolyLine_draw_on_instructions (self : PolyLine) (cs : CoordinateSystem) prog :
  PolyLine_draw_on self cs = OK prog ->
  exists first rest moves,
    pl_line self = first :: rest /\
    mapM (fun point => LINEAR_point point (pl_F self) (pl_E self)) rest = OK moves /\
    prog = mkProgram cs
             (LINEAR first (pl_F self) (pl_E self) :: GALVO_LASER_OVERRIDE ON
                :: moves ++ [GALVO_LASER_OVERRIDE OFF]).
Proof.
  unfold PolyLine_draw_on. destruct (pl_line self) as [|first rest]; [discriminate|].
  destruct (LINEAR_point first _ _) as [move|e] eqn:Hfirst;
    cbn [bind]; [|discriminate].
  destruct (mapM _ rest) as [moves|e] eqn:Hrest; cbn [bind]; [|discriminate].
  intros [= <-]. exists first, rest, moves.
  split; [reflexivity|]. split; [exact Hrest|].
  rewrite fold_left_emit. simpl.
  rewrite (LINEAR_point_move _ _ _ _ Hfirst). reflexivity.
Qed.

Lemma PolyLine_paired (self : PolyLine) (cs : CoordinateSystem) prog :
  PolyLine_draw_on self cs = OK prog -> paired (instructions prog).
Proof.
  intros Hd. apply PolyLine_draw_on_instructions in Hd.
  destruct Hd as (first & rest & moves & _ & Hm & ->). simpl.
  exists 1%nat. simpl. rewrite gate_trace_app, (moves_no_gate _ _ _ _ Hm).
  reflexivity.
Qed.

Lemma PolyLines_loop_paired F E (cs : CoordinateSystem) lines :
  forall i program prog,
    paired (instructions program) ->
    PolyLines_loop F E cs i lines program = OK prog ->
    paired (instructions prog).
Proof.
  induction lines as [|line lines IH]; intros i program prog Hp; simpl.
  - intros [= <-]. exact Hp.
  - destruct (PolyLine_draw_on _ cs) as [sub|e] eqn:Hsub; simpl; [|discriminate].
    apply IH. simpl. apply paired_app.
    + apply paired_app; [exact Hp | apply paired_comment, paired_nil].
    + exact (PolyLine_paired _ _ _ Hsub).
Qed.

Lemma PolyLines_paired (self : PolyLines) (cs : CoordinateSystem) prog :
  PolyLines_draw_on self cs = OK prog -> paired (instructions prog).
Proof.
  unfold PolyLines_draw_on.
  apply PolyLines_loop_paired. apply paired_nil.
Qed.

Lemma Corner_layers_paired (self : Corner) (cs : CoordinateSystem) n hc zs :
  forall change_start program prog,
    paired (instructions program) ->
    Corner_layers self cs n hc change_start zs program = OK prog ->
    paired (instructions prog).
Proof.
  induction zs as [|z zs IH]; intros change_start program prog Hp; simpl.
  - intros [= <-]. exact Hp.
  - destruct (PolyLines_draw_on _ cs) as [sub|e] eqn:Hsub; simpl; [|discriminate].
    apply IH. simpl. apply paired_app; [exact Hp|].
    exact (PolyLines_paired _ _ _ Hsub).
Qed.

Lemma Corner_paired (self : Corner) (cs : CoordinateSystem) prog :
  Corner_draw_on self cs = OK prog -> paired (instructions prog).
Proof.
  unfold Corner_draw_on.
  destruct (py_div_double (c_width self) (hatch_size self)) as [ratio|e];
    cbn [bind]; [|discriminate].
  destruct (py_div (c_width self) _) as [hc|e]; cbn [bind]; [|discriminate].
  destruct (np_arange 0 _ _) as [zs|e]; cbn [bind]; [|discriminate].
  apply Corner_layers_paired. apply paired_nil.
Qed.

Lemma Lines_draw_on_instructions (self : _Lines) (cs : CoordinateSystem)
      d line0 rest :
  py_div (velocity self ^ 2) (2 * acceleration self) = OK d ->
  lines self = line0 :: rest ->
  let axis := parameter_name (line_axis self) in
  _Lines_draw_on self cs =
  OK (mkProgram cs
        (LINEAR_kwargs
           (dict_update
              [(axis, fst line0 - inject_Z (_direction line0) * d);
               ("F", velocity self)] (secondary_position self))
         :: flat_map (_Lines_segment axis (velocity self)) (lines self)
         ++ [LINEAR_kwargs
               (dict_update
                  [(axis, snd (last (lines self) line0)
                          + inject_Z (_direction line0) * d);
                   ("F", velocity self)] (secondary_position self))])).
Proof.
  intros Hd Hl axis. unfold _Lines_draw_on. rewrite Hd. cbn [bind].
  rewrite Hl at 1. rewrite fold_left_segments. reflexivity.
Qed.

Lemma segments_paired axis v ls : paired (flat_map (_Lines_segment axis v) ls).
Proof.
  induction ls as [|l ls IH]; [apply paired_nil|].
  simpl. apply paired_move, paired_on_off. exact IH.
Qed.

Lemma Lines_paired (self : _Lines) (cs : CoordinateSystem) prog :
  _Lines_draw_on self cs = OK prog -> paired (instructions prog).
Proof.
  destruct (py_div (velocity self ^ 2) (2 * acceleration self)) as [d|e] eqn:Hd.
  - destruct (lines self) as [|line0 rest] eqn:Hl.
    + unfold _Lines_draw_on. rewrite Hd, Hl. discriminate.
    + rewrite (Lines_draw_on_instructions self cs d line0 rest Hd Hl).
      intros [= <-]. cbn [instructions].
      apply paired_move, paired_app;
        [apply segments_paired | apply paired_move, paired_nil].
  - unfold _Lines_draw_on. rewrite Hd. discriminate.
Qed.

(** C3.  Whatever the shape and the coordinate system, a program produced
    by lowering is well gated: its gate instructions are a sequence of
    on/off pairs, so every [GALVO_LASER_OVERRIDE ON] is followed by exactly
    one [OFF] before the program ends with no gate instruction in between,
    and no [OFF] comes without an [ON] still open; the gate state machine
    [well_gated] accepts the program. *)
Theorem lowering_well_gated (shape : DrawableObject) (cs : CoordinateSystem) prog :
  draw_on shape cs = OK prog ->
  well_gated (instructions prog) = true /\
  exists k, gate_trace (instructions prog) = on_off_pairs k.
Proof.
  intros Hd.
  assert (Hp : paired (instructions prog)).
  { destruct shape as [s|s|s|s|s|s| |s]; simpl in Hd.
    - injection Hd as <-. exists 1%nat. reflexivity.
    - exact (Lines_paired _ _ _ Hd).
    - exact (PolyLine_paired _ _ _ Hd).
    - exact (PolyLines_paired _ _ _ Hd).
    - exact (Corner_paired _ _ _ Hd).
    - unfold CornerRectangle_draw_on in Hd.
      destruct (Corner_draw_on (tl_corner s) cs) as [p1|e] eqn:H1; simpl in Hd; [|discriminate].
      destruct (Corner_draw_on (tr_corner s) cs) as [p2|e] eqn:H2; simpl in Hd; [|discriminate].
      destruct (Corner_draw_on (br_corner s) cs) as [p3|e] eqn:H3; simpl in Hd; [|discriminate].
      destruct (Corner_draw_on (bl_corner s) cs) as [p4|e] eqn:H4; simpl in Hd; [|discriminate].
      injection Hd as <-. simpl.
      apply Corner_paired in H1, H2, H3, H4.
      repeat first [ apply paired_app | apply paired_comment | apply paired_nil
                   | assumption ].
    - discriminate.
    - unfold VerticalLine_draw_on in Hd.
      destruct (LINEAR_point _ _ _) as [m1|e] eqn:H1; simpl in Hd; [|discriminate].
      destruct (LINEAR_point _ _ _) as [m2|e] eqn:H2 in Hd; simpl in Hd; [|discriminate].
      injection Hd as <-. simpl.
      rewrite (LINEAR_point_move _ _ _ _ H1), (LINEAR_point_move _ _ _ _ H2).
      exists 1%nat. reflexivity. }
  split; [apply well_gated_paired|]; exact Hp.
Qed.

End Gating.

(** ** Lead-in and lead-out of monotone line sweeps *)

Section LeadInOut.

Context {CoordinateSystem : Type}.

Lemma np_sign_pos q : 0 < q -> np_sign q = 1%Z.
Proof.
  unfold np_sign, Qlt. simpl. rewrite Z.mul_1_r. intros Hq.
  apply Z.sgn_pos. exact Hq.
Qed.

Lemma np_sign_neg q : q < 0 -> np_sign q = (-1)%Z.
Proof.
  unfold np_sign, Qlt. simpl. rewrite Z.mul_1_r. intros Hq.
  apply Z.sgn_neg. exact Hq.
Qed.

Lemma np_sign_zero q : q == 0 -> np_sign q = 0%Z.
Proof.
  unfold np_sign, Qeq. simpl. rewrite Z.mul_1_r. intros ->. reflexivity.
Qed.

Lemma direction_ascending line : fst line < snd line -> _direction line = 1%Z.
Proof.
  intros Hl. apply np_sign_pos. rewrite Qlt_minus_iff in Hl. exact Hl.
Qed.

Lemma direction_descending line : snd line < fst line -> _direction line = (-1)%Z.
Proof.
  intros Hl. apply np_sign_neg. rewrite Qlt_minus_iff in Hl.
  rewrite Qlt_minus_iff.
  setoid_replace (0 + - (snd line - fst line)) with (fst line + - snd line) by ring.
  exact Hl.
Qed.

Lemma direction_degenerate line : fst line == snd line -> _direction line = 0%Z.
Proof.
  intros Hl. apply np_sign_zero. rewrite Hl. ring.
Qed.

Lemma py_div_ok a b : ~ b == 0 -> py_div a b = OK (a / b).
Proof.
  intros Hb. unfold py_div.
  destruct (Qeq_bool b 0) eqn:Hq; [|reflexivity].
  apply Qeq_bool_eq in Hq. contradiction.
Qed.

Lemma py_div_zero a b : b == 0 -> py_div a b = Raise ZeroDivisionError.
Proof.
  intros Hb. unfold py_div. rewrite (Qeq_eq_bool _ _ Hb). reflexivity.
Qed.

Lemma new_sweep_fields axis other z lines v a s :
  new_sweep axis other z lines v a = OK s ->
  s = mkLines axis lines
        match axis with
        | AxisX => [("Y", other); ("Z", z)]
        | AxisY => [("X", other); ("Z", z)]
        end v a.
Proof.
  destruct axis; unfold new_sweep, XLines, YLines, _Lines_init;
    destruct (_validate_lines lines); simpl; congruence.
Qed.

Lemma new_sweep_nonempty axis other z lines v a s :
  new_sweep axis other z lines v a = OK s -> lines <> [].
Proof.
  intros Hs ->. destruct axis; discriminate.
Qed.

(** The program of a sweep, with the lead distance [d] still multiplied
    by the direction of segment 0. *)
Lemma sweep_program axis other z lines v a s (cs : CoordinateSystem) line0 :
  new_sweep axis other z lines v a = OK s ->
  ~ a == 0 ->
  hd_error lines = Some line0 ->
  let d := v ^ 2 / (2 * a) in
  _Lines_draw_on s cs =
  OK (mkProgram cs
        (sweep_move axis (fst line0 - inject_Z (_direction line0) * d) other z v
         :: flat_map (_Lines_segment (parameter_name axis) v) lines
         ++ [sweep_move axis
               (snd (last lines line0) + inject_Z (_direction line0) * d)
               other z v])).
Proof.
  intros Hs Ha Hhd d.
  apply new_sweep_fields in Hs. subst s.
  destruct lines as [|l0 rest]; [discriminate|].
  injection Hhd as ->.
  assert (Hd : py_div (v ^ 2) (2 * a) = OK d).
  { apply py_div_ok. intros H2a. apply Ha.
    setoid_replace a with ((2 * a) / 2) by field. rewrite H2a. reflexivity. }
  match goal with
  | |- _Lines_draw_on ?self cs = _ =>
      rewrite (Lines_draw_on_instructions self cs d line0 rest Hd eq_refl)
  end.
  destruct axis; reflexivity.
Qed.

Lemma lead_distance_positive v a : 0 < a -> ~ v == 0 -> 0 < v ^ 2 / (2 * a).
Proof.
  intros Ha Hv.
  assert (Hsq : 0 < v ^ 2).
  { setoid_replace (v ^ 2) with (v * v) by (simpl; ring).
    destruct (Qlt_le_dec v 0) as [Hneg|Hpos].
    - setoid_replace (v * v) with ((- v) * (- v)) by ring.
      assert (Hn : 0 < - v).
      { rewrite Qlt_minus_iff in Hneg. rewrite Qplus_0_l in Hneg. exact Hneg. }
      rewrite <- (Qmult_0_l (- v)). apply Qmult_lt_compat_r; assumption.
    - assert (Hp : 0 < v).
      { apply Qle_lt_or_eq in Hpos. destruct Hpos as [Hp|Hz]; [exact Hp|].
        exfalso. apply Hv. symmetry. exact Hz. }
      rewrite <- (Qmult_0_l v). apply Qmult_lt_compat_r; assumption. }
  apply Qlt_shift_div_l.
  - rewrite <- (Qmult_0_r 2). apply Qmult_lt_l; [reflexivity | exact Ha].
  - rewrite Qmult_0_l. exact Hsq.
Qed.

(** C2 (as amended).  For a sweep built by [XLines] or [YLines] with a
    positive acceleration [a] and a velocity [v] other than 0 whose
    segment 0 has non-zero length, the lead distance [d = v^2 / (2 a)] is
    positive and lowering emits first a move to the start of segment 0
    displaced by exactly [d] against the direction of travel, so before
    the first programmed point, then the gated segments, and last a move
    to the end of the last segment displaced by exactly [d] along the
    direction of travel, so after the last programmed point; for
    [v = 200] and [a = 1000] that distance is 20. *)
Theorem sweep_lead_in_out axis other z lines v a s (cs : CoordinateSystem) line0 :
  new_sweep axis other z lines v a = OK s ->
  0 < a ->
  ~ v == 0 ->
  hd_error lines = Some line0 ->
  ~ fst line0 == snd line0 ->
  let d := v ^ 2 / (2 * a) in
  0 < d
  /\ (exists start_value end_value,
      _Lines_draw_on s cs =
      OK (mkProgram cs
            (sweep_move axis start_value other z v
             :: flat_map (_Lines_segment (parameter_name axis) v) lines
             ++ [sweep_move axis end_value other z v]))
      /\ (fst line0 < snd line0 ->
          (start_value == fst line0 - d /\
           end_value == snd (last lines line0) + d) /\
          start_value < fst line0 /\
          snd (last lines line0) < end_value)
      /\ (snd line0 < fst line0 ->
          (start_value == fst line0 + d /\
           end_value == snd (last lines line0) - d) /\
          fst line0 < start_value /\
          end_value < snd (last lines line0)))
  /\ 200 ^ 2 / (2 * 1000) == 20.
Proof.
  intros Hs Ha Hv Hhd Hlen d.
  assert (Hd : 0 < d) by exact (lead_distance_positive v a Ha Hv).
  assert (Ha0 : ~ a == 0).
  { intros H0. rewrite H0 in Ha. discriminate Ha. }
  split; [exact Hd|]. split; [|reflexivity].
  eexists _, _. split; [exact (sweep_program _ _ _ _ _ _ _ cs _ Hs Ha0 Hhd)|].
  fold d. split; intros Hdir.
  - rewrite (direction_ascending _ Hdir).
    split; [split; ring|]. split.
    + rewrite Qlt_minus_iff.
      setoid_replace (fst line0 + - (fst line0 - inject_Z 1 * d)) with d
        by (simpl; ring).
      exact Hd.
    + rewrite Qlt_minus_iff.
      setoid_replace (snd (last lines line0) + inject_Z 1 * d
                      + - snd (last lines line0)) with d by (simpl; ring).
      exact Hd.
  - rewrite (direction_descending _ Hdir).
    split; [split; ring|]. split.
    + rewrite Qlt_minus_iff.
      setoid_replace (fst line0 - inject_Z (-1) * d + - fst line0) with d
        by (simpl; ring).
      exact Hd.
    + rewrite Qlt_minus_iff.
      setoid_replace (snd (last lines line0)
                      + - (snd (last lines line0) + inject_Z (-1) * d)) with d
        by (simpl; ring).
      exact Hd.
Qed.

End LeadInOut.

Lemma sweep_lead_in_out_witness :
  XLines 7 8 [(0, 1); (2, 3)] 200 1000
  = OK (mkLines AxisX [(0, 1); (2, 3)] [("Y", 7); ("Z", 8)] 200 1000)
  /\ 0 < 1000
  /\ ~ 200 == 0
  /\ ~ fst (0, 1) == snd (0, 1)
  /\ exists start_value end_value,
      _Lines_draw_on
        (mkLines AxisX [(0, 1); (2, 3)] [("Y", 7); ("Z", 8)] 200 1000) tt =
      OK (mkProgram tt
            (LINEAR [("X", start_value); ("Y", 7); ("Z", 8)] (Some 200) None
             :: flat_map (_Lines_segment "X" 200) [(0, 1); (2, 3)]
             ++ [LINEAR [("X", end_value); ("Y", 7); ("Z", 8)] (Some 200) None]))
      /\ start_value == 0 - 20 /\ end_value == 3 + 20
      /\ start_value < 0 /\ 3 < end_value.
Proof.
  assert (Ha : 0 < 1000) by reflexivity.
  assert (Hv : ~ 200 == 0) by discriminate.
  assert (Hl : ~ fst (0, 1) == snd (0, 1)) by discriminate.
  split; [reflexivity|]. split; [exact Ha|]. split; [exact Hv|].
  split; [exact Hl|].
  destruct (sweep_lead_in_out AxisX 7 8 [(0, 1); (2, 3)] 200 1000 _ tt (0, 1)
              eq_refl Ha Hv eq_refl Hl) as (_ & (sv & ev & Hprog & Hasc & _) & _).
  exists sv, ev. split; [exact Hprog|].
  destruct (Hasc eq_refl) as [[Hsv Hev] [Hbefore Hafter]].
  split; [rewrite Hsv; reflexivity|]. split; [rewrite Hev; reflexivity|].
  split; [exact Hbefore | exact Hafter].
Defined.

(** C2 (as stated) fails for a sweep of zero-length segments: the
    direction of [(5, 5)] is 0, so with [v = 200] and [a = 1000] the first
    and the last move both go to 5 itself, not to a point 20 away.  It
    fails for the acceleration 0, where the lead distance is a division
    by zero and lowering emits no move at all; for a negative
    acceleration, where the lead distance is negative: with [a = -1000]
    the sweep over [(0, 1)] and [(2, 3)] starts at 20, behind the first
    programmed point 0, and ends at -17, before the last programmed
    point 3; and for the velocity 0, where the first and the last move go
    to the first and the last programmed point themselves. *)
Lemma sweep_zero_length_no_lead :
  (exists s start_value end_value,
      XLines 0 0 [(5, 5)] 200 1000 = OK s /\
      _Lines_draw_on s tt =
      OK (mkProgram tt
            (LINEAR [("X", start_value); ("Y", 0); ("Z", 0)] (Some 200) None
             :: flat_map (_Lines_segment "X" 200) [(5, 5)]
             ++ [LINEAR [("X", end_value); ("Y", 0); ("Z", 0)] (Some 200) None]))
      /\ start_value == 5 /\ end_value == 5
      /\ ~ start_value == 5 - 20 /\ ~ start_value == 5 + 20
      /\ ~ end_value == 5 + 20 /\ ~ end_value == 5 - 20)
  /\ (exists s,
         XLines 0 0 [(0, 1)] 200 0 = OK s /\
         _Lines_draw_on s tt = Raise ZeroDivisionError)
  /\ (exists s start_value end_value,
         XLines 0 0 [(0, 1); (2, 3)] 200 (-1000) = OK s /\
         _Lines_draw_on s tt =
         OK (mkProgram tt
               (LINEAR [("X", start_value); ("Y", 0); ("Z", 0)] (Some 200) None
                :: flat_map (_Lines_segment "X" 200) [(0, 1); (2, 3)]
                ++ [LINEAR [("X", end_value); ("Y", 0); ("Z", 0)]
                      (Some 200) None]))
         /\ start_value == 20 /\ end_value == -17
         /\ 0 < start_value /\ end_value < 3)
  /\ (exists s start_value end_value,
         XLines 0 0 [(0, 1); (2, 3)] 0 1000 = OK s /\
         _Lines_draw_on s tt =
         OK (mkProgram tt
               (LINEAR [("X", start_value); ("Y", 0); ("Z", 0)] (Some 0) None
                :: flat_map (_Lines_segment "X" 0) [(0, 1); (2, 3)]
                ++ [LINEAR [("X", end_value); ("Y", 0); ("Z", 0)]
                      (Some 0) None]))
         /\ start_value == 0 /\ end_value == 3).
Proof.
  split; [|split; [|split]].
  - eexists _, _, _. split; [reflexivity|]. split; [reflexivity|].
    repeat split; try reflexivity; discriminate.
  - eexists. split; reflexivity.
  - eexists _, _, _. split; [reflexivity|]. split; [reflexivity|].
    repeat split.
  - eexists _, _, _. split; [reflexivity|]. split; [reflexivity|].
    repeat split.
Qed.

(** ** Double precision *)

(** *** Rounding to an integer *)

Lemma py_round_comp p q : p == q -> py_round p = py_round q.
Proof.
  intros Hpq. unfold py_round.
  rewrite (Qfloor_comp _ _ Hpq).
  assert (Hr : p - inject_Z (Qfloor q) == q - inject_Z (Qfloor q))
    by (rewrite Hpq; reflexivity).
  rewrite (Qcompare_comp _ _ Hr _ _ (Qeq_refl (1 # 2))). reflexivity.
Qed.

Lemma py_round_floor q :
  py_round q = Qfloor q \/
  (py_round q = (Qfloor q + 1)%Z /\ (1 # 2) <= q - inject_Z (Qfloor q)).
Proof.
  unfold py_round.
  destruct (q - inject_Z (Qfloor q) ?= 1 # 2) eqn:Hc.
  - apply Qeq_alt in Hc.
    destruct (Z.even (Qfloor q)); [left; reflexivity|].
    right. split; [reflexivity|]. rewrite Hc. apply Qle_refl.
  - left. reflexivity.
  - right. split; [reflexivity|]. apply Qlt_le_weak. apply Qgt_alt. exact Hc.
Qed.

Lemma py_round_nonneg q : 0 <= q -> (0 <= py_round q)%Z.
Proof.
  intros Hq.
  assert (Hf : (0 <= Qfloor q)%Z).
  { rewrite <- (Qfloor_Z 0). apply Qfloor_resp_le. exact Hq. }
  destruct (py_round_floor q) as [->|[-> _]]; lia.
Qed.

Lemma py_round_le q k : q <= inject_Z k -> (py_round q <= k)%Z.
Proof.
  intros Hq.
  assert (Hf : (Qfloor q <= k)%Z).
  { rewrite <- (Qfloor_Z k). apply Qfloor_resp_le. exact Hq. }
  destruct (py_round_floor q) as [->|[-> Hr]]; [exact Hf|].
  destruct (Z.eq_dec (Qfloor q) k) as [Hk|Hk]; [|lia].
  exfalso. rewrite Hk in Hr.
  assert (H0 : q - inject_Z k <= 0).
  { rewrite <- (Qplus_opp_r (inject_Z k)). apply Qplus_le_l. exact Hq. }
  apply (Qlt_irrefl 0). apply Qlt_le_trans with (1 # 2); [reflexivity|].
  apply Qle_trans with (q - inject_Z k); assumption.
Qed.

(** *** Powers of two *)

Lemma pow2_pos e : 0 < 2 ^ e.
Proof. apply Qpower_0_lt. reflexivity. Qed.

Lemma pow2_le e e' : (e <= e')%Z -> 2 ^ e <= 2 ^ e'.
Proof. intros He. apply Qpower_le_compat_l; [exact He | discriminate]. Qed.

Lemma pow2_succ e : 2 ^ (e + 1) == 2 * 2 ^ e.
Proof. rewrite Qpower_plus by discriminate. rewrite Qpower_1_r. ring. Qed.

Lemma pow2_Z e : (0 <= e)%Z -> 2 ^ e == inject_Z (2 ^ e).
Proof. intros He. rewrite Zpower_Qpower by exact He. reflexivity. Qed.

Lemma Qdiv_lt_cross x d y D :
  (0 < d)%Z -> (0 < D)%Z -> (x * D < y * d)%Z ->
  inject_Z x / inject_Z d < inject_Z y / inject_Z D.
Proof.
  intros Hd HD Hlt.
  assert (Hd' : 0 < inject_Z d) by (rewrite <- (Zlt_Qlt 0); exact Hd).
  assert (HD' : 0 < inject_Z D) by (rewrite <- (Zlt_Qlt 0); exact HD).
  apply Qlt_shift_div_r; [exact Hd'|].
  setoid_replace (inject_Z y / inject_Z D * inject_Z d)
    with (inject_Z y * inject_Z d / inject_Z D)
    by (field; intros H0; rewrite H0 in HD'; discriminate HD').
  apply Qlt_shift_div_l; [exact HD'|].
  rewrite <- !inject_Z_mult, <- Zlt_Qlt. exact Hlt.
Qed.

(** *** The exponent *)

Lemma binade_estimate a :
  0 < a ->
  let e0 := (Z.log2 (Qnum a) - Z.log2 (Zpos (Qden a)))%Z in
  2 ^ (e0 - 1) < a /\ a < 2 ^ (e0 + 1).
Proof.
  intros Ha. cbv zeta. destruct a as [n d].
  assert (Hn : (0 < n)%Z).
  { unfold Qlt in Ha. simpl in Ha. lia. }
  cbn [Qnum Qden].
  pose proof (Z.log2_spec n Hn) as [Hn1 Hn2].
  pose proof (Z.log2_spec (Z.pos d) (Pos2Z.is_pos d)) as [Hd1 Hd2].
  pose proof (Z.log2_nonneg n) as Hln.
  pose proof (Z.log2_nonneg (Z.pos d)) as Hld.
  set (ln := Z.log2 n) in *. set (ld := Z.log2 (Z.pos d)) in *.
  rewrite Z.pow_succ_r in Hn2, Hd2 by assumption.
  assert (HN : (0 < 2 ^ ln)%Z) by (apply Z.pow_pos_nonneg; lia).
  assert (HD : (0 < 2 ^ ld)%Z) by (apply Z.pow_pos_nonneg; lia).
  rewrite (Qmake_Qdiv n d).
  split.
  - replace (ln - ld - 1)%Z with (ln - (ld + 1))%Z by lia.
    rewrite Qpower_minus by discriminate.
    rewrite (pow2_Z ln), (pow2_Z (ld + 1)) by lia.
    apply Qdiv_lt_cross; [|lia|].
    + apply Z.pow_pos_nonneg; lia.
    + rewrite Z.pow_add_r by lia. nia.
  - replace (ln - ld + 1)%Z with ((ln + 1) - ld)%Z by lia.
    rewrite Qpower_minus by discriminate.
    rewrite (pow2_Z (ln + 1)), (pow2_Z ld) by lia.
    apply Qdiv_lt_cross; [lia | exact HD |].
    rewrite Z.pow_add_r by lia. nia.
Qed.

Lemma binade_spec a : 0 < a -> 2 ^ binade a <= a /\ a < 2 ^ (binade a + 1).
Proof.
  intros Ha. destruct (binade_estimate a Ha) as [Hlo Hhi]. unfold binade.
  set (e0 := (Z.log2 (Qnum a) - Z.log2 (Z.pos (Qden a)))%Z) in *.
  destruct (Qle_bool (2 ^ e0) a) eqn:Hle.
  - apply Qle_bool_iff in Hle. split; assumption.
  - split; [apply Qlt_le_weak; exact Hlo|].
    replace (e0 - 1 + 1)%Z with e0 by lia.
    apply Qnot_le_lt. intros Hc. apply Qle_bool_iff in Hc. congruence.
Qed.

Lemma binade_unique a e :
  2 ^ e <= a -> a < 2 ^ (e + 1) -> binade a = e.
Proof.
  intros Hlo Hhi.
  assert (Ha : 0 < a) by (eapply Qlt_le_trans; [apply pow2_pos | exact Hlo]).
  destruct (binade_spec a Ha) as [Hlo' Hhi'].
  assert (H1 : (binade a < e + 1)%Z).
  { apply (Qpower_lt_compat_l_inv 2); [|reflexivity].
    eapply Qle_lt_trans; eassumption. }
  assert (H2 : (e < binade a + 1)%Z).
  { apply (Qpower_lt_compat_l_inv 2); [|reflexivity].
    eapply Qle_lt_trans; eassumption. }
  lia.
Qed.

Lemma binade_comp a b : 0 < a -> a == b -> binade a = binade b.
Proof.
  intros Ha Hab. symmetry. destruct (binade_spec a Ha) as [Hlo Hhi].
  apply binade_unique; rewrite <- Hab; assumption.
Qed.

(** *** Rounding to a double *)

Lemma Qabs_nonzero_pos p : ~ p == 0 -> 0 < Qabs p.
Proof.
  intros Hp. apply Qabs_case; intros H0.
  - destruct (Qle_lt_or_eq _ _ H0) as [Hlt|Heq]; [exact Hlt|].
    exfalso. apply Hp. symmetry. exact Heq.
  - destruct (Qle_lt_or_eq _ _ H0) as [Hlt|Heq].
    + apply Qopp_lt_compat in Hlt. exact Hlt.
    + contradiction.
Qed.

Lemma Qeq_bool_false p : Qeq_bool p 0 = false -> ~ p == 0.
Proof. intros Hp H0. apply Qeq_bool_iff in H0. congruence. Qed.

Lemma sgn_num_comp p q : p == q -> Z.sgn (Qnum p) = Z.sgn (Qnum q).
Proof.
  unfold Qeq. destruct p as [[|n|n] d], q as [[|m|m] d']; simpl;
    intros Heq; try reflexivity; discriminate.
Qed.

Lemma binary64_comp p q : p == q -> binary64 p == binary64 q.
Proof.
  intros Hpq. unfold binary64.
  destruct (Qeq_bool p 0) eqn:Hp.
  - apply Qeq_bool_iff in Hp.
    assert (Hq : Qeq_bool q 0 = true)
      by (apply Qeq_bool_iff; rewrite <- Hpq; exact Hp).
    rewrite Hq. reflexivity.
  - assert (Hq : Qeq_bool q 0 = false).
    { destruct (Qeq_bool q 0) eqn:Hq; [|reflexivity].
      apply Qeq_bool_iff in Hq. rewrite <- Hpq in Hq.
      apply Qeq_bool_iff in Hq. congruence. }
    rewrite Hq.
    assert (Habs : Qabs p == Qabs q) by (rewrite Hpq; reflexivity).
    pose proof (Qabs_nonzero_pos p (Qeq_bool_false p Hp)) as Hpos.
    rewrite (binade_comp _ _ Hpos Habs), (sgn_num_comp _ _ Hpq).
    rewrite (py_round_comp (Qabs p / 2 ^ Z.max (binade (Qabs q) - 52) (-1074))
               (Qabs q / 2 ^ Z.max (binade (Qabs q) - 52) (-1074)))
      by (rewrite Habs; reflexivity).
    reflexivity.
Qed.

Lemma binary64_zero q : q == 0 -> binary64 q = 0.
Proof.
  intros Hq. unfold binary64. apply Qeq_bool_iff in Hq. rewrite Hq.
  reflexivity.
Qed.

(** A double is positive, zero or negative with the number it rounds. *)
Lemma binary64_nonneg q : 0 <= q -> 0 <= binary64 q.
Proof.
  intros Hq. unfold binary64.
  destruct (Qeq_bool q 0) eqn:H0; [apply Qle_refl|].
  apply Qmult_le_0_compat; [|apply Qlt_le_weak, pow2_pos].
  rewrite <- (Zle_Qle 0). apply Z.mul_nonneg_nonneg.
  - unfold Qle in Hq. simpl in Hq. rewrite Z.mul_1_r in Hq.
    apply Z.sgn_nonneg. exact Hq.
  - apply py_round_nonneg. apply Qle_shift_div_l; [apply pow2_pos|].
    rewrite Qmult_0_l. apply Qabs_nonneg.
Qed.

(** Numbers in [[-1/2, 1/2]] stay there: 1/2 is a double. *)
Lemma binary64_small q :
  - (1 # 2) <= q -> q <= 1 # 2 ->
  - (1 # 2) <= binary64 q /\ binary64 q <= 1 # 2.
Proof.
  intros Hlo Hhi. unfold binary64.
  destruct (Qeq_bool q 0) eqn:H0; [split; discriminate|].
  pose proof (Qabs_nonzero_pos q (Qeq_bool_false q H0)) as Hpos.
  assert (Habs : Qabs q <= 1 # 2) by (apply Qabs_Qle_condition; split; assumption).
  destruct (binade_spec _ Hpos) as [Hb _].
  set (e := binade (Qabs q)) in *.
  assert (He : (e <= -1)%Z).
  { apply (Qpower_le_compat_l_inv 2); [|reflexivity].
    eapply Qle_trans; [exact Hb|]. exact Habs. }
  set (p := Z.max (e - 52) (-1074)).
  assert (Hp : (p <= -1)%Z) by (unfold p; lia).
  set (K := (2 ^ (- 1 - p))%Z).
  assert (HK : inject_Z K * 2 ^ p == 1 # 2).
  { unfold K. rewrite <- pow2_Z by lia.
    rewrite <- Qpower_plus by discriminate.
    replace (-1 - p + p)%Z with (-1)%Z by lia. reflexivity. }
  set (r := py_round (Qabs q / 2 ^ p)).
  assert (Hr0 : (0 <= r)%Z).
  { apply py_round_nonneg. apply Qle_shift_div_l; [apply pow2_pos|].
    rewrite Qmult_0_l. apply Qabs_nonneg. }
  assert (HrK : (r <= K)%Z).
  { apply py_round_le. apply Qle_shift_div_r; [apply pow2_pos|].
    rewrite HK. exact Habs. }
  assert (Hmag : inject_Z r * 2 ^ p <= 1 # 2).
  { rewrite <- HK. apply Qmult_le_compat_r; [|apply Qlt_le_weak, pow2_pos].
    rewrite <- Zle_Qle. exact HrK. }
  assert (Hmag0 : 0 <= inject_Z r * 2 ^ p).
  { apply Qmult_le_0_compat; [|apply Qlt_le_weak, pow2_pos].
    rewrite <- (Zle_Qle 0). exact Hr0. }
  destruct (Z.sgn_spec (Qnum q)) as [[_ ->]|[[_ ->]|[_ ->]]].
  - rewrite Z.mul_1_l. split; [|exact Hmag].
    apply Qle_trans with 0; [discriminate | exact Hmag0].
  - rewrite Z.mul_0_l. split; discriminate.
  - replace (-1 * r)%Z with (- r)%Z by lia. rewrite inject_Z_opp.
    setoid_replace (- inject_Z r * 2 ^ p) with (- (inject_Z r * 2 ^ p)) by ring.
    split.
    + apply Qopp_le_compat in Hmag. exact Hmag.
    + apply Qle_trans with 0; [|discriminate].
      apply Qopp_le_compat in Hmag0. exact Hmag0.
Qed.

Lemma Qfloor_unique q z :
  inject_Z z <= q -> q < inject_Z z + 1 -> Qfloor q = z.
Proof.
  intros Hlo Hhi.
  assert (H1 : (z <= Qfloor q)%Z).
  { rewrite <- (Qfloor_Z z). apply Qfloor_resp_le. exact Hlo. }
  assert (H2 : (Qfloor q < z + 1)%Z).
  { rewrite Zlt_Qlt, inject_Z_plus.
    apply Qle_lt_trans with q; [apply Qfloor_le | exact Hhi]. }
  lia.
Qed.

(** Ratios in [[-1/2, 1/2]] round to 0: ties go to the even integer. *)
Lemma py_round_small q : - (1 # 2) <= q -> q <= 1 # 2 -> py_round q = 0%Z.
Proof.
  intros Hlo Hhi. unfold py_round.
  destruct (Qlt_le_dec q 0) as [Hneg|Hpos].
  - assert (Hf : Qfloor q = (-1)%Z).
    { apply Qfloor_unique.
      - apply Qle_trans with (- (1 # 2)); [discriminate | exact Hlo].
      - setoid_replace (inject_Z (-1) + 1) with 0 by reflexivity. exact Hneg. }
    rewrite Hf.
    destruct (q - inject_Z (-1) ?= 1 # 2) eqn:Hc; try reflexivity.
    rewrite <- Qlt_alt in Hc. exfalso.
    apply (Qlt_irrefl (- (1 # 2))). apply Qle_lt_trans with q; [exact Hlo|].
    setoid_replace q with (q - inject_Z (-1) - 1) by (simpl; ring).
    setoid_replace (- (1 # 2)) with ((1 # 2) - 1) by reflexivity.
    apply Qplus_lt_l. exact Hc.
  - assert (Hf : Qfloor q = 0%Z).
    { apply Qfloor_unique; [exact Hpos|].
      apply Qle_lt_trans with (1 # 2); [exact Hhi | reflexivity]. }
    rewrite Hf.
    destruct (q - inject_Z 0 ?= 1 # 2) eqn:Hc; try reflexivity.
    rewrite <- Qgt_alt in Hc. exfalso.
    apply (Qlt_irrefl (1 # 2)). apply Qlt_le_trans with q; [|exact Hhi].
    setoid_replace q with (q - inject_Z 0) by (simpl; ring). exact Hc.
Qed.

(** The double quotient of a ratio in [[-1/2, 1/2]] rounds to 0. *)
Lemma py_round_small_double q :
  - (1 # 2) <= q -> q <= 1 # 2 -> py_round (binary64 q) = 0%Z.
Proof.
  intros Hlo Hhi. destruct (binary64_small q Hlo Hhi) as [Hlo' Hhi'].
  apply py_round_small; assumption.
Qed.

Lemma py_round_undefined_ratio w h :
  h == 0 -> py_round (binary64 (w / h)) = 0%Z.
Proof.
  intros Hh. rewrite binary64_zero; [reflexivity|].
  unfold Qdiv. rewrite Hh. unfold Qinv. simpl. ring.
Qed.

Lemma py_div_double_ok a b :
  ~ b == 0 -> py_div_double a b = OK (binary64 (a / b)).
Proof.
  intros Hb. unfold py_div_double.
  destruct (Qeq_bool b 0) eqn:Hq; [|reflexivity].
  apply Qeq_bool_eq in Hq. contradiction.
Qed.

Lemma py_div_double_zero a b :
  b == 0 -> py_div_double a b = Raise ZeroDivisionError.
Proof.
  intros Hb. unfold py_div_double. rewrite (Qeq_eq_bool _ _ Hb). reflexivity.
Qed.

Lemma np_arange_ok start stop step :
  ~ step == 0 ->
  np_arange start stop step =
  OK (map (fun i => start + inject_Z (Z.of_nat i) * step)
          (seq 0 (Z.to_nat
                    (Qceiling (binary64 (binary64 (stop - start) / step)))))).
Proof.
  intros Hs. unfold np_arange. rewrite (py_div_double_ok _ _ Hs). reflexivity.
Qed.

Lemma np_arange_zero_step start stop step :
  step == 0 -> np_arange start stop step = Raise ZeroDivisionError.
Proof.
  intros Hs. unfold np_arange. rewrite (py_div_double_zero _ _ Hs).
  reflexivity.
Qed.

(** The quotient [np.arange(0, H, L)] takes the ceiling of, for a double
    [H]: subtracting 0 is exact. *)
Lemma arange_quotient H0 L :
  is_double H0 -> binary64 (binary64 (H0 - 0) / L) == binary64 (H0 / L).
Proof.
  intros HH. apply binary64_comp.
  assert (Hd : binary64 (H0 - 0) == H0).
  { rewrite (binary64_comp (H0 - 0) H0) by ring. exact HH. }
  rewrite Hd. reflexivity.
Qed.

(** ** Hatched corners *)

Section Hatching.

Context {CoordinateSystem : Type} `{FloatMath}.

Lemma LINEAR_point_as_dict p F E :
  LINEAR_point (as_dict p) F E = OK (LINEAR (as_dict p) F E).
Proof. unfold as_dict. destruct (pZ p); reflexivity. Qed.

Lemma PolyLine_three_points (cs : CoordinateSystem) p1 p2 p3 F E :
  PolyLine_draw_on (mkPolyLine [as_dict p1; as_dict p2; as_dict p3] F E) cs =
  OK (mkProgram cs
        [LINEAR (as_dict p1) F E; GALVO_LASER_OVERRIDE ON;
         LINEAR (as_dict p2) F E; LINEAR (as_dict p3) F E;
         GALVO_LASER_OVERRIDE OFF]).
Proof.
  unfold PolyLine_draw_on. cbn [pl_line pl_F pl_E mapM].
  rewrite !LINEAR_point_as_dict. reflexivity.
Qed.

Lemma serpentine_parity i k :
  ((Z.of_nat i + (if (k mod 2 =? 1)%nat then 1 else 0)) mod 2 =? 0)%Z =
  negb ((i + k) mod 2 =? 1)%nat.
Proof.
  destruct (Nat.eqb_spec (k mod 2) 1) as [Hk|Hk];
    destruct (Nat.eqb_spec ((i + k) mod 2) 1) as [Hik|Hik]; cbn [negb];
    [apply Z.eqb_neq | apply Z.eqb_eq | apply Z.eqb_neq | apply Z.eqb_eq];
    lia_mod.
Qed.

Lemma parity_toggle k : negb (k mod 2 =? 1)%nat = (S k mod 2 =? 1)%nat.
Proof.
  destruct (Nat.eqb_spec (k mod 2) 1), (Nat.eqb_spec (S k mod 2) 1);
    simpl; try reflexivity; lia_mod.
Qed.

(** One stroke of [single_layer], lowered as a polyline after its
    comment, is [stroke_instructions]. *)
Lemma stroke_lowering (c : Corner) (cs : CoordinateSystem) k z n pitch i :
  exists sub,
    PolyLine_draw_on
      (mkPolyLine
         (single_layer_stroke (Point_add (corner_center c) (Point3D 0 0 z))
            (c_length c) (c_width c) n pitch (k mod 2 =? 1)%nat
            (rotation_rad c) (Z.of_nat i))
         (c_F c) (c_E c)) cs = OK sub /\
    coordinate_system sub = cs /\
    polyline_comment i :: instructions sub = stroke_instructions c k z n pitch i.
Proof.
  unfold single_layer_stroke, stroke_instructions, stroke_points, stroke_diagonal.
  rewrite serpentine_parity.
  destruct ((i + k) mod 2 =? 1)%nat; cbn [negb];
    rewrite PolyLine_three_points; eexists; repeat split.
Qed.

Lemma strokes_lowering (c : Corner) (cs : CoordinateSystem) k z n pitch len :
  forall start program,
    PolyLines_loop (c_F c) (c_E c) cs start
      (map (fun i => single_layer_stroke
                       (Point_add (corner_center c) (Point3D 0 0 z))
                       (c_length c) (c_width c) n pitch (k mod 2 =? 1)%nat
                       (rotation_rad c) (Z.of_nat i))
           (seq start len)) program =
    OK (mkProgram (coordinate_system program)
          (instructions program
           ++ flat_map (stroke_instructions c k z n pitch) (seq start len))).
Proof.
  induction len as [|len IH]; intros start program;
    cbn [seq map PolyLines_loop flat_map].
  - rewrite app_nil_r. destruct program; reflexivity.
  - destruct (stroke_lowering c cs k z n pitch start) as (sub & Hsub & _ & Hi).
    rewrite Hsub. cbn [bind]. rewrite IH. cbn [add_programm emit
      coordinate_system instructions].
    rewrite <- Hi, <- !app_assoc. reflexivity.
Qed.

Lemma layer_lowering (c : Corner) (cs : CoordinateSystem) k z n pitch :
  PolyLines_draw_on
    (single_layer (Point_add (corner_center c) (Point3D 0 0 z))
       (c_length c) (c_width c) n pitch (k mod 2 =? 1)%nat
       (c_E c) (c_F c) (rotation_rad c)) cs =
  OK (mkProgram cs (layer_instructions c n pitch k z)).
Proof.
  unfold PolyLines_draw_on, single_layer. cbn [pls_lines pls_F pls_E].
  rewrite strokes_lowering. reflexivity.
Qed.

Lemma layers_lowering (c : Corner) (cs : CoordinateSystem) n pitch zs :
  forall k0 program,
    Corner_layers c cs n pitch (k0 mod 2 =? 1)%nat zs program =
    OK (mkProgram (coordinate_system program)
          (instructions program ++ layers_instructions c n pitch k0 zs)).
Proof.
  unfold layers_instructions.
  induction zs as [|z zs IH]; intros k0 program;
    cbn [List.length seq combine flat_map Corner_layers fst snd].
  - rewrite app_nil_r. destruct program; reflexivity.
  - rewrite layer_lowering. cbn [bind]. rewrite parity_toggle, IH.
    cbn [add_programm coordinate_system instructions].
    rewrite <- app_assoc. reflexivity.
Qed.

(** The program of a corner whose two divisions are defined: one layer
    for every height offset that [np.arange] yields. *)
Lemma Corner_program_layers (c : Corner) (cs : CoordinateSystem) :
  ~ hatch_size c == 0 ->
  py_round (binary64 (c_width c / hatch_size c)) <> 0%Z ->
  let n := (py_round (binary64 (c_width c / hatch_size c)) + 1)%Z in
  let pitch := c_width c / inject_Z (n - 1) in
  Corner_draw_on c cs =
  match np_arange 0 (c_height c) (layer_height c) with
  | OK zs => OK (mkProgram cs (layers_instructions c n pitch 0 zs))
  | Raise e => Raise e
  end.
Proof.
  intros Hh Hn n pitch. unfold Corner_draw_on.
  rewrite (py_div_double_ok _ _ Hh). cbn [bind]. fold n.
  rewrite py_div_ok.
  - cbn [bind]. fold pitch.
    destruct (np_arange 0 (c_height c) (layer_height c)) as [zs|e];
      cbn [bind]; [|reflexivity].
    exact (layers_lowering c cs n pitch zs 0 (new_program cs)).
  - unfold n.
    replace (py_round (binary64 (c_width c / hatch_size c)) + 1 - 1)%Z
      with (py_round (binary64 (c_width c / hatch_size c))) by lia.
    intros Hz. apply Hn.
    unfold Qeq in Hz. simpl in Hz. lia.
Qed.

Lemma Corner_program (c : Corner) (cs : CoordinateSystem) :
  ~ hatch_size c == 0 ->
  py_round (binary64 (c_width c / hatch_size c)) <> 0%Z ->
  ~ layer_height c == 0 ->
  let n := (py_round (binary64 (c_width c / hatch_size c)) + 1)%Z in
  let pitch := c_width c / inject_Z (n - 1) in
  let zs :=
    map (fun k => 0 + inject_Z (Z.of_nat k) * layer_height c)
        (seq 0 (Z.to_nat
                  (Qceiling
                     (binary64 (binary64 (c_height c - 0)
                                / layer_height c))))) in
  Corner_draw_on c cs = OK (mkProgram cs (layers_instructions c n pitch 0 zs)).
Proof.
  intros Hh Hn Hl n pitch zs.
  rewrite (Corner_program_layers c cs Hh Hn), (np_arange_ok _ _ _ Hl).
  reflexivity.
Qed.

(** Lowering a corner divides by zero when the rounded ratio of width
    and hatch size is 0. *)
Lemma Corner_zero_ratio (c : Corner) (cs : CoordinateSystem) :
  py_round (binary64 (c_width c / hatch_size c)) = 0%Z ->
  Corner_draw_on c cs = Raise ZeroDivisionError.
Proof.
  intros Hr. unfold Corner_draw_on, py_div_double.
  destruct (Qeq_bool (hatch_size c) 0); [reflexivity|].
  cbn [bind]. rewrite Hr. reflexivity.
Qed.

Lemma Forall2_seq_map {A : Type} (R : nat -> A -> Prop) (f : nat -> A) l :
  (forall k, R k (f k)) -> Forall2 R l (map f l).
Proof.
  intros Hf. induction l; simpl; constructor; [apply Hf | assumption].
Qed.

(** C4.  For a hatched corner with [round(width / hatch_size) >= 1],
    where the quotient is the quotient of doubles, lowering emits, for
    every layer that [np.arange] yields, exactly
    [n = round(width / hatch_size) + 1] strokes of three points each (and
    fails only if [np.arange] does, with its [ZeroDivisionError] for the
    layer height 0); the strokes are laid on the diagonal at the
    recomputed pitch [width / (n - 1)]; stroke [i] of layer [k] is drawn
    in reversed point order iff [(i + k) mod 2 = 1].  For width 5 and
    hatch size 1/2 there are 11 strokes at pitch 1/2. *)
Theorem hatched_corner_strokes (c : Corner) (cs : CoordinateSystem) :
  (1 <= py_round (binary64 (c_width c / hatch_size c)))%Z ->
  let n := (py_round (binary64 (c_width c / hatch_size c)) + 1)%Z in
  let pitch := c_width c / inject_Z (n - 1) in
  match np_arange 0 (c_height c) (layer_height c) with
  | OK zs =>
      Corner_draw_on c cs =
      OK (mkProgram cs
            (flat_map
               (fun kz =>
                  flat_map (stroke_instructions c (fst kz) (snd kz) n pitch)
                           (seq 0 (Z.to_nat n)))
               (combine (seq 0 (List.length zs)) zs)))
  | Raise e => e = ZeroDivisionError /\ Corner_draw_on c cs = Raise e
  end
  /\ (forall k z i,
         exists p1 p2 p3,
           stroke_points c z n pitch i = (p1, p2, p3) /\
           let move p := LINEAR p (c_F c) (c_E c) in
           stroke_instructions c k z n pitch i =
           polyline_comment i ::
           if ((i + k) mod 2 =? 1)%nat
           then [move p3; GALVO_LASER_OVERRIDE ON; move p2; move p1;
                 GALVO_LASER_OVERRIDE OFF]
           else [move p1; GALVO_LASER_OVERRIDE ON; move p2; move p3;
                 GALVO_LASER_OVERRIDE OFF])
  /\ (forall i,
         stroke_diagonal n pitch i - stroke_diagonal n pitch (S i) == pitch)
  /\ (py_round (binary64 (5 / (1 # 2))) + 1)%Z = 11%Z
  /\ 5 / inject_Z (11 - 1) == 1 # 2.
Proof.
  intros Hn n pitch.
  assert (Hh : ~ hatch_size c == 0).
  { intros Hh. rewrite (py_round_undefined_ratio _ _ Hh) in Hn. lia. }
  split; [|split; [|split; [|split; reflexivity]]].
  - rewrite (Corner_program_layers c cs Hh) by lia.
    destruct (np_arange 0 (c_height c) (layer_height c)) as [zs|e] eqn:Hzs;
      [reflexivity|].
    split; [|reflexivity].
    unfold np_arange, py_div_double in Hzs.
    destruct (Qeq_bool (layer_height c) 0); cbn [bind] in Hzs;
      [injection Hzs as <-; reflexivity | discriminate Hzs].
  - intros k z i. unfold stroke_instructions.
    destruct (stroke_points c z n pitch i) as [[p1 p2] p3].
    exists p1, p2, p3. split; reflexivity.
  - intros i. unfold stroke_diagonal.
    rewrite Nat2Z.inj_succ. unfold Z.succ. rewrite inject_Z_plus. ring.
Qed.

(** C5 (as amended).  For a hatched corner with positive height [H] (a
    double) and layer height [L] whose rounded ratio
    [round(width / hatch_size)] is not 0, lowering returns the program
    of exactly [ceil(H / L)] layers, where [H / L] is the quotient of
    doubles: layer [k] is the lowering of [single_layer] at the height
    offset [k * L] above the corner centre, for
    [k = 0, ..., ceil(H / L) - 1].  For [H = 3] and [L = 3/4] these are
    the four offsets 0, 3/4, 3/2 and 9/4. *)
Theorem hatched_corner_layers (c : Corner) (cs : CoordinateSystem) :
  0 < c_height c ->
  0 < layer_height c ->
  is_double (c_height c) ->
  py_round (binary64 (c_width c / hatch_size c)) <> 0%Z ->
  let n := (py_round (binary64 (c_width c / hatch_size c)) + 1)%Z in
  let pitch := c_width c / inject_Z (n - 1) in
  (exists zs,
      Z.of_nat (List.length zs)
      = Qceiling (binary64 (c_height c / layer_height c))
      /\ Forall2 (fun k z => z == inject_Z (Z.of_nat k) * layer_height c)
                 (seq 0 (List.length zs)) zs
      /\ Corner_draw_on c cs =
         OK (mkProgram cs
               (flat_map
                  (fun kz => layer_instructions c n pitch (fst kz) (snd kz))
                  (combine (seq 0 (List.length zs)) zs))))
  /\ (forall k z,
         PolyLines_draw_on
           (single_layer (Point_add (corner_center c) (Point3D 0 0 z))
              (c_length c) (c_width c) n pitch (k mod 2 =? 1)%nat
              (c_E c) (c_F c) (rotation_rad c)) cs =
         OK (mkProgram cs (layer_instructions c n pitch k z)))
  /\ Qceiling (binary64 (3 / (3 # 4))) = 4%Z
  /\ exists z0 z1 z2 z3,
      np_arange 0 3 (3 # 4) = OK [z0; z1; z2; z3] /\
      z0 == 0 /\ z1 == 3 # 4 /\ z2 == 3 # 2 /\ z3 == 9 # 4.
Proof.
  intros HH HL Hdouble Hn n pitch.
  assert (HL0 : ~ layer_height c == 0).
  { intros H0. rewrite H0 in HL. discriminate HL. }
  assert (Hh : ~ hatch_size c == 0).
  { intros Hh. apply Hn. apply py_round_undefined_ratio. exact Hh. }
  split; [|split; [|split; [reflexivity|]]].
  - exists (map (fun k => 0 + inject_Z (Z.of_nat k) * layer_height c)
              (seq 0 (Z.to_nat
                        (Qceiling
                           (binary64 (binary64 (c_height c - 0)
                                      / layer_height c)))))).
    split; [|split].
    + rewrite length_map, length_seq.
      rewrite (Qceiling_comp _ _ (arange_quotient _ (layer_height c) Hdouble)).
      apply Z2Nat.id.
      assert (Hpos : 0 <= binary64 (c_height c / layer_height c)).
      { apply binary64_nonneg. apply Qlt_le_weak.
        apply Qlt_shift_div_l; [exact HL|]. rewrite Qmult_0_l. exact HH. }
      assert (Hc : 0 <= inject_Z
                          (Qceiling (binary64 (c_height c / layer_height c))))
        by (eapply Qle_trans; [exact Hpos | apply Qle_ceiling]).
      rewrite <- (Zle_Qle 0) in Hc. exact Hc.
    + rewrite length_map, length_seq.
      apply Forall2_seq_map. intros k. ring.
    + exact (Corner_program c cs Hh Hn HL0).
  - intros k z. apply layer_lowering.
  - eexists _, _, _, _. split; [reflexivity|]. repeat split.
Qed.

(** C10 (as amended).  The recomputed pitch [width / (n - 1)] divides by
    [round(width / hatch_size)], the quotient being the quotient of
    doubles: lowering raises [ZeroDivisionError] instead of returning a
    program exactly when that rounded ratio is 0 (an undefined ratio, for
    hatch size 0, included) or the layer height is 0.  The ratio rounds
    to 0 whenever it lies in [[-1/2, 1/2)], where [n = 1], whatever the
    height; with [round(width / hatch_size) >= 1] and a layer height
    other than 0 lowering returns a program. *)
Theorem hatch_pitch_precondition (c : Corner) (cs : CoordinateSystem) :
  (Corner_draw_on c cs = Raise ZeroDivisionError <->
   py_round (binary64 (c_width c / hatch_size c)) = 0%Z \/
   layer_height c == 0)
  /\
  (- (1 # 2) <= c_width c / hatch_size c ->
   c_width c / hatch_size c < 1 # 2 ->
   (py_round (binary64 (c_width c / hatch_size c)) + 1)%Z = 1%Z /\
   Corner_draw_on c cs = Raise ZeroDivisionError)
  /\
  ((1 <= py_round (binary64 (c_width c / hatch_size c)))%Z ->
   ~ layer_height c == 0 ->
   exists prog, Corner_draw_on c cs = OK prog).
Proof.
  assert (Hreturns : py_round (binary64 (c_width c / hatch_size c)) <> 0%Z ->
                     ~ layer_height c == 0 ->
                     exists prog, Corner_draw_on c cs = OK prog).
  { intros Hn HL.
    assert (Hh : ~ hatch_size c == 0).
    { intros Hh. apply Hn. apply py_round_undefined_ratio. exact Hh. }
    eexists. exact (Corner_program c cs Hh Hn HL). }
  split; [|split].
  - split.
    + intros Hd.
      destruct (Z.eq_dec (py_round (binary64 (c_width c / hatch_size c))) 0)
        as [Hr|Hr]; [left; exact Hr|].
      destruct (Qeq_dec (layer_height c) 0) as [HL|HL]; [right; exact HL|].
      destruct (Hreturns Hr HL) as [prog Hprog].
      rewrite Hprog in Hd. discriminate Hd.
    + intros [Hr|HL]; [exact (Corner_zero_ratio c cs Hr)|].
      destruct (Z.eq_dec (py_round (binary64 (c_width c / hatch_size c))) 0)
        as [Hr|Hr]; [exact (Corner_zero_ratio c cs Hr)|].
      assert (Hh : ~ hatch_size c == 0).
      { intros Hh. apply Hr. apply py_round_undefined_ratio. exact Hh. }
      rewrite (Corner_program_layers c cs Hh Hr),
        (np_arange_zero_step _ _ _ HL).
      reflexivity.
  - intros Hlo Hhi.
    assert (Hr : py_round (binary64 (c_width c / hatch_size c)) = 0%Z)
      by (apply py_round_small_double; [exact Hlo | apply Qlt_le_weak; exact Hhi]).
    split; [rewrite Hr; reflexivity | exact (Corner_zero_ratio c cs Hr)].
  - intros Hn HL. apply Hreturns; [lia | exact HL].
Qed.

End Hatching.

(** ** Closed instances *)

Lemma lowering_well_gated_witness :
  @draw_on unit float_math_at_zero (ShapeCorner (example_corner 1 1)) tt
  = @Corner_draw_on unit float_math_at_zero (example_corner 1 1) tt
  /\ exists prog,
      @Corner_draw_on unit float_math_at_zero (example_corner 1 1) tt = OK prog
      /\ well_gated (instructions prog) = true
      /\ exists k, gate_trace (instructions prog) = on_off_pairs k.
Proof.
  split; [reflexivity|].
  eexists. split; [vm_compute; reflexivity|].
  apply (@lowering_well_gated unit float_math_at_zero
           (ShapeCorner (example_corner 1 1)) tt).
  vm_compute. reflexivity.
Defined.

Lemma hatched_corner_strokes_witness :
  (1 <= py_round (binary64 (c_width (example_corner 5 (1 # 2))
                            / hatch_size (example_corner 5 (1 # 2)))))%Z
  /\ exists zs,
      List.length zs = 4%nat /\
      @Corner_draw_on unit float_math_at_zero (example_corner 5 (1 # 2)) tt =
      OK (mkProgram tt
            (flat_map
               (fun kz =>
                  flat_map
                    (@stroke_instructions float_math_at_zero
                       (example_corner 5 (1 # 2)) (fst kz) (snd kz) 11
                       (5 / inject_Z 10))
                    (seq 0 11))
               (combine (seq 0 (List.length zs)) zs))).
Proof.
  assert (Hn : (1 <= py_round
                      (binary64 (c_width (example_corner 5 (1 # 2))
                                 / hatch_size (example_corner 5 (1 # 2)))))%Z)
    by (vm_compute; discriminate).
  split; [exact Hn|].
  pose proof (proj1 (@hatched_corner_strokes unit float_math_at_zero
                       (example_corner 5 (1 # 2)) tt Hn)) as Hprog.
  cbv zeta in Hprog.
  change (np_arange 0 (c_height (example_corner 5 (1 # 2)))
            (layer_height (example_corner 5 (1 # 2))))
    with (OK (map (fun i => 0 + inject_Z (Z.of_nat i) * (3 # 4)) (seq 0 4)))
    in Hprog.
  eexists. split; [|exact Hprog]. reflexivity.
Defined.

Lemma hatched_corner_layers_witness :
  0 < c_height (example_corner 5 (1 # 2))
  /\ 0 < layer_height (example_corner 5 (1 # 2))
  /\ is_double (c_height (example_corner 5 (1 # 2)))
  /\ py_round (binary64 (c_width (example_corner 5 (1 # 2))
                         / hatch_size (example_corner 5 (1 # 2)))) <> 0%Z
  /\ exists zs,
      Z.of_nat (List.length zs) = 4%Z
      /\ Forall2 (fun k z => z == inject_Z (Z.of_nat k) * (3 # 4))
                 (seq 0 (List.length zs)) zs
      /\ @Corner_draw_on unit float_math_at_zero (example_corner 5 (1 # 2)) tt
         = OK (mkProgram tt
                 (flat_map
                    (fun kz =>
                       @layer_instructions float_math_at_zero
                         (example_corner 5 (1 # 2)) 11 (5 / inject_Z 10)
                         (fst kz) (snd kz))
                    (combine (seq 0 (List.length zs)) zs))).
Proof.
  assert (HH : 0 < c_height (example_corner 5 (1 # 2))) by reflexivity.
  assert (HL : 0 < layer_height (example_corner 5 (1 # 2))) by reflexivity.
  assert (Hd : is_double (c_height (example_corner 5 (1 # 2))))
    by (vm_compute; reflexivity).
  assert (Hn : py_round (binary64 (c_width (example_corner 5 (1 # 2))
                                   / hatch_size (example_corner 5 (1 # 2))))
               <> 0%Z) by (vm_compute; discriminate).
  split; [exact HH|]. split; [exact HL|]. split; [exact Hd|].
  split; [exact Hn|].
  destruct (proj1 (@hatched_corner_layers unit float_math_at_zero
                     (example_corner 5 (1 # 2)) tt HH HL Hd Hn))
    as (zs & Hlen & Hzs & Hprog).
  exists zs. split; [exact Hlen|]. split; [exact Hzs | exact Hprog].
Defined.

(** C5 (as stated) fails for a corner whose rounded ratio is 0: with
    height 3, layer height 3/4, width 1/10 and hatch size 1 the claim
    promises [ceil(3 / (3/4)) = 4] layers, but [round(0.1) = 0], the pitch
    is a division by zero and lowering returns no program at all.  It
    also fails when [H / L] is read as the exact quotient: for the doubles
    nearest to 0.2 and 0.04 the exact quotient is above 5 and its ceiling
    is 6, while the quotient of doubles is 5 and five layers are
    lowered: a corner of width 5 and hatch size 1/2 gets 5 times 11
    strokes. *)
Lemma hatched_corner_no_layers :
  (0 < c_height (example_corner (1 # 10) 1)
   /\ 0 < layer_height (example_corner (1 # 10) 1)
   /\ Qceiling (c_height (example_corner (1 # 10) 1)
                / layer_height (example_corner (1 # 10) 1)) = 4%Z
   /\ @Corner_draw_on unit float_math_at_zero (example_corner (1 # 10) 1) tt
      = Raise ZeroDivisionError)
  /\ (let H0 := 3602879701896397 # 18014398509481984 in
      let L := 5764607523034235 # 144115188075855872 in
      is_double H0 /\ is_double L /\
      Qceiling (H0 / L) = 6%Z /\
      (exists zs, np_arange 0 H0 L = OK zs /\ List.length zs = 5%nat) /\
      exists prog,
        @Corner_draw_on unit float_math_at_zero
          (@Corner_init float_math_at_zero (Point2D 0 0) 10 5 H0 (1 # 2) L 0
             None None) tt = OK prog /\
        gate_trace (instructions prog) = on_off_pairs (5 * 11)).
Proof.
  split.
  - repeat split.
  - cbv zeta. split; [vm_compute; reflexivity|].
    split; [vm_compute; reflexivity|]. split; [vm_compute; reflexivity|].
    split.
    + eexists. split; [vm_compute; reflexivity | reflexivity].
    + eexists. split; [vm_compute; reflexivity | reflexivity].
Qed.

Lemma hatch_pitch_precondition_witness :
  - (1 # 2) <= c_width (example_corner (1 # 10) 1)
               / hatch_size (example_corner (1 # 10) 1)
  /\ c_width (example_corner (1 # 10) 1)
     / hatch_size (example_corner (1 # 10) 1) < 1 # 2
  /\ @Corner_draw_on unit float_math_at_zero (example_corner (1 # 10) 1) tt
     = Raise ZeroDivisionError
  /\ (1 <= py_round (binary64 (c_width (example_corner 5 (1 # 2))
                               / hatch_size (example_corner 5 (1 # 2)))))%Z
  /\ ~ layer_height (example_corner 5 (1 # 2)) == 0
  /\ exists prog,
      @Corner_draw_on unit float_math_at_zero (example_corner 5 (1 # 2)) tt
      = OK prog.
Proof.
  assert (Hlo : - (1 # 2) <= c_width (example_corner (1 # 10) 1)
                            / hatch_size (example_corner (1 # 10) 1))
    by (vm_compute; discriminate).
  assert (Hhi : c_width (example_corner (1 # 10) 1)
                / hatch_size (example_corner (1 # 10) 1) < 1 # 2)
    by (vm_compute; reflexivity).
  assert (Hn : (1 <= py_round
                      (binary64 (c_width (example_corner 5 (1 # 2))
                                 / hatch_size (example_corner 5 (1 # 2)))))%Z)
    by (vm_compute; discriminate).
  assert (HL : ~ layer_height (example_corner 5 (1 # 2)) == 0)
    by discriminate.
  split; [exact Hlo|]. split; [exact Hhi|].
  split; [|split; [exact Hn|split; [exact HL|]]].
  - exact (proj2 (proj1 (proj2 (@hatch_pitch_precondition unit
                                  float_math_at_zero
                                  (example_corner (1 # 10) 1) tt)) Hlo Hhi)).
  - exact (proj2 (proj2 (@hatch_pitch_precondition unit float_math_at_zero
                           (example_corner 5 (1 # 2)) tt)) Hn HL).
Defined.

(** C10 (as stated) fails for a negative ratio: with width -1 and hatch
    size 1 the ratio -1 is below 1/2 and the height 3 is positive, yet
    [n = 0], the pitch is [-1 / -1] and lowering returns a program (an
    empty one, since no stroke is generated). *)
Lemma hatch_negative_ratio_lowers :
  0 < c_height (example_corner (-1) 1)
  /\ c_width (example_corner (-1) 1) / hatch_size (example_corner (-1) 1) < 1 # 2
  /\ (py_round (binary64 (c_width (example_corner (-1) 1)
                          / hatch_size (example_corner (-1) 1))) + 1)%Z = 0%Z
  /\ @Corner_draw_on unit float_math_at_zero (example_corner (-1) 1) tt
     = OK (mkProgram tt []).
Proof. repeat split. Qed.

(** ** Center points of polylines *)

Lemma center_of_values_raises values :
  exists e, center_of_values values = Raise e.
Proof.
  unfold center_of_values. destruct values as [|[key vs] values]; simpl.
  - eexists; reflexivity.
  - destruct (unpack2 key) as [kv|e]; simpl; eexists; reflexivity.
Qed.

(** C9.  The claim does not hold of the code: [center_point] never
    returns a point.  The comprehensions iterate over the dictionary
    [values] itself, that is over its key strings, so for the axis keys
    ["X"] and ["Y"] unpacking [k, v] raises [ValueError]; whenever the
    first coordinate has at least one key, whatever it is, some exception
    is raised.  The claimed bounding-box centre of [(0,0)], [(2,4)] would
    be [(1,2)]. *)
Theorem polyline_center_point_raises :
  (forall k v first rest F E,
      exists e,
        PolyLine_center_point (mkPolyLine (((k, v) :: first) :: rest) F E)
        = Raise e)
  /\ (forall k v first rest lines F E,
         exists e,
           PolyLines_center_point
             (mkPolyLines ((((k, v) :: first) :: rest) :: lines) F E)
           = Raise e)
  /\ PolyLine_center_point
       (mkPolyLine [[("X", 0); ("Y", 0)]; [("X", 2); ("Y", 4)]] None None)
     = Raise ValueError_unpack
  /\ PolyLines_center_point
       (mkPolyLines [[[("X", 0); ("Y", 0)]; [("X", 2); ("Y", 4)]]] None None)
     = Raise ValueError_unpack.
Proof.
  split; [|split; [|split; reflexivity]].
  - intros k v first rest F E. unfold PolyLine_center_point. cbn [pl_line].
    destruct (collect_values _ _) as [values|e]; cbn [bind];
      [apply center_of_values_raises | eexists; reflexivity].
  - intros k v first rest lines F E.
    unfold PolyLines_center_point. cbn [pls_lines].
    destruct (collect_values _ _) as [values|e]; cbn [bind];
      [apply center_of_values_raises | eexists; reflexivity].
Qed.

End DrawingsSpec.

(** * Properties of the plane fit *)

Module PlaneSpec.

Import Plane.
Local Open Scope R_scope.

(** ** Linear algebra of the normal equations *)

Lemma vec3_eq (a b c a' b' c' : R) :
  a = a' -> b = b' -> c = c' -> (a, b, c) = (a', b', c').
Proof. intros -> -> ->. reflexivity. Qed.

(** [A^T (A p) = (A^T A) p] *)
Lemma atb_of_plane A p :
  atb A (map (fun a => dot a p) A) = mat_vec (gram A) p.
Proof.
  destruct p as [[p1 p2] p3].
  induction A as [|[[a1 a2] a3] A IH]; simpl.
  - apply vec3_eq; ring.
  - rewrite IH.
    destruct (gram A) as [[[[n11 n12] n13] [[n21 n22] n23]] [[n31 n32] n33]].
    simpl. apply vec3_eq; ring.
Qed.

Lemma gram_quadratic_form A v :
  dot v (mat_vec (gram A) v) = sum_squares A v.
Proof.
  destruct v as [[v1 v2] v3].
  induction A as [|[[a1 a2] a3] A IH]; simpl.
  - ring.
  - rewrite <- IH.
    destruct (gram A) as [[[[n11 n12] n13] [[n21 n22] n23]] [[n31 n32] n33]].
    simpl. ring.
Qed.

Lemma sum_squares_nonneg A v : 0 <= sum_squares A v.
Proof.
  induction A as [|a A IH]; simpl; [lra|].
  pose proof (Rle_0_sqr (dot a v)) as Hs. unfold Rsqr in Hs. lra.
Qed.

Lemma sum_squares_zero A v :
  sum_squares A v = 0 -> forall a, In a A -> dot a v = 0.
Proof.
  induction A as [|a0 A IH]; simpl; intros Hs a Ha; [contradiction|].
  pose proof (sum_squares_nonneg A v) as Hn.
  pose proof (Rle_0_sqr (dot a0 v)) as Hq. unfold Rsqr in Hq.
  destruct Ha as [<-|Ha].
  - apply Rsqr_0_uniq. unfold Rsqr. lra.
  - apply IH; [lra | exact Ha].
Qed.

(** A vector in the kernel of [A^T A] is orthogonal to every row. *)
Lemma gram_kernel A v :
  mat_vec (gram A) v = (0, 0, 0) -> forall a, In a A -> dot a v = 0.
Proof.
  intros Hk. apply sum_squares_zero. rewrite <- gram_quadratic_form, Hk.
  destruct v as [[v1 v2] v3]. simpl. ring.
Qed.

(** [adj(N) N = det(N) I] *)
Lemma adjugate_mul N v :
  mat_vec (adjugate N) (mat_vec N v) = vscale (det N) v.
Proof.
  destruct N as [[[[a11 a12] a13] [[a21 a22] a23]] [[a31 a32] a33]].
  destruct v as [[v1 v2] v3]. simpl. apply vec3_eq; ring.
Qed.

(** A singular matrix with a non-zero last diagonal entry has a non-zero
    kernel vector. *)
Lemma singular_kernel N :
  det N = 0 ->
  snd (snd N) <> 0 ->
  exists v, v <> (0, 0, 0) /\ mat_vec N v = (0, 0, 0).
Proof.
  destruct N as [[[[a11 a12] a13] [[a21 a22] a23]] [[a31 a32] a33]].
  unfold det. cbn [snd]. intros Hdet H33.
  destruct (Req_dec (a11 * a33 - a13 * a31) 0) as [E22|N22].
  - destruct (Req_dec (a23 * a31 - a21 * a33) 0) as [E21|N21].
    + exists (a33, 0, - a31). split.
      * intros [= Ha _]. contradiction.
      * simpl. apply vec3_eq; [lra | lra | ring].
    + exists (a22 * a33 - a23 * a32, a23 * a31 - a21 * a33,
              a21 * a32 - a22 * a31). split.
      * intros [= _ Hb _]. contradiction.
      * simpl. apply vec3_eq; [lra | ring | ring].
  - exists (a13 * a32 - a12 * a33, a11 * a33 - a13 * a31,
            a12 * a31 - a11 * a32). split.
    + intros [= _ Hb _]. contradiction.
    + simpl. apply vec3_eq; [ring | lra | ring].
Qed.

(** Three rows with a non-zero determinant leave only the zero vector
    orthogonal to all of them. *)
Lemma independent_rows a b c v :
  det (a, b, c) <> 0 ->
  dot a v = 0 -> dot b v = 0 -> dot c v = 0 -> v = (0, 0, 0).
Proof.
  destruct a as [[a1 a2] a3], b as [[b1 b2] b3], c as [[c1 c2] c3],
           v as [[v1 v2] v3].
  unfold det. simpl. intros Hd Ha Hb Hc.
  set (D := a1 * (b2 * c3 - b3 * c2) - a2 * (b1 * c3 - b3 * c1)
            + a3 * (b1 * c2 - b2 * c1)) in *.
  assert (H1 : D * v1 = 0).
  { replace (D * v1) with
      ((b2 * c3 - b3 * c2) * (a1 * v1 + a2 * v2 + a3 * v3)
       - (a2 * c3 - a3 * c2) * (b1 * v1 + b2 * v2 + b3 * v3)
       + (a2 * b3 - a3 * b2) * (c1 * v1 + c2 * v2 + c3 * v3))
      by (unfold D; ring).
    rewrite Ha, Hb, Hc. ring. }
  assert (H2 : D * v2 = 0).
  { replace (D * v2) with
      (- (b1 * c3 - b3 * c1) * (a1 * v1 + a2 * v2 + a3 * v3)
       + (a1 * c3 - a3 * c1) * (b1 * v1 + b2 * v2 + b3 * v3)
       - (a1 * b3 - a3 * b1) * (c1 * v1 + c2 * v2 + c3 * v3))
      by (unfold D; ring).
    rewrite Ha, Hb, Hc. ring. }
  assert (H3 : D * v3 = 0).
  { replace (D * v3) with
      ((b1 * c2 - b2 * c1) * (a1 * v1 + a2 * v2 + a3 * v3)
       - (a1 * c2 - a2 * c1) * (b1 * v1 + b2 * v2 + b3 * v3)
       + (a1 * b2 - a2 * b1) * (c1 * v1 + c2 * v2 + c3 * v3))
      by (unfold D; ring).
    rewrite Ha, Hb, Hc. ring. }
  apply Rmult_integral in H1, H2, H3.
  apply vec3_eq; tauto.
Qed.

(** ** The contract of the least-squares solver *)

Lemma gram_symmetric A :
  exists n11 n12 n13 n22 n23 n33, gram A = sym3 n11 n12 n13 n22 n23 n33.
Proof.
  induction A as [|[[a1 a2] a3] A (n11 & n12 & n13 & n22 & n23 & n33 & IH)];
    simpl.
  - exists 0, 0, 0, 0, 0, 0. reflexivity.
  - rewrite IH. unfold sym3.
    exists (a1 * a1 + n11), (a1 * a2 + n12), (a1 * a3 + n13),
           (a2 * a2 + n22), (a2 * a3 + n23), (a3 * a3 + n33).
    simpl. apply f_equal2; [apply f_equal2|]; apply vec3_eq; ring.
Qed.

Lemma mul_adjugate N v :
  mat_vec N (mat_vec (adjugate N) v) = vscale (det N) v.
Proof.
  destruct N as [[[[a11 a12] a13] [[a21 a22] a23]] [[a31 a32] a33]].
  destruct v as [[v1 v2] v3]. simpl. apply vec3_eq; ring.
Qed.

Lemma norm2_zero v : norm2 v = 0 -> v = (0, 0, 0).
Proof.
  destruct v as [[v1 v2] v3]. unfold norm2. simpl. intros Hn.
  apply vec3_eq; nra.
Qed.

Lemma adjugate_norm_identity n11 n12 n13 n22 n23 n33 a :
  let N := sym3 n11 n12 n13 n22 n23 n33 in
  let w := mat_vec (adjugate N) a in
  norm2 w = trace (adjugate N) * dot a w
            + det N * (dot a (mat_vec N a) - trace N * norm2 a).
Proof.
  destruct a as [[a1 a2] a3]. unfold norm2, sym3. simpl. ring.
Qed.

(** Every row lies in the kernel of the adjugate of a singular Gram matrix. *)
Lemma adjugate_kills_rows A a :
  det (gram A) = 0 -> In a A -> mat_vec (adjugate (gram A)) a = (0, 0, 0).
Proof.
  intros Hdet Ha. apply norm2_zero.
  assert (Haw : dot a (mat_vec (adjugate (gram A)) a) = 0).
  { apply (gram_kernel A); [|exact Ha].
    rewrite mul_adjugate, Hdet. destruct a as [[a1 a2] a3]. simpl.
    apply vec3_eq; ring. }
  destruct (gram_symmetric A) as (n11 & n12 & n13 & n22 & n23 & n33 & HN).
  rewrite HN in *. rewrite adjugate_norm_identity. cbv zeta.
  rewrite Haw, Hdet. ring.
Qed.

Lemma linear_on_rows M t A :
  (forall a, In a A -> mat_vec M a = vscale t a) ->
  forall b, mat_vec M (atb A b) = vscale t (atb A b).
Proof.
  destruct M as [[[[m11 m12] m13] [[m21 m22] m23]] [[m31 m32] m33]].
  induction A as [|[[a1 a2] a3] A IH]; intros Hrows b.
  - simpl. apply vec3_eq; ring.
  - destruct b as [|z b]; [simpl; apply vec3_eq; ring|].
    pose proof (Hrows (a1, a2, a3) (or_introl eq_refl)) as Ha.
    specialize (IH (fun a Hin => Hrows a (or_intror Hin)) b).
    simpl in *. destruct (atb A b) as [[c1 c2] c3]. simpl in *.
    injection Ha as Ha1 Ha2 Ha3. injection IH as IH1 IH2 IH3.
    apply vec3_eq.
    + transitivity (z * (m11 * a1 + m12 * a2 + m13 * a3)
                    + (m11 * c1 + m12 * c2 + m13 * c3)); [ring|].
      rewrite Ha1, IH1. ring.
    + transitivity (z * (m21 * a1 + m22 * a2 + m23 * a3)
                    + (m21 * c1 + m22 * c2 + m23 * c3)); [ring|].
      rewrite Ha2, IH2. ring.
    + transitivity (z * (m31 * a1 + m32 * a2 + m33 * a3)
                    + (m31 * c1 + m32 * c2 + m33 * c3)); [ring|].
      rewrite Ha3, IH3. ring.
Qed.

Lemma normal_equations_rank2 N c :
  mat_vec (adjugate N) c = (0, 0, 0) ->
  minors2 N <> 0 ->
  mat_vec N (vscale (/ minors2 N) (vsub (vscale (trace N) c) (mat_vec N c))) = c.
Proof.
  destruct N as [[[[a11 a12] a13] [[a21 a22] a23]] [[a31 a32] a33]].
  destruct c as [[c1 c2] c3]. simpl. intros [= H1 H2 H3] Ht.
  set (t2 := a11 * a22 - a12 * a21 + (a11 * a33 - a13 * a31)
             + (a22 * a33 - a23 * a32)) in *.
  apply vec3_eq; apply (Rmult_eq_reg_l t2); try exact Ht.
  - transitivity (t2 * c1 - ((a22 * a33 - a23 * a32) * c1
                             + (a13 * a32 - a12 * a33) * c2
                             + (a12 * a23 - a13 * a22) * c3)).
    + unfold t2 in *. field. exact Ht.
    + rewrite H1. ring.
  - transitivity (t2 * c2 - ((a23 * a31 - a21 * a33) * c1
                             + (a11 * a33 - a13 * a31) * c2
                             + (a13 * a21 - a11 * a23) * c3)).
    + unfold t2 in *. field. exact Ht.
    + rewrite H2. ring.
  - transitivity (t2 * c3 - ((a21 * a32 - a22 * a31) * c1
                             + (a12 * a31 - a11 * a32) * c2
                             + (a11 * a22 - a12 * a21) * c3)).
    + unfold t2 in *. field. exact Ht.
    + rewrite H3. ring.
Qed.

Lemma cross_squares_nonneg A a : 0 <= cross_squares A a.
Proof.
  induction A as [|a' A IH]; simpl; [lra|].
  assert (0 <= norm2 (cross a' a)).
  { destruct (cross a' a) as [[x y] z]. unfold norm2. simpl. nra. }
  lra.
Qed.

(** Lagrange's identity, summed over the rows. *)
Lemma gram_cross_squares A a :
  trace (gram A) * norm2 a - dot a (mat_vec (gram A) a) = cross_squares A a.
Proof.
  destruct a as [[x y] z].
  induction A as [|[[a1 a2] a3] A IH]; simpl.
  - unfold norm2. simpl. ring.
  - rewrite <- IH.
    destruct (gram A) as [[[[n11 n12] n13] [[n21 n22] n23]] [[n31 n32] n33]].
    unfold norm2. simpl. ring.
Qed.

Lemma rows_defect_gram n11 n12 n13 n22 n23 n33 A' :
  let N := sym3 n11 n12 n13 n22 n23 n33 in
  rows_defect N A' =
  trace N * trace (gram A')
  - (let '((g11, g12, g13), (g21, g22, g23), (g31, g32, g33)) := gram A' in
     n11 * g11 + n12 * g12 + n13 * g13 + n12 * g21 + n22 * g22 + n23 * g23
     + n13 * g31 + n23 * g32 + n33 * g33).
Proof.
  cbv zeta. induction A' as [|[[a1 a2] a3] A' IH]; simpl.
  - ring.
  - rewrite IH.
    destruct (gram A') as [[[[g11 g12] g13] [[g21 g22] g23]] [[g31 g32] g33]].
    unfold norm2. simpl. ring.
Qed.

Lemma rows_defect_minors A :
  rows_defect (gram A) A = 2 * minors2 (gram A).
Proof.
  destruct (gram_symmetric A) as (n11 & n12 & n13 & n22 & n23 & n33 & HN).
  rewrite HN at 1. rewrite rows_defect_gram. rewrite HN. simpl. ring.
Qed.

Lemma rows_defect_zero A A' :
  (forall a, 0 <= trace (gram A) * norm2 a - dot a (mat_vec (gram A) a)) ->
  rows_defect (gram A) A' = 0 ->
  forall a, In a A' ->
    trace (gram A) * norm2 a - dot a (mat_vec (gram A) a) = 0.
Proof.
  intros Hpos. induction A' as [|a' A' IH]; simpl; intros Hs a Ha;
    [contradiction|].
  assert (Hr : 0 <= rows_defect (gram A) A').
  { clear. induction A' as [|a'' A' IH]; simpl; [lra|].
    pose proof (gram_cross_squares A a''). pose proof (cross_squares_nonneg A a'').
    lra. }
  pose proof (Hpos a') as Ha'.
  destruct Ha as [<-|Ha]; [lra|]. apply IH; [lra | exact Ha].
Qed.

Lemma eigen_norm_identity n11 n12 n13 n22 n23 n33 a :
  let N := sym3 n11 n12 n13 n22 n23 n33 in
  norm2 (vsub (mat_vec N a) (vscale (trace N) a)) =
  dot a (mat_vec (adjugate N) a) - minors2 N * norm2 a
  + trace N * (trace N * norm2 a - dot a (mat_vec N a)).
Proof.
  destruct a as [[a1 a2] a3]. unfold norm2, sym3. simpl. ring.
Qed.

(** In rank one every row is an eigenvector for the trace. *)
Lemma rank1_rows A a :
  det (gram A) = 0 -> minors2 (gram A) = 0 -> In a A ->
  mat_vec (gram A) a = vscale (trace (gram A)) a.
Proof.
  intros Hdet Hmin Ha.
  assert (Hz : vsub (mat_vec (gram A) a) (vscale (trace (gram A)) a) = (0, 0, 0)).
  { apply norm2_zero.
    assert (Hq : trace (gram A) * norm2 a - dot a (mat_vec (gram A) a) = 0).
    { apply (rows_defect_zero A A); [| |exact Ha].
      - intros a0. rewrite gram_cross_squares. apply cross_squares_nonneg.
      - rewrite rows_defect_minors, Hmin. ring. }
    pose proof (adjugate_kills_rows A a Hdet Ha) as Hadj.
    destruct (gram_symmetric A) as (n11 & n12 & n13 & n22 & n23 & n33 & HN).
    rewrite HN in *. rewrite eigen_norm_identity. cbv zeta.
    rewrite Hadj, Hmin, Hq. destruct a as [[a1 a2] a3]. simpl. ring. }
  destruct (mat_vec (gram A) a) as [[u1 u2] u3].
  destruct a as [[a1 a2] a3]. simpl in *. injection Hz as H1 H2 H3.
  apply vec3_eq; lra.
Qed.

Lemma trace_gram_nonneg A : 0 <= trace (gram A).
Proof.
  induction A as [|[[a1 a2] a3] A IH]; simpl; [lra|].
  destruct (gram A) as [[[[n11 n12] n13] [[n21 n22] n23]] [[n31 n32] n33]].
  simpl in *. nra.
Qed.

Lemma rank0_atb A : trace (gram A) = 0 -> forall b, atb A b = (0, 0, 0).
Proof.
  induction A as [|[[a1 a2] a3] A IH]; intros Ht b; [reflexivity|].
  pose proof (trace_gram_nonneg A) as Hn. simpl in Ht.
  destruct b as [|z b]; [reflexivity|].
  destruct (gram A) as [[[[n11 n12] n13] [[n21 n22] n23]] [[n31 n32] n33]] eqn:HG.
  simpl in Ht, Hn.
  assert (a1 = 0 /\ a2 = 0 /\ a3 = 0 /\ n11 + n22 + n33 = 0) as (-> & -> & -> & Hr)
    by (repeat split; nra).
  simpl. rewrite (IH Hr b). apply vec3_eq; ring.
Qed.

Lemma mat_vec_zero N : mat_vec N (0, 0, 0) = (0, 0, 0).
Proof.
  destruct N as [[[[a11 a12] a13] [[a21 a22] a23]] [[a31 a32] a33]].
  simpl. apply vec3_eq; ring.
Qed.

Lemma mat_vec_scale N k v : mat_vec N (vscale k v) = vscale k (mat_vec N v).
Proof.
  destruct N as [[[[a11 a12] a13] [[a21 a22] a23]] [[a31 a32] a33]].
  destruct v as [[v1 v2] v3]. simpl. apply vec3_eq; ring.
Qed.

(** [lstsq] solves the normal equations [A^T A x = A^T b], whatever the
    rank of [A]. *)
Lemma lstsq_normal_equations A b :
  mat_vec (gram A) (lstsq A b) = atb A b.
Proof.
  unfold lstsq.
  destruct (Req_dec_T (det (gram A)) 0) as [Hdet|Hdet].
  - destruct (Req_dec_T (minors2 (gram A)) 0) as [Hmin|Hmin].
    + destruct (Req_dec_T (trace (gram A)) 0) as [Htr|Htr].
      * rewrite (rank0_atb A Htr). apply mat_vec_zero.
      * rewrite mat_vec_scale.
        rewrite (linear_on_rows (gram A) (trace (gram A)) A
                   (fun a Ha => rank1_rows A a Hdet Hmin Ha)).
        destruct (atb A b) as [[c1 c2] c3]. simpl.
        apply vec3_eq; field; exact Htr.
    + apply normal_equations_rank2; [|exact Hmin].
      rewrite (linear_on_rows (adjugate (gram A)) 0 A).
      * destruct (atb A b) as [[c1 c2] c3]. simpl. apply vec3_eq; ring.
      * intros a Ha. rewrite (adjugate_kills_rows A a Hdet Ha).
        destruct a as [[a1 a2] a3]. simpl. apply vec3_eq; ring.
  - rewrite mat_vec_scale, mul_adjugate.
    destruct (atb A b) as [[c1 c2] c3]. simpl.
    apply vec3_eq; field; exact Hdet.
Qed.

Lemma residual_expansion A :
  forall b x x',
    List.length A = List.length b ->
    residual2 A b x' =
    residual2 A b x
    + 2 * dot (vsub x' x) (vsub (mat_vec (gram A) x) (atb A b))
    + sum_squares A (vsub x' x).
Proof.
  induction A as [|[[a1 a2] a3] A IH]; intros b [[x1 x2] x3] [[y1 y2] y3] Hlen.
  - simpl. ring.
  - destruct b as [|z b]; [discriminate|]. injection Hlen as Hlen.
    simpl. rewrite (IH b (x1, x2, x3) (y1, y2, y3) Hlen).
    destruct (gram A) as [[[[n11 n12] n13] [[n21 n22] n23]] [[n31 n32] n33]].
    destruct (atb A b) as [[c1 c2] c3]. simpl. ring.
Qed.

Lemma rows_orthogonal_atb A k :
  (forall a, In a A -> dot a k = 0) -> forall b, dot (atb A b) k = 0.
Proof.
  destruct k as [[k1 k2] k3].
  induction A as [|[[a1 a2] a3] A IH]; intros Hrows b.
  - simpl. ring.
  - destruct b as [|z b]; [simpl; ring|].
    pose proof (Hrows (a1, a2, a3) (or_introl eq_refl)) as Ha.
    specialize (IH (fun a Hin => Hrows a (or_intror Hin)) b).
    simpl in *. destruct (atb A b) as [[c1 c2] c3]. simpl in *.
    transitivity (z * (a1 * k1 + a2 * k2 + a3 * k3)
                  + (c1 * k1 + c2 * k2 + c3 * k3)); [ring|].
    rewrite Ha, IH. ring.
Qed.

Lemma rows_orthogonal_gram A k :
  (forall a, In a A -> dot a k = 0) -> mat_vec (gram A) k = (0, 0, 0).
Proof.
  destruct k as [[k1 k2] k3].
  induction A as [|[[a1 a2] a3] A IH]; intros Hrows.
  - simpl. apply vec3_eq; ring.
  - pose proof (Hrows (a1, a2, a3) (or_introl eq_refl)) as Ha.
    specialize (IH (fun a Hin => Hrows a (or_intror Hin))).
    simpl in *.
    destruct (gram A) as [[[[n11 n12] n13] [[n21 n22] n23]] [[n31 n32] n33]].
    simpl in *. injection IH as IH1 IH2 IH3.
    apply vec3_eq.
    + transitivity (a1 * (a1 * k1 + a2 * k2 + a3 * k3)
                    + (n11 * k1 + n12 * k2 + n13 * k3)); [ring|].
      rewrite Ha, IH1. ring.
    + transitivity (a2 * (a1 * k1 + a2 * k2 + a3 * k3)
                    + (n21 * k1 + n22 * k2 + n23 * k3)); [ring|].
      rewrite Ha, IH2. ring.
    + transitivity (a3 * (a1 * k1 + a2 * k2 + a3 * k3)
                    + (n31 * k1 + n32 * k2 + n33 * k3)); [ring|].
      rewrite Ha, IH3. ring.
Qed.

Lemma dot_sym_mat n11 n12 n13 n22 n23 n33 u v :
  let N := sym3 n11 n12 n13 n22 n23 n33 in
  dot (mat_vec N u) v = dot u (mat_vec N v).
Proof.
  destruct u as [[u1 u2] u3], v as [[v1 v2] v3]. unfold sym3. simpl. ring.
Qed.

Lemma dot_vscale t u v : dot (vscale t u) v = t * dot u v.
Proof.
  destruct u as [[u1 u2] u3], v as [[v1 v2] v3]. simpl. ring.
Qed.

Lemma dot_vsub u u' v : dot (vsub u u') v = dot u v - dot u' v.
Proof.
  destruct u as [[u1 u2] u3], u' as [[w1 w2] w3], v as [[v1 v2] v3].
  simpl. ring.
Qed.

Lemma dot_zero_r u : dot u (0, 0, 0) = 0.
Proof. destruct u as [[u1 u2] u3]. simpl. ring. Qed.

(** The solution chosen by [lstsq] is orthogonal to the kernel of [A]. *)
Lemma lstsq_orthogonal_kernel A b k :
  (forall a, In a A -> dot a k = 0) -> dot (lstsq A b) k = 0.
Proof.
  intros Hrows.
  pose proof (rows_orthogonal_atb A k Hrows b) as Hc.
  pose proof (rows_orthogonal_gram A k Hrows) as HN.
  unfold lstsq.
  destruct (Req_dec_T (det (gram A)) 0) as [Hdet|Hdet].
  - destruct (Req_dec_T (minors2 (gram A)) 0) as [Hmin|Hmin].
    + destruct (Req_dec_T (trace (gram A)) 0) as [Htr|Htr].
      * destruct k as [[k1 k2] k3]. simpl. ring.
      * rewrite dot_vscale, Hc. ring.
    + rewrite dot_vscale, dot_vsub, dot_vscale, Hc.
      destruct (gram_symmetric A) as (n11 & n12 & n13 & n22 & n23 & n33 & HS).
      rewrite HS in *. rewrite dot_sym_mat. cbv zeta.
      rewrite HN, dot_zero_r. ring.
  - assert (Hk : k = (0, 0, 0)).
    { pose proof (adjugate_mul (gram A) k) as Hadj. rewrite HN in Hadj.
      destruct (adjugate (gram A))
        as [[[[m11 m12] m13] [[m21 m22] m23]] [[m31 m32] m33]].
      destruct k as [[k1 k2] k3]. simpl in Hadj. injection Hadj as H1 H2 H3.
      apply vec3_eq.
      - apply (Rmult_eq_reg_l (det (gram A))); [lra | exact Hdet].
      - apply (Rmult_eq_reg_l (det (gram A))); [lra | exact Hdet].
      - apply (Rmult_eq_reg_l (det (gram A))); [lra | exact Hdet]. }
    rewrite Hk. apply dot_zero_r.
Qed.

(** The contract of [np.linalg.lstsq]: the result minimises the sum of
    squared residuals, and among the minimisers it has the least norm. *)
Lemma lstsq_minimum_norm_least_squares A b x' :
  List.length A = List.length b ->
  residual2 A b (lstsq A b) <= residual2 A b x' /\
  (residual2 A b x' = residual2 A b (lstsq A b) ->
   norm2 (lstsq A b) <= norm2 x').
Proof.
  intros Hlen.
  pose proof (residual_expansion A b (lstsq A b) x' Hlen) as Hexp.
  rewrite lstsq_normal_equations in Hexp.
  assert (Hzero : dot (vsub x' (lstsq A b)) (vsub (atb A b) (atb A b)) = 0).
  { rewrite (dot_vsub x'). destruct (atb A b) as [[c1 c2] c3].
    destruct x' as [[y1 y2] y3], (lstsq A b) as [[x1 x2] x3]. simpl. ring. }
  rewrite Hzero in Hexp.
  pose proof (sum_squares_nonneg A (vsub x' (lstsq A b))) as Hpos.
  split; [lra|].
  intros Heq.
  assert (Hk : dot (lstsq A b) (vsub x' (lstsq A b)) = 0).
  { apply lstsq_orthogonal_kernel. apply sum_squares_zero. lra. }
  destruct x' as [[y1 y2] y3], (lstsq A b) as [[x1 x2] x3].
  unfold norm2. simpl in Hk |- *.
  pose proof (Rle_0_sqr (y1 - x1)) as H1.
  pose proof (Rle_0_sqr (y2 - x2)) as H2.
  pose proof (Rle_0_sqr (y3 - x3)) as H3.
  unfold Rsqr in H1, H2, H3.
  assert (Hsplit : y1 * y1 + y2 * y2 + y3 * y3 =
                   x1 * x1 + x2 * x2 + x3 * x3
                   + 2 * (x1 * (y1 - x1) + x2 * (y2 - x2) + x3 * (y3 - x3))
                   + ((y1 - x1) * (y1 - x1) + (y2 - x2) * (y2 - x2)
                      + (y3 - x3) * (y3 - x3))) by ring.
  rewrite Hk in Hsplit. lra.
Qed.

(** ** Fitting samples that lie on a plane *)

Lemma gram_design_last points :
  points <> [] -> 0 < snd (snd (gram (map design_row points))).
Proof.
  assert (Hge : forall l, 0 <= snd (snd (gram (map design_row l)))).
  { induction l as [|[[x y] z] l IH]; simpl; [lra|].
    destruct (gram (map design_row l))
      as [[[[n11 n12] n13] [[n21 n22] n23]] [[n31 n32] n33]].
    simpl in *. lra. }
  destruct points as [|[[x y] z] l]; [contradiction|]. intros _. simpl.
  specialize (Hge l).
  destruct (gram (map design_row l))
    as [[[[n11 n12] n13] [[n21 n22] n23]] [[n31 n32] n33]].
  simpl in *. lra.
Qed.

Lemma non_collinear_nonempty points : non_collinear points -> points <> [].
Proof. intros (p1 & _ & _ & H1 & _) ->. contradiction. Qed.

(** Non-collinear samples make the normal equations regular. *)
Lemma gram_regular points :
  non_collinear points -> det (gram (map design_row points)) <> 0.
Proof.
  intros Hnc Hdet.
  pose proof (gram_design_last points (non_collinear_nonempty _ Hnc)) as H33.
  destruct (singular_kernel _ Hdet) as (v & Hv & Hk); [lra|].
  destruct Hnc as (p1 & p2 & p3 & H1 & H2 & H3 & Hd).
  apply Hv.
  apply (independent_rows _ _ _ v Hd);
    apply (gram_kernel _ _ Hk); apply in_map; assumption.
Qed.

Lemma targets_on_plane p points :
  on_plane p points ->
  map target points = map (fun a => dot a p) (map design_row points).
Proof.
  intros Hp. rewrite map_map. apply map_ext_in. exact Hp.
Qed.

(** On regular normal equations [lstsq] recovers the plane exactly. *)
Lemma lstsq_recovers p points :
  on_plane p points -> non_collinear points ->
  lstsq (map design_row points) (map target points) = p.
Proof.
  intros Hp Hnc. unfold lstsq.
  pose proof (gram_regular _ Hnc) as Hdet.
  destruct (Req_dec_T (det (gram (map design_row points))) 0) as [E|_];
    [contradiction|].
  rewrite (targets_on_plane _ _ Hp), atb_of_plane, adjugate_mul.
  destruct p as [[p1 p2] p3]. simpl. apply vec3_eq; field; exact Hdet.
Qed.

Lemma deviations_zero p points :
  on_plane p points ->
  Forall (fun d => d = 0)
    (map (fun ab => dot (fst ab) p - snd ab)
         (combine (map design_row points) (map target points))).
Proof.
  intros Hp. induction points as [|pt points IH]; simpl; constructor.
  - rewrite (Hp pt (or_introl eq_refl)). ring.
  - apply IH. intros q Hq. apply Hp. right. exact Hq.
Qed.

Lemma py_sum_squares_zero l :
  Forall (fun d => d = 0) l -> py_sum (map (fun d => d * d) l) = 0.
Proof.
  unfold py_sum. intros Hl. induction Hl as [|d l -> _ IH]; simpl.
  - reflexivity.
  - replace (0 + 0 * 0) with 0 by ring. exact IH.
Qed.

Lemma np_max_abs_zero l :
  l <> [] -> Forall (fun d => d = 0) l -> np_max (map Rabs l) = OK 0.
Proof.
  intros Hne Hl. destruct Hl as [|d l -> Hl]; [contradiction|].
  clear Hne. simpl. rewrite Rabs_R0. f_equal.
  induction Hl as [|d l -> _ IH]; simpl; [reflexivity|].
  rewrite Rabs_R0, Rmax_left by lra. exact IH.
Qed.

(** A fit of samples that lie on a plane, three of them not collinear,
    returns that plane with zero deviations. *)
Lemma planefit_recovers_plane (sx sy z0 : R) (points : list vec3) :
  on_plane (sx, sy, z0) points ->
  non_collinear points ->
  exists plane,
    PlaneFit_init points None = OK plane /\
    params plane = (sx, sy, z0) /\
    (forall x y z, In (x, y, z) points -> getz plane x y = z) /\
    avg plane = 0 /\
    max_dev plane = OK 0.
Proof.
  intros Hp Hnc.
  pose proof (non_collinear_nonempty _ Hnc) as Hne.
  pose proof (lstsq_recovers _ _ Hp Hnc) as Hfit.
  pose proof (deviations_zero _ _ Hp) as Hdev.
  unfold PlaneFit_init.
  destruct points as [|pt rest] eqn:Hpts; [contradiction|].
  rewrite <- Hpts in *. rewrite Hfit.
  destruct (cross _ _) as [[nx ny] nz].
  eexists. split; [reflexivity|]. cbn [params avg dev max_dev getz].
  split; [reflexivity|]. split; [|split].
  - intros x y z Hin. specialize (Hp _ Hin).
    unfold getz. cbn [params].
    cbv [getz_params dot design_row target] in Hp |- *. rewrite Hp. ring.
  - rewrite (py_sum_squares_zero _ Hdev), sqrt_0. unfold Rdiv. ring.
  - apply np_max_abs_zero; [|exact Hdev].
    rewrite Hpts. discriminate.
Qed.


(** C6.  Round trip of the plane fit: for samples that lie exactly on the
    plane [z = sx x + sy y + z0] and include three with non-collinear
    lateral positions, the fit returns [params = (sx, sy, z0)], [getz]
    reproduces the height of every sample, and the mean and the maximum
    deviation are both 0. *)
Theorem planefit_round_trip (sx sy z0 : R) (points : list vec3) :
  on_plane (sx, sy, z0) points ->
  non_collinear points ->
  exists plane,
    PlaneFit_init points None = OK plane /\
    params plane = (sx, sy, z0) /\
    (forall x y z, In (x, y, z) points -> getz plane x y = z) /\
    avg plane = 0 /\
    max_dev plane = OK 0.
Proof. exact (planefit_recovers_plane sx sy z0 points). Qed.

Lemma planefit_round_trip_witness :
  let points := [(0, 0, 10); (1, 0, 101 / 10); (0, 1, 199 / 20)] in
  on_plane (1 / 10, - (1 / 20), 10) points /\
  non_collinear points /\
  exists plane,
    PlaneFit_init points None = OK plane /\
    params plane = (1 / 10, - (1 / 20), 10) /\
    (forall x y z, In (x, y, z) points -> getz plane x y = z) /\
    avg plane = 0 /\
    max_dev plane = OK 0.
Proof.
  cbv zeta.
  assert (Hp : on_plane (1 / 10, - (1 / 20), 10)
                 [(0, 0, 10); (1, 0, 101 / 10); (0, 1, 199 / 20)]).
  { intros point [<-|[<-|[<-|[]]]]; simpl; lra. }
  assert (Hnc : non_collinear
                  [(0, 0, 10); (1, 0, 101 / 10); (0, 1, 199 / 20)]).
  { exists (0, 0, 10), (1, 0, 101 / 10), (0, 1, 199 / 20).
    simpl. repeat split; auto. lra. }
  split; [exact Hp|]. split; [exact Hnc|].
  exact (planefit_round_trip _ _ _ _ Hp Hnc).
Defined.

(** ** Degenerate sample sets *)

(** The fit of a non-empty sample list returns a plane with the
    parameters chosen by [lstsq]. *)
Lemma planefit_returns (points : list vec3) :
  points <> [] ->
  exists plane,
    PlaneFit_init points None = OK plane /\
    params plane = lstsq (map design_row points) (map target points).
Proof.
  intros Hne. unfold PlaneFit_init. destruct points as [|pt rest]; [contradiction|].
  destruct (cross _ _) as [[nx ny] nz].
  eexists. split; reflexivity.
Qed.

(** C8 (as amended).  The plane fit has no check for degenerate input
    and no error of its own: for every non-empty sample list, whether or
    not it contains three non-collinear samples, it returns a fitted
    plane.  Its parameters are the ones chosen by [lstsq]: they minimise
    the sum of the squared height residuals and, among the minimisers,
    have the least norm.  The only input the fit fails on is the empty
    list, with an [IndexError]. *)
Theorem planefit_accepts_degenerate_input (points : list vec3) :
  points <> [] ->
  (exists plane,
      PlaneFit_init points None = OK plane /\
      forall x',
        let A := map design_row points in
        let b := map target points in
        residual2 A b (params plane) <= residual2 A b x' /\
        (residual2 A b x' = residual2 A b (params plane) ->
         norm2 (params plane) <= norm2 x'))
  /\ PlaneFit_init [] None = Raise IndexError.
Proof.
  intros Hne. split; [|reflexivity].
  destruct (planefit_returns points Hne) as (plane & Hfit & Hpar).
  exists plane. split; [exact Hfit|].
  intros x'. cbv zeta. rewrite Hpar.
  apply lstsq_minimum_norm_least_squares. rewrite !length_map. reflexivity.
Qed.

Lemma planefit_accepts_degenerate_input_witness :
  [(0, 0, 5)] <> [] /\
  exists plane,
    PlaneFit_init [(0, 0, 5)] None = OK plane /\
    residual2 (map design_row [(0, 0, 5)]) (map target [(0, 0, 5)])
      (params plane) <= 0.
Proof.
  assert (Hne : [(0, 0, 5)] <> []) by discriminate.
  split; [exact Hne|].
  destruct (proj1 (planefit_accepts_degenerate_input [(0, 0, 5)] Hne))
    as (plane & Hfit & Hmin).
  exists plane. split; [exact Hfit|].
  eapply Rle_trans; [exact (proj1 (Hmin (0, 0, 5)))|].
  simpl. lra.
Defined.

(** C8 (as stated) fails: the three samples [(0,0,0)], [(1,1,1)],
    [(2,2,2)] are collinear, so the design matrix has rank 2, yet the fit
    returns a plane, the minimum-norm solution [z = x/2 + y/2]. *)
Lemma planefit_collinear_samples_fitted :
  let points := [(0, 0, 0); (1, 1, 1); (2, 2, 2)] in
  ~ non_collinear points /\
  exists plane,
    PlaneFit_init points None = OK plane /\
    params plane = (1 / 2, 1 / 2, 0).
Proof.
  cbv zeta. split.
  - intros (p1 & p2 & p3 & H1 & H2 & H3 & Hd).
    simpl in H1, H2, H3.
    destruct H1 as [<-|[<-|[<-|[]]]], H2 as [<-|[<-|[<-|[]]]],
             H3 as [<-|[<-|[<-|[]]]];
      apply Hd; simpl; ring.
  - destruct (planefit_returns [(0, 0, 0); (1, 1, 1); (2, 2, 2)]
                ltac:(discriminate)) as (plane & Hfit & Hpar).
    exists plane. split; [exact Hfit|]. rewrite Hpar.
    unfold lstsq.
    destruct (Req_dec_T _ 0) as [_|Hn]; [|exfalso; apply Hn; simpl; ring].
    destruct (Req_dec_T _ 0) as [E|_]; [exfalso; simpl in E; lra|].
    simpl. apply vec3_eq; field.
Qed.

(** ** The azimuth angle *)

Lemma normal_of_params sx sy z0 :
  cross (vsub (getvec_params (sx, sy, z0) 1 0) (getvec_params (sx, sy, z0) 0 0))
        (vsub (getvec_params (sx, sy, z0) 0 1) (getvec_params (sx, sy, z0) 0 0))
  = (- sx, - sy, 1).
Proof. simpl. apply vec3_eq; ring. Qed.

Lemma planefit_phi points given plane :
  PlaneFit_init points given = OK plane ->
  let '(sx, sy, _) := params plane in
  phi plane = py_mod (np_arctan2 (- sy) (- sx) * 180 / PI) 360 - 180.
Proof.
  unfold PlaneFit_init. destruct points as [|pt rest]; [discriminate|].
  set (p := match given with None => _ | Some p => p end).
  destruct p as [[sx sy] z0] eqn:Hp.
  rewrite normal_of_params. intros [= <-]. reflexivity.
Qed.

Lemma py_mod_range x m : 0 < m -> 0 <= py_mod x m < m.
Proof.
  intros Hm. unfold py_mod.
  destruct (base_Int_part (x / m)) as [Hlo Hhi].
  assert (Hx : x = m * (x / m)) by (field; lra).
  split.
  - assert (m * IZR (Int_part (x / m)) <= m * (x / m))
      by (apply Rmult_le_compat_l; lra).
    lra.
  - assert (m * (x / m) - m * IZR (Int_part (x / m)) < m * 1).
    { rewrite <- Rmult_minus_distr_l. apply Rmult_lt_compat_l; lra. }
    lra.
Qed.

Lemma py_mod_half : py_mod 180 360 = 180.
Proof.
  unfold py_mod.
  rewrite <- (Int_part_spec (180 / 360) 0); [simpl; ring|].
  simpl. lra.
Qed.

Lemma arctan2_minus_x x : x < 0 -> np_arctan2 0 x = PI.
Proof.
  intros Hx. unfold np_arctan2.
  destruct (Rlt_dec 0 x); [lra|].
  destruct (Rlt_dec x 0); [|lra].
  destruct (Rle_dec 0 0); [|lra].
  unfold Rdiv. rewrite Rmult_0_l, atan_0. ring.
Qed.

(** The azimuth of every fitted plane lies in [[-180, 180)]. *)
Lemma planefit_phi_range points given plane :
  PlaneFit_init points given = OK plane -> -180 <= phi plane < 180.
Proof.
  intros Hfit. apply planefit_phi in Hfit.
  destruct (params plane) as [[sx sy] z0]. rewrite Hfit.
  pose proof (py_mod_range (np_arctan2 (- sy) (- sx) * 180 / PI) 360) as Hr.
  lra.
Qed.

(** A plane rising along x (normal tilted towards -x) has azimuth 0. *)
Lemma planefit_phi_minus_x points given plane sx z0 :
  PlaneFit_init points given = OK plane ->
  params plane = (sx, 0, z0) -> 0 < sx -> phi plane = 0.
Proof.
  intros Hfit Hpar Hsx. apply planefit_phi in Hfit.
  rewrite Hpar in Hfit. rewrite Hfit.
  rewrite Ropp_0, arctan2_minus_x by lra.
  replace (PI * 180 / PI) with 180 by (field; apply PI_neq0).
  rewrite py_mod_half. ring.
Qed.

(** C7.  The claim does not hold of the code.  The samples [(0,0,0)],
    [(1,0,1)], [(0,1,0)] lie on the plane [z = x], whose normal
    [(-1, 0, 1)] points in the -x direction laterally: [arctan2] gives 180
    degrees, and [(phi % 360) - 180] turns that into 0, not 180.  The
    formula shifts every angle by half a turn into [[-180, 180)]; that
    interval is closed at -180 and open at 180. *)
Theorem azimuth_of_minus_x_normal :
  (exists plane,
      PlaneFit_init [(0, 0, 0); (1, 0, 1); (0, 1, 0)] None = OK plane /\
      params plane = (1, 0, 0) /\
      cross (vsub (getvec plane 1 0) (getvec plane 0 0))
            (vsub (getvec plane 0 1) (getvec plane 0 0)) = (- (1), - 0, 1) /\
      phi plane = 0 /\
      phi plane <> 180)
  /\ (exists plane,
         PlaneFit_init [(0, 0, 0)] (Some (0, 0, 0)) = OK plane /\
         phi plane = -180).
Proof.
  split.
  - assert (Hp : on_plane (1, 0, 0) [(0, 0, 0); (1, 0, 1); (0, 1, 0)]).
    { intros point [<-|[<-|[<-|[]]]]; simpl; lra. }
    assert (Hnc : non_collinear [(0, 0, 0); (1, 0, 1); (0, 1, 0)]).
    { exists (0, 0, 0), (1, 0, 1), (0, 1, 0).
      simpl. repeat split; auto. lra. }
    destruct (planefit_recovers_plane _ _ _ _ Hp Hnc)
      as (plane & Hfit & Hpar & _).
    pose proof (planefit_phi_minus_x _ _ _ 1 0 Hfit Hpar ltac:(lra)) as Hphi.
    exists plane. split; [exact Hfit|]. split; [exact Hpar|].
    split; [|split; [exact Hphi | rewrite Hphi; lra]].
    unfold getvec. rewrite Hpar. apply normal_of_params.
  - eexists. split; [unfold PlaneFit_init; rewrite normal_of_params; reflexivity|].
    cbn [phi]. unfold np_arctan2.
    destruct (Rlt_dec 0 (- 0)); [lra|].
    destruct (Rlt_dec (- 0) 0); [lra|].
    unfold py_mod.
    rewrite <- (Int_part_spec (0 * 180 / PI / 360) 0).
    + simpl. unfold Rdiv. ring.
    + unfold Rdiv. rewrite !Rmult_0_l. simpl. lra.
Qed.


End PlaneSpec.

(** * Further properties of the drawing programs *)

Module DrawingsExtra.

Import Drawings DrawingsSpec.
Local Open Scope string_scope.
Local Open Scope list_scope.
Local Open Scope Q_scope.

(** ** Polylines *)

Section PolyLineLowering.

Context {CoordinateSystem : Type}.

Lemma LINEAR_point_plain point F E :
  plain_point point -> LINEAR_point point F E = OK (LINEAR point F E).
Proof. intros [HF HE]. unfold LINEAR_point. rewrite HF, HE. reflexivity. Qed.

Lemma LINEAR_point_not_plain point F E :
  ~ plain_point point -> LINEAR_point point F E = Raise TypeError.
Proof.
  unfold plain_point, LINEAR_point. intros Hn.
  destruct (dict_get "F" point), (dict_get "E" point); try reflexivity.
  exfalso. apply Hn. split; reflexivity.
Qed.

Lemma plain_point_dec point : plain_point point \/ ~ plain_point point.
Proof.
  unfold plain_point.
  destruct (dict_get "F" point), (dict_get "E" point);
    try (right; intros [HF HE]; discriminate).
  left. split; reflexivity.
Qed.

Lemma moves_of_plain_points F E points :
  Forall plain_point points ->
  mapM (fun point => LINEAR_point point F E) points =
  OK (map (fun point => LINEAR point F E) points).
Proof.
  induction 1 as [|pt points Hpt _ IH]; simpl; [reflexivity|].
  rewrite (LINEAR_point_plain _ _ _ Hpt), IH. reflexivity.
Qed.

Lemma moves_of_bad_points F E points :
  Exists (fun point => ~ plain_point point) points ->
  mapM (fun point => LINEAR_point point F E) points = Raise TypeError.
Proof.
  induction points as [|pt points IH]; intros Hex; [inversion Hex|].
  simpl. destruct (plain_point_dec pt) as [Hpt|Hpt].
  - rewrite (LINEAR_point_plain _ _ _ Hpt). simpl.
    rewrite IH; [reflexivity|].
    inversion Hex; [contradiction | assumption].
  - rewrite (LINEAR_point_not_plain _ _ _ Hpt). reflexivity.
Qed.

Lemma move_targets_app p q :
  move_targets (p ++ q) = move_targets p ++ move_targets q.
Proof.
  induction p as [|i p IH]; simpl; [reflexivity|].
  destruct i; simpl; rewrite IH; reflexivity.
Qed.

Lemma move_targets_moves F E points :
  move_targets (map (fun point => LINEAR point F E) points) = points.
Proof. induction points; simpl; congruence. Qed.

Lemma gate_trace_moves F E (points : list Coordinate) :
  gate_trace (map (fun point => LINEAR point F E) points) = [].
Proof. induction points; simpl; assumption || reflexivity. Qed.

Lemma polyline_instructions_targets F E line :
  move_targets (polyline_instructions F E line) = line.
Proof.
  destruct line as [|first rest]; [reflexivity|]. simpl.
  rewrite move_targets_app, move_targets_moves. simpl.
  rewrite app_nil_r. reflexivity.
Qed.

Lemma polyline_instructions_gates F E line :
  line <> [] -> gate_trace (polyline_instructions F E line) = [ON; OFF].
Proof.
  destruct line as [|first rest]; [contradiction|]. intros _. simpl.
  rewrite gate_trace_app, gate_trace_moves. reflexivity.
Qed.

Lemma PolyLine_plain_program (cs : CoordinateSystem) line F E :
  line <> [] -> Forall plain_point line ->
  PolyLine_draw_on (mkPolyLine line F E) cs =
  OK (mkProgram cs (polyline_instructions F E line)).
Proof.
  destruct line as [|first rest]; [contradiction|]. intros _ Hplain.
  inversion Hplain as [|? ? Hfirst Hrest]; subst.
  unfold PolyLine_draw_on. cbn [pl_line pl_F pl_E].
  rewrite (LINEAR_point_plain _ _ _ Hfirst). cbn [bind].
  rewrite (moves_of_plain_points _ _ _ Hrest). cbn [bind].
  rewrite fold_left_emit. reflexivity.
Qed.

(** X1.  Lowering a polyline raises [IndexError] for an empty point list
    and [TypeError] when a point carries an ["F"] or ["E"] key of its own;
    otherwise it returns the program that moves to the first point, sets
    the gate on, moves through the remaining points and sets the gate
    off, so that the moves visit exactly the points of the polyline, in
    order. *)
Theorem polyline_lowering (cs : CoordinateSystem) line F E :
  (line = [] ->
   PolyLine_draw_on (mkPolyLine line F E) cs = Raise IndexError)
  /\ (line <> [] -> Exists (fun point => ~ plain_point point) line ->
      PolyLine_draw_on (mkPolyLine line F E) cs = Raise TypeError)
  /\ (line <> [] -> Forall plain_point line ->
      exists prog,
        PolyLine_draw_on (mkPolyLine line F E) cs = OK prog /\
        instructions prog = polyline_instructions F E line /\
        move_targets (instructions prog) = line /\
        gate_trace (instructions prog) = [ON; OFF]).
Proof.
  split; [|split].
  - intros ->. reflexivity.
  - destruct line as [|first rest]; [contradiction|]. intros _ Hex.
    unfold PolyLine_draw_on. cbn [pl_line pl_F pl_E].
    destruct (plain_point_dec first) as [Hfirst|Hfirst].
    + rewrite (LINEAR_point_plain _ _ _ Hfirst). cbn [bind].
      rewrite moves_of_bad_points; [reflexivity|].
      inversion Hex; [contradiction | assumption].
    + rewrite (LINEAR_point_not_plain _ _ _ Hfirst). reflexivity.
  - intros Hne Hplain. eexists. split; [apply PolyLine_plain_program; assumption|].
    cbn [instructions]. split; [reflexivity|]. split.
    + apply polyline_instructions_targets.
    + apply polyline_instructions_gates. exact Hne.
Qed.

(** The loop of [PolyLines.draw_on] over non-empty lines of plain
    points. *)
Lemma PolyLines_loop_program (cs : CoordinateSystem) F E lines :
  Forall (fun line => line <> [] /\ Forall plain_point line) lines ->
  forall i program,
    PolyLines_loop F E cs i lines program =
    OK (mkProgram (coordinate_system program)
          (instructions program
           ++ flat_map
                (fun il => polyline_comment (fst il)
                           :: polyline_instructions F E (snd il))
                (combine (seq i (List.length lines)) lines))).
Proof.
  induction 1 as [|line lines [Hne Hplain] _ IH]; intros i program.
  - simpl. rewrite app_nil_r. destruct program; reflexivity.
  - cbn [PolyLines_loop List.length seq combine flat_map fst snd].
    rewrite (PolyLine_plain_program cs line F E Hne Hplain). cbn [bind].
    rewrite IH. cbn [add_programm emit coordinate_system instructions].
    rewrite <- !app_assoc. reflexivity.
Qed.

(** An empty line stops the loop with an exception. *)
Lemma PolyLines_loop_empty_line (cs : CoordinateSystem) F E lines :
  In [] lines ->
  forall i program, exists e, PolyLines_loop F E cs i lines program = Raise e.
Proof.
  induction lines as [|line lines IH]; intros Hin i program; [contradiction|].
  cbn [PolyLines_loop].
  destruct (PolyLine_draw_on (mkPolyLine line F E) cs) as [sub|e] eqn:Hsub;
    cbn [bind]; [|eexists; reflexivity].
  destruct Hin as [->|Hin]; [discriminate Hsub|].
  apply IH. exact Hin.
Qed.

Lemma numbered_lines_gates F E lines :
  Forall (fun line : list Coordinate => line <> []) lines ->
  forall i,
    gate_trace
      (flat_map (fun il => polyline_comment (fst il)
                           :: polyline_instructions F E (snd il))
                (combine (seq i (List.length lines)) lines))
    = on_off_pairs (List.length lines).
Proof.
  induction 1 as [|line lines Hne _ IH]; intros i; [reflexivity|].
  cbn [List.length seq combine flat_map fst snd].
  rewrite gate_trace_app. unfold polyline_comment at 1. cbn [gate_trace].
  rewrite (polyline_instructions_gates F E line Hne), IH.
  reflexivity.
Qed.

Lemma numbered_lines_targets F E (lines : list (list Coordinate)) :
  forall i,
    move_targets
      (flat_map (fun il => polyline_comment (fst il)
                           :: polyline_instructions F E (snd il))
                (combine (seq i (List.length lines)) lines))
    = List.concat lines.
Proof.
  induction lines as [|line lines IH]; intros i; [reflexivity|].
  cbn [List.length seq combine flat_map fst snd List.concat].
  rewrite move_targets_app. unfold polyline_comment at 1. cbn [move_targets].
  rewrite polyline_instructions_targets, IH. reflexivity.
Qed.

(** X2.  A batch of polylines is lowered line by line: for non-empty
    lines of plain points the program is, for each line [i] in order, the
    comment naming [i] followed by the program of that polyline; the laser
    is gated on and off exactly once per line and the moves visit all
    points in order.  One empty line makes the whole lowering raise, so
    no program is returned even for the lines before it. *)
Theorem polylines_lowering (cs : CoordinateSystem) lines F E :
  (Forall (fun line => line <> [] /\ Forall plain_point line) lines ->
   exists prog,
     PolyLines_draw_on (mkPolyLines lines F E) cs = OK prog /\
     instructions prog =
       flat_map (fun il => polyline_comment (fst il)
                           :: polyline_instructions F E (snd il))
                (combine (seq 0 (List.length lines)) lines) /\
     gate_trace (instructions prog) = on_off_pairs (List.length lines) /\
     move_targets (instructions prog) = List.concat lines)
  /\ (In [] lines ->
      exists e, PolyLines_draw_on (mkPolyLines lines F E) cs = Raise e).
Proof.
  split.
  - intros Hlines. eexists. split.
    + unfold PolyLines_draw_on. cbn [pls_lines pls_F pls_E].
      apply (PolyLines_loop_program cs F E lines Hlines).
    + cbn [instructions new_program app]. split; [reflexivity|]. split.
      * apply numbered_lines_gates.
        eapply Forall_impl; [|exact Hlines]. intros line [Hne _]. exact Hne.
      * apply numbered_lines_targets.
  - intros Hin. unfold PolyLines_draw_on. cbn [pls_lines pls_F pls_E].
    apply PolyLines_loop_empty_line. exact Hin.
Qed.

End PolyLineLowering.

(** ** Line sweeps *)

Section Sweeps.

Context {CoordinateSystem : Type}.

Lemma segments_facts axis v lines :
  let segments := flat_map (_Lines_segment (parameter_name axis) v) lines in
  List.length segments = (4 * List.length lines)%nat /\
  gate_trace segments = on_off_pairs (List.length lines) /\
  Forall (at_velocity v) segments /\
  move_targets segments = flat_map (segment_targets axis) lines.
Proof.
  cbv zeta. induction lines as [|line lines (IHlen & IHgate & IHvel & IHmov)].
  - repeat split. constructor.
  - destruct axis; cbn [flat_map _Lines_segment parameter_name app].
    all: repeat split.
    all: try (cbn [List.length]; cbn [List.length] in IHlen;
              cbn [parameter_name] in IHlen; rewrite IHlen; lia).
    all: try (cbn [gate_trace LINEAR_kwargs List.length on_off_pairs];
              cbn [parameter_name] in IHgate; rewrite IHgate; reflexivity).
    all: try (repeat constructor; cbn [parameter_name] in IHvel; exact IHvel).
    all: cbn [parameter_name] in IHmov; simpl; rewrite IHmov; reflexivity.
Qed.

(** X3.  The program of a sweep built by [XLines] or [YLines] (non-zero
    acceleration) has [4 n + 2] instructions for [n] segments, gates the
    laser on and off exactly once per segment, and runs every move at the
    commanded velocity.  Only the first and the last move carry the fixed
    secondary position; the moves of the segments name the swept axis
    alone, so the secondary axes are never moved inside the sweep. *)
Theorem sweep_moves axis other z lines v a s (cs : CoordinateSystem) line0 :
  new_sweep axis other z lines v a = OK s ->
  ~ a == 0 ->
  hd_error lines = Some line0 ->
  exists prog start_value end_value,
    _Lines_draw_on s cs = OK prog /\
    List.length (instructions prog) = (4 * List.length lines + 2)%nat /\
    gate_trace (instructions prog) = on_off_pairs (List.length lines) /\
    Forall (at_velocity v) (instructions prog) /\
    move_targets (instructions prog) =
      move_targets [sweep_move axis start_value other z v]
      ++ flat_map (segment_targets axis) lines
      ++ move_targets [sweep_move axis end_value other z v].
Proof.
  intros Hs Ha Hhd.
  destruct (segments_facts axis v lines) as (Hlen & Hgate & Hvel & Hmov).
  eexists _, _, _. split; [exact (sweep_program _ _ _ _ _ _ _ cs _ Hs Ha Hhd)|].
  cbn [instructions]. repeat split.
  - cbn [List.length]. rewrite length_app, Hlen. cbn [List.length]. lia.
  - destruct axis; cbn [sweep_move gate_trace];
      rewrite gate_trace_app, Hgate; cbn [gate_trace];
      apply app_nil_r.
  - constructor.
    + destruct axis; split; reflexivity.
    + apply Forall_app. split; [exact Hvel|].
      constructor; [|constructor]. destruct axis; split; reflexivity.
  - destruct axis; cbn [sweep_move move_targets app];
      rewrite move_targets_app, Hmov; reflexivity.
Qed.

Lemma XLines_init_fields y z lines v a s :
  XLines_init y z lines v a = OK s ->
  XLines y z lines v a = OK (x_base s) /\ x_y s = y /\ x_z s = z.
Proof.
  unfold XLines_init. destruct (XLines y z lines v a) as [base|e];
    simpl; [|discriminate].
  intros [= <-]. repeat split.
Qed.

Lemma YLines_init_fields x z lines v a s :
  YLines_init x z lines v a = OK s ->
  YLines x z lines v a = OK (y_base s) /\ y_x s = x /\ y_z s = z.
Proof.
  unfold YLines_init. destruct (YLines x z lines v a) as [base|e];
    simpl; [|discriminate].
  intros [= <-]. repeat split.
Qed.

Lemma sweep_lines axis other z lines v a s :
  new_sweep axis other z lines v a = OK s -> Drawings.lines s = lines.
Proof. intros Hs. apply new_sweep_fields in Hs. subst s. reflexivity. Qed.

(** The middle of a sweep lies half way between its lead-in and its
    lead-out position. *)
Lemma sweep_middle_of_leads axis other z lines v a s (cs : CoordinateSystem) :
  new_sweep axis other z lines v a = OK s ->
  ~ a == 0 ->
  exists start_value end_value middle,
    _Lines_draw_on s cs =
      OK (mkProgram cs
            (sweep_move axis start_value other z v
             :: flat_map (_Lines_segment (parameter_name axis) v) lines
             ++ [sweep_move axis end_value other z v])) /\
    sweep_middle (Drawings.lines s) = OK middle /\
    middle == (start_value + end_value) / 2.
Proof.
  intros Hs Ha.
  pose proof (new_sweep_nonempty _ _ _ _ _ _ _ Hs) as Hne.
  rewrite (sweep_lines _ _ _ _ _ _ _ Hs).
  destruct lines as [|line0 rest]; [contradiction|].
  eexists _, _, _.
  split; [exact (sweep_program _ _ _ _ _ _ _ cs line0 Hs Ha eq_refl)|].
  split; [reflexivity|].
  field. exact Ha.
Qed.

(** X4.  The center point of a line sweep lies, on the swept axis, half
    way between the positions of the first and of the last move of its
    program (the lead-in and the lead-out), whatever the velocity and the
    non-zero acceleration are; its other two coordinates are the fixed
    secondary position. *)
Theorem sweep_center_point (cs : CoordinateSystem) p q lines v a :
  ~ a == 0 ->
  (forall s,
      XLines_init p q lines v a = OK s ->
      exists start_value end_value middle,
        _Lines_draw_on (x_base s) cs =
          OK (mkProgram cs
                (LINEAR [("X", start_value); ("Y", p); ("Z", q)] (Some v) None
                 :: flat_map (_Lines_segment "X" v) lines
                 ++ [LINEAR [("X", end_value); ("Y", p); ("Z", q)]
                            (Some v) None])) /\
        XLines_center_point s = OK (Point3D middle p q) /\
        middle == (start_value + end_value) / 2)
  /\
  (forall s,
      YLines_init p q lines v a = OK s ->
      exists start_value end_value middle,
        _Lines_draw_on (y_base s) cs =
          OK (mkProgram cs
                (LINEAR [("Y", start_value); ("X", p); ("Z", q)] (Some v) None
                 :: flat_map (_Lines_segment "Y" v) lines
                 ++ [LINEAR [("Y", end_value); ("X", p); ("Z", q)]
                            (Some v) None])) /\
        YLines_center_point s = OK (Point3D p middle q) /\
        middle == (start_value + end_value) / 2).
Proof.
  intros Ha. split; intros s Hs.
  - apply XLines_init_fields in Hs. destruct Hs as (Hbase & Hy & Hz).
    destruct (sweep_middle_of_leads AxisX p q lines v a (x_base s) cs Hbase Ha)
      as (sv & ev & middle & Hprog & Hmid & Heq).
    exists sv, ev, middle. split; [exact Hprog|]. split; [|exact Heq].
    unfold XLines_center_point. rewrite Hmid, Hy, Hz. reflexivity.
  - apply YLines_init_fields in Hs. destruct Hs as (Hbase & Hx & Hz).
    destruct (sweep_middle_of_leads AxisY p q lines v a (y_base s) cs Hbase Ha)
      as (sv & ev & middle & Hprog & Hmid & Heq).
    exists sv, ev, middle. split; [exact Hprog|]. split; [|exact Heq].
    unfold YLines_center_point. rewrite Hmid, Hx, Hz. reflexivity.
Qed.

(** X27.  A sweep is only checked for the directions of its segments.
    An empty segment list raises [IndexError] at construction and a
    single segment is always accepted; a sweep with acceleration 0 is
    constructed as well, but lowering it raises [ZeroDivisionError], the
    lead distance being [v^2 / (2 a)]. *)
Theorem sweep_degenerate axis other z lines v a (cs : CoordinateSystem) :
  (lines = [] -> new_sweep axis other z lines v a = Raise IndexError)
  /\ (forall line, lines = [line] ->
      exists s, new_sweep axis other z lines v a = OK s)
  /\ (forall s, new_sweep axis other z lines v a = OK s -> a == 0 ->
      _Lines_draw_on s cs = Raise ZeroDivisionError).
Proof.
  split; [|split].
  - intros ->. destruct axis; reflexivity.
  - intros line ->. destruct axis; eexists; reflexivity.
  - intros s Hs Ha. apply new_sweep_fields in Hs. subst s.
    unfold _Lines_draw_on. cbn [velocity acceleration].
    rewrite py_div_zero; [reflexivity|]. rewrite Ha. reflexivity.
Qed.

End Sweeps.


(** ** Hatched corners and corner rectangles *)

Section Corners.

Context {CoordinateSystem : Type} `{FloatMath}.

Lemma on_off_pairs_length k : List.length (on_off_pairs k) = (2 * k)%nat.
Proof. induction k as [|k IH]; simpl; [reflexivity | rewrite IH; lia]. Qed.

(** A list of blocks with [m] gate pairs and [len] instructions each. *)
Lemma blocks_facts {A : Type} (f : A -> list Instruction) m len l :
  (forall x, gate_trace (f x) = on_off_pairs m) ->
  (forall x, List.length (f x) = len) ->
  gate_trace (flat_map f l) = on_off_pairs (List.length l * m) /\
  List.length (flat_map f l) = (List.length l * len)%nat.
Proof.
  intros Hgate Hlen. induction l as [|x l [IHg IHl]]; [split; reflexivity|].
  cbn [flat_map List.length]. split.
  - rewrite gate_trace_app, Hgate, IHg, on_off_pairs_add. reflexivity.
  - rewrite length_app, Hlen, IHl. reflexivity.
Qed.

Lemma stroke_facts (c : Corner) k z n pitch i :
  gate_trace (stroke_instructions c k z n pitch i) = on_off_pairs 1 /\
  List.length (stroke_instructions c k z n pitch i) = 6%nat.
Proof.
  unfold stroke_instructions.
  destruct (stroke_points c z n pitch i) as [[p1 p2] p3].
  destruct ((i + k) mod 2 =? 1)%nat; split; reflexivity.
Qed.

Lemma layers_facts (c : Corner) n pitch k0 zs :
  gate_trace (layers_instructions c n pitch k0 zs)
  = on_off_pairs (List.length zs * Z.to_nat n) /\
  List.length (layers_instructions c n pitch k0 zs)
  = (List.length zs * (Z.to_nat n * 6))%nat.
Proof.
  unfold layers_instructions.
  assert (Hlayer : forall kz : nat * Q,
             gate_trace (layer_instructions c n pitch (fst kz) (snd kz))
             = on_off_pairs (Z.to_nat n) /\
             List.length (layer_instructions c n pitch (fst kz) (snd kz))
             = (Z.to_nat n * 6)%nat).
  { intros kz. unfold layer_instructions.
    destruct (blocks_facts (stroke_instructions c (fst kz) (snd kz) n pitch)
                1 6 (seq 0 (Z.to_nat n))) as [Hg Hl].
    - intros i. apply stroke_facts.
    - intros i. apply stroke_facts.
    - rewrite length_seq in Hg, Hl. rewrite Nat.mul_1_r in Hg. split; assumption. }
  destruct (blocks_facts
              (fun kz => layer_instructions c n pitch (fst kz) (snd kz))
              (Z.to_nat n) (Z.to_nat n * 6)
              (combine (seq k0 (List.length zs)) zs)) as [Hg Hl].
  - intros kz. apply Hlayer.
  - intros kz. apply Hlayer.
  - rewrite length_combine, length_seq, Nat.min_id in Hg, Hl.
    split; assumption.
Qed.

Lemma arange_layers_count H0 L :
  is_double H0 ->
  List.length
    (map (fun k => 0 + inject_Z (Z.of_nat k) * L)
         (seq 0 (Z.to_nat (Qceiling (binary64 (binary64 (H0 - 0) / L))))))
  = Z.to_nat (Qceiling (binary64 (H0 / L))).
Proof.
  intros HH. rewrite length_map, length_seq.
  rewrite (Qceiling_comp _ _ (arange_quotient H0 L HH)). reflexivity.
Qed.

(** X5.  A hatched corner with positive height [H] (a double) and layer
    height [L] and [round(width / hatch_size) >= 1] fires the laser
    exactly [ceil(H / L) * (round(width / hatch_size) + 1)] times, once
    per stroke of every layer, both quotients being quotients of doubles,
    and its program has six instructions per stroke (the comment, three
    moves and the two gate instructions). *)
Theorem corner_exposures (c : Corner) (cs : CoordinateSystem) :
  0 < c_height c ->
  0 < layer_height c ->
  is_double (c_height c) ->
  (1 <= py_round (binary64 (c_width c / hatch_size c)))%Z ->
  let strokes :=
    (Z.to_nat (Qceiling (binary64 (c_height c / layer_height c)))
     * Z.to_nat (py_round (binary64 (c_width c / hatch_size c)) + 1))%nat in
  exists prog,
    Corner_draw_on c cs = OK prog /\
    gate_trace (instructions prog) = on_off_pairs strokes /\
    List.length (instructions prog) = (6 * strokes)%nat.
Proof.
  intros HH HL Hd Hn strokes.
  assert (Hh : ~ hatch_size c == 0).
  { intros Hh. rewrite (py_round_undefined_ratio _ _ Hh) in Hn. lia. }
  assert (HL0 : ~ layer_height c == 0).
  { intros H0. rewrite H0 in HL. discriminate HL. }
  eexists. split; [apply (Corner_program c cs Hh); [lia | exact HL0]|].
  cbn [instructions].
  match goal with
  | |- context [layers_instructions c ?n ?pitch 0 ?zs] =>
      destruct (layers_facts c n pitch 0 zs) as [Hg Hl]
  end.
  rewrite Hg, Hl, (arange_layers_count _ _ Hd). unfold strokes.
  split; [reflexivity | lia].
Qed.

(** X6.  A corner rectangle places four corners that share every hatch
    parameter, rotated by 0, 90, 180 and 270 degrees in the order top
    left, top right, bottom right, bottom left.  When
    [round(corner_width / hatch_size)], the quotient being the quotient
    of doubles, is 0 its lowering raises [ZeroDivisionError]; when that
    ratio is not 0 and the layer height is not 0 all four corners are
    lowered and the program is their four programs in that order, each
    after its comment. *)
Theorem corner_rectangle_lowering (cs : CoordinateSystem) center
    rect_width rect_height corner_length corner_width height layer hatch F E :
  let r := CornerRectangle_init center rect_width rect_height
             corner_length corner_width height layer hatch F E in
  (rotation_degree (tl_corner r) = 0 /\ rotation_degree (tr_corner r) = 90 /\
   rotation_degree (br_corner r) = 180 /\ rotation_degree (bl_corner r) = 270)
  /\ (py_round (binary64 (corner_width / hatch)) = 0%Z ->
      CornerRectangle_draw_on r cs = Raise ZeroDivisionError)
  /\ (py_round (binary64 (corner_width / hatch)) <> 0%Z ->
      ~ layer == 0 ->
      exists tl tr br bl,
        Corner_draw_on (tl_corner r) cs = OK tl /\
        Corner_draw_on (tr_corner r) cs = OK tr /\
        Corner_draw_on (br_corner r) cs = OK br /\
        Corner_draw_on (bl_corner r) cs = OK bl /\
        CornerRectangle_draw_on r cs =
        OK (mkProgram cs
              (corner_comment "Top Left" :: instructions tl
               ++ corner_comment "Top Right" :: instructions tr
               ++ corner_comment "Bottom Right" :: instructions br
               ++ corner_comment "Bottom Left" :: instructions bl))).
Proof.
  intros r.
  assert (Hok : py_round (binary64 (corner_width / hatch)) <> 0%Z ->
                ~ layer == 0 ->
                forall c, In c [tl_corner r; tr_corner r; br_corner r; bl_corner r] ->
                          exists prog, Corner_draw_on c cs = OK prog).
  { intros Hr HL c Hc.
    assert (Hh : ~ hatch == 0).
    { intros Hh. apply Hr. apply py_round_undefined_ratio. exact Hh. }
    simpl in Hc. destruct Hc as [<-|[<-|[<-|[<-|[]]]]];
      eexists; apply Corner_program; assumption. }
  split; [repeat split|]. split.
  - intros Hr. unfold CornerRectangle_draw_on.
    rewrite (Corner_zero_ratio (tl_corner r) cs Hr). reflexivity.
  - intros Hr HL0.
    destruct (Hok Hr HL0 (tl_corner r)) as (p1 & H1); [simpl; auto|].
    destruct (Hok Hr HL0 (tr_corner r)) as (p2 & H2); [simpl; auto|].
    destruct (Hok Hr HL0 (br_corner r)) as (p3 & H3); [simpl; auto|].
    destruct (Hok Hr HL0 (bl_corner r)) as (p4 & H4); [simpl; auto|].
    exists p1, p2, p3, p4. repeat (split; [assumption|]).
    unfold CornerRectangle_draw_on.
    rewrite H1. cbn [bind]. rewrite H2. cbn [bind].
    rewrite H3. cbn [bind]. rewrite H4. cbn [bind].
    unfold add_programm, emit, new_program.
    cbn [coordinate_system instructions].
    apply f_equal. apply f_equal.
    rewrite <- !app_assoc. reflexivity.
Qed.

End Corners.



(** ** Rectangle3D.points_to_cmds *)

Section PointsToCmds.

Context {CoordinateSystem : Type}.
Implicit Types program : DrawableAeroBasicProgram CoordinateSystem.

(** The program after [added] has been appended to it. *)
Local Abbreviation extended program added :=
  (mkProgram (coordinate_system program) (instructions program ++ added)).

Lemma has_xyz_dec point : has_xyz point \/ ~ has_xyz point.
Proof. unfold has_xyz. lia. Qed.

Lemma extended_nil program : program = extended program [].
Proof. destruct program. cbn. rewrite app_nil_r. reflexivity. Qed.

Lemma extended_emit program added i :
  emit (extended program added) i = extended program (added ++ [i]).
Proof. unfold emit. cbn. rewrite app_assoc. reflexivity. Qed.

Lemma bind_LINEAR_xyz_ok {B} point (f : unit -> cmd CoordinateSystem B) program :
  has_xyz point ->
  cmd_bind (LINEAR_xyz point) f program = f tt (emit program (xyz_move point)).
Proof.
  unfold has_xyz. destruct point as [|x [|y [|z point]]]; simpl; try lia.
  reflexivity.
Qed.

Lemma bind_LINEAR_xyz_short {B} point (f : unit -> cmd CoordinateSystem B) program :
  ~ has_xyz point ->
  cmd_bind (LINEAR_xyz point) f program = (program, Raise IndexError).
Proof.
  unfold has_xyz. destruct point as [|x [|y [|z point]]]; simpl;
    try reflexivity.
  intros Hn. exfalso. apply Hn. lia.
Qed.

Lemma LINEAR_xyz_ok point program :
  has_xyz point ->
  LINEAR_xyz point program = (emit program (xyz_move point), OK tt).
Proof.
  unfold has_xyz. destruct point as [|x [|y [|z point]]]; simpl; try lia.
  reflexivity.
Qed.

Lemma LINEAR_xyz_short point program :
  ~ has_xyz point -> LINEAR_xyz point program = (program, Raise IndexError).
Proof.
  unfold has_xyz. destruct point as [|x [|y [|z point]]]; simpl;
    try reflexivity.
  intros Hn. exfalso. apply Hn. lia.
Qed.

(** What one pass of the loop body does: the six instructions of a
    drawable line, or an [IndexError] after a proper prefix of them. *)
Lemma points_to_cmds_line_outcome line program :
  exists added r,
    points_to_cmds_line line (program) = (extended program added, r) /\
    ((r = OK tt /\ drawable_line line /\ added = line_commands line) \/
     (r = Raise IndexError /\ ~ drawable_line line)).
Proof.
  assert (Hshort : forall l : list (list Q), (List.length l < 4)%nat ->
                                             ~ drawable_line l).
  { intros l Hl (p0 & p1 & p2 & p3 & more & -> & _). simpl in Hl. lia. }
  destruct line as [|p0 [|p1 [|p2 [|p3 more]]]];
    try (exists [], (Raise IndexError); split;
         [cbn; rewrite app_nil_r; destruct program; reflexivity
         | right; split; [reflexivity | apply Hshort; simpl; lia]]).
  assert (Hbad : forall p, In p [p0; p1; p2; p3] -> ~ has_xyz p ->
                           ~ drawable_line (p0 :: p1 :: p2 :: p3 :: more)).
  { intros p Hin Hp (q0 & q1 & q2 & q3 & more' & Heq & H0 & H1 & H2 & H3).
    injection Heq as -> -> -> -> _.
    simpl in Hin. destruct Hin as [<-|[<-|[<-|[<-|[]]]]]; contradiction. }
  change (points_to_cmds_line (p0 :: p1 :: p2 :: p3 :: more) program)
    with (cmd_bind (LINEAR_xyz p0) (fun _ =>
          cmd_bind (LINEAR_xyz p1) (fun _ =>
          cmd_bind (cmd_emit (GALVO_LASER_OVERRIDE ON)) (fun _ =>
          cmd_bind (LINEAR_xyz p2) (fun _ =>
          cmd_bind (cmd_emit (GALVO_LASER_OVERRIDE OFF)) (fun _ =>
          LINEAR_xyz p3))))) program).
  destruct (has_xyz_dec p0) as [H0|H0];
    [rewrite (bind_LINEAR_xyz_ok _ _ _ H0)
    |rewrite (bind_LINEAR_xyz_short _ _ _ H0);
     exists [], (Raise IndexError); split;
     [apply f_equal2; [apply extended_nil | reflexivity]
     | right; split; [reflexivity | apply (Hbad p0); simpl; auto]]].
  destruct (has_xyz_dec p1) as [H1|H1];
    [rewrite (bind_LINEAR_xyz_ok _ _ _ H1)
    |rewrite (bind_LINEAR_xyz_short _ _ _ H1);
     exists [xyz_move p0], (Raise IndexError); split;
     [reflexivity
     | right; split; [reflexivity | apply (Hbad p1); simpl; auto]]].
  change (cmd_bind (cmd_emit (GALVO_LASER_OVERRIDE ON)) ?f ?p)
    with (f tt (emit p (GALVO_LASER_OVERRIDE ON))).
  cbv beta.
  destruct (has_xyz_dec p2) as [H2|H2];
    [rewrite (bind_LINEAR_xyz_ok _ _ _ H2)
    |rewrite (bind_LINEAR_xyz_short _ _ _ H2);
     exists [xyz_move p0; xyz_move p1; GALVO_LASER_OVERRIDE ON],
            (Raise IndexError); split;
     [unfold emit; cbn; rewrite <- !app_assoc; reflexivity
     | right; split; [reflexivity | apply (Hbad p2); simpl; auto]]].
  change (cmd_bind (cmd_emit (GALVO_LASER_OVERRIDE OFF)) ?f ?p)
    with (f tt (emit p (GALVO_LASER_OVERRIDE OFF))).
  cbv beta.
  destruct (has_xyz_dec p3) as [H3|H3];
    [rewrite (LINEAR_xyz_ok _ _ H3)
    |rewrite (LINEAR_xyz_short _ _ H3);
     exists [xyz_move p0; xyz_move p1; GALVO_LASER_OVERRIDE ON; xyz_move p2;
             GALVO_LASER_OVERRIDE OFF], (Raise IndexError); split;
     [unfold emit; cbn; rewrite <- !app_assoc; reflexivity
     | right; split; [reflexivity | apply (Hbad p3); simpl; auto]]].
  exists (line_commands (p0 :: p1 :: p2 :: p3 :: more)), (OK tt). split.
  - unfold emit, line_commands. cbn. rewrite <- !app_assoc. reflexivity.
  - left. split; [reflexivity|]. split; [|reflexivity].
    exists p0, p1, p2, p3, more. auto.
Qed.

(** A [for] loop whose body either appends [out a] or raises
    [IndexError] appends the outputs of the items before the first bad
    one. *)
Lemma cmd_for_outcome {A : Type} (body : A -> cmd CoordinateSystem unit)
    (good : A -> Prop) (out : A -> list Instruction) :
  (forall a program, exists added r,
      body a program = (extended program added, r) /\
      ((r = OK tt /\ good a /\ added = out a) \/
       (r = Raise IndexError /\ ~ good a))) ->
  forall l program, exists added r,
      cmd_for body l program = (extended program added, r) /\
      ((r = OK tt /\ Forall good l /\ added = flat_map out l) \/
       (r = Raise IndexError /\ ~ Forall good l)).
Proof.
  intros Hbody. induction l as [|a l IH]; intros program.
  - exists [], (OK tt). split.
    + cbn [cmd_for]. unfold cmd_ret. rewrite <- extended_nil. reflexivity.
    + left. repeat split. constructor.
  - destruct (Hbody a program) as (a1 & r1 & H1 & [(-> & Hg & ->)|(-> & Hn)]).
    + destruct (IH (extended program (out a))) as (a2 & r2 & H2 & Hcase).
      exists (out a ++ a2), r2. split.
      * cbn [cmd_for]. unfold cmd_bind. rewrite H1, H2. cbn.
        rewrite app_assoc. reflexivity.
      * destruct Hcase as [(-> & Hl & ->)|(-> & Hl)].
        -- left. repeat split. constructor; assumption.
        -- right. split; [reflexivity|]. intros Hall. apply Hl.
           inversion Hall; assumption.
    + exists a1, (Raise IndexError). split.
      * cbn [cmd_for]. unfold cmd_bind. rewrite H1. reflexivity.
      * right. split; [reflexivity|]. intros Hall. apply Hn.
        inversion Hall; assumption.
Qed.

Lemma points_to_cmds_outcome structure program :
  exists added r,
    points_to_cmds structure program = (extended program added, r) /\
    ((r = OK tt /\ Forall (Forall drawable_line) structure /\
      added = flat_map (flat_map line_commands) structure) \/
     (r = Raise IndexError /\ ~ Forall (Forall drawable_line) structure)).
Proof.
  unfold points_to_cmds.
  apply (cmd_for_outcome (fun layer => cmd_for points_to_cmds_line layer)
           (Forall drawable_line) (flat_map line_commands)).
  intros layer program'.
  apply (cmd_for_outcome points_to_cmds_line drawable_line line_commands).
  apply points_to_cmds_line_outcome.
Qed.

Lemma cmd_for_app {A : Type} (body : A -> cmd CoordinateSystem unit) l1 l2
    program :
  cmd_for body (l1 ++ l2) program =
  cmd_bind (cmd_for body l1) (fun _ => cmd_for body l2) program.
Proof.
  revert program. induction l1 as [|a l1 IH]; intros program; [reflexivity|].
  cbn [app cmd_for]. unfold cmd_bind.
  destruct (body a program) as [program' [[]|e]]; [|reflexivity].
  rewrite IH. reflexivity.
Qed.

Lemma line_commands_facts (lines : list (list (list Q))) :
  gate_trace (flat_map line_commands lines) = on_off_pairs (List.length lines)
  /\ List.length (flat_map line_commands lines) = (6 * List.length lines)%nat.
Proof.
  induction lines as [|line lines [IHg IHl]]; [split; reflexivity|].
  cbn [flat_map List.length]. split.
  - rewrite gate_trace_app, IHg. reflexivity.
  - rewrite length_app, IHl. cbn [line_commands List.length]. lia.
Qed.

Lemma structure_commands_facts (structure : list (list (list (list Q)))) :
  gate_trace (flat_map (flat_map line_commands) structure)
  = on_off_pairs (List.length (List.concat structure))
  /\ List.length (flat_map (flat_map line_commands) structure)
     = (6 * List.length (List.concat structure))%nat.
Proof.
  induction structure as [|layer structure [IHg IHl]]; [split; reflexivity|].
  destruct (line_commands_facts layer) as [Hg Hl].
  cbn [flat_map List.concat]. split.
  - rewrite gate_trace_app, Hg, IHg, length_app, on_off_pairs_add. reflexivity.
  - rewrite !length_app, Hl, IHl. lia.
Qed.

(** X7.  [points_to_cmds] appends to the program it is given, and what
    it appends for a structure of drawable lines (four points with three
    coordinates each) is, line by line and layer by layer, the move to
    the lead-in point, the move to the start, gate on, the move to the
    end, gate off and the move to the lead-out point: six instructions
    and one exposure per line, so a well-gated program stays
    well-gated. *)
Theorem points_to_cmds_lowering structure program :
  Forall (Forall drawable_line) structure ->
  let added := flat_map (flat_map line_commands) structure in
  points_to_cmds structure program = (extended program added, OK tt)
  /\ List.length added = (6 * List.length (List.concat structure))%nat
  /\ gate_trace added = on_off_pairs (List.length (List.concat structure))
  /\ (well_gated (instructions program) = true ->
      well_gated (instructions program ++ added) = true).
Proof.
  intros Hall added.
  destruct (structure_commands_facts structure) as [Hg Hl].
  split; [|split; [exact Hl | split; [exact Hg|]]].
  - destruct (points_to_cmds_outcome structure program)
      as (a & r & Hrun & [(-> & _ & ->)|(_ & Hn)]); [exact Hrun | contradiction].
  - intros Hw. apply well_gated_paired. apply well_gated_paired in Hw.
    apply paired_app; [exact Hw|]. eexists. exact Hg.
Qed.

(** X8.  Whatever the structure is, [points_to_cmds] only appends to the
    program, and it either returns or raises [IndexError]; it returns
    exactly when every line of every layer is drawable. *)
Theorem points_to_cmds_index_error structure program :
  exists added r,
    points_to_cmds structure program = (extended program added, r) /\
    (r = OK tt \/ r = Raise IndexError) /\
    (r = OK tt <-> Forall (Forall drawable_line) structure).
Proof.
  destruct (points_to_cmds_outcome structure program)
    as (added & r & Hrun & [(-> & Hall & _)|(-> & Hn)]);
    exists added; eexists; (split; [exact Hrun|]).
  - split; [left; reflexivity|]. split; [intros _; exact Hall | reflexivity].
  - split; [right; reflexivity|]. split; [discriminate | contradiction].
Qed.

(** X9.  [points_to_cmds] is not exception safe: when the first line that
    is not drawable has at least four points of which the first two have
    three coordinates and the third has not, the [IndexError] is raised
    after the gate was switched on, and the caller's program, well-gated
    before the call, is left with the laser on. *)
Theorem points_to_cmds_leaves_gate_on layers_before lines_before p0 p1 p2 p3
    more lines_after layers_after program :
  Forall (Forall drawable_line) layers_before ->
  Forall drawable_line lines_before ->
  has_xyz p0 -> has_xyz p1 -> ~ has_xyz p2 ->
  well_gated (instructions program) = true ->
  exists program',
    points_to_cmds
      (layers_before
       ++ (lines_before ++ (p0 :: p1 :: p2 :: p3 :: more) :: lines_after)
       :: layers_after) program
    = (program', Raise IndexError) /\
    instructions program' =
      instructions program
      ++ flat_map (flat_map line_commands) layers_before
      ++ flat_map line_commands lines_before
      ++ [xyz_move p0; xyz_move p1; GALVO_LASER_OVERRIDE ON] /\
    well_gated (instructions program') = false.
Proof.
  intros Hlayers Hlines H0 H1 H2 Hw.
  eexists. split; [|split].
  - unfold points_to_cmds. rewrite cmd_for_app. unfold cmd_bind at 1.
    destruct (points_to_cmds_outcome layers_before program)
      as (a & r & Hrun & [(-> & _ & ->)|(_ & Hn)]); [|contradiction].
    unfold points_to_cmds in Hrun. rewrite Hrun.
    cbn [cmd_for]. unfold cmd_bind at 1. rewrite cmd_for_app.
    unfold cmd_bind at 1.
    match goal with
    | |- context [cmd_for points_to_cmds_line lines_before ?p] =>
        destruct (cmd_for_outcome points_to_cmds_line drawable_line
                    line_commands points_to_cmds_line_outcome lines_before p)
          as (a & r & Hrun' & [(-> & _ & ->)|(_ & Hn)]); [|contradiction];
        rewrite Hrun'
    end.
    cbn [cmd_for]. unfold cmd_bind at 1.
    change (points_to_cmds_line (p0 :: p1 :: p2 :: p3 :: more) ?p)
      with (cmd_bind (LINEAR_xyz p0) (fun _ =>
            cmd_bind (LINEAR_xyz p1) (fun _ =>
            cmd_bind (cmd_emit (GALVO_LASER_OVERRIDE ON)) (fun _ =>
            cmd_bind (LINEAR_xyz p2) (fun _ =>
            cmd_bind (cmd_emit (GALVO_LASER_OVERRIDE OFF)) (fun _ =>
            LINEAR_xyz p3))))) p).
    rewrite (bind_LINEAR_xyz_ok _ _ _ H0), (bind_LINEAR_xyz_ok _ _ _ H1).
    change (cmd_bind (cmd_emit (GALVO_LASER_OVERRIDE ON)) ?f ?p)
      with (f tt (emit p (GALVO_LASER_OVERRIDE ON))).
    cbv beta. rewrite (bind_LINEAR_xyz_short _ _ _ H2). reflexivity.
  - unfold emit. cbn [instructions coordinate_system].
    rewrite <- !app_assoc. reflexivity.
  - unfold emit. cbn [instructions coordinate_system].
    match goal with
    | |- ?w = false => destruct w eqn:Hgate; [exfalso | reflexivity]
    end.
    apply well_gated_paired in Hgate. apply well_gated_paired in Hw.
    destruct Hgate as [k Hk]. destruct Hw as [k0 Hk0].
    destruct (structure_commands_facts layers_before) as [Hg1 _].
    destruct (line_commands_facts lines_before) as [Hg2 _].
    apply (f_equal (@List.length _)) in Hk.
    rewrite !gate_trace_app, Hk0, Hg1, Hg2 in Hk.
    rewrite !length_app, !on_off_pairs_length in Hk.
    cbn [gate_trace xyz_move List.length] in Hk. lia.
Qed.

End PointsToCmds.

(** ** Rectangle3D *)

Section Rectangles.

Context {CoordinateSystem : Type} `{FloatMath}.
Context {point_list : Type}.
Variable layer_loop :
  Rectangle3D -> Q -> Q -> option Point -> list Z -> result point_list.
Variable next_start : point_list -> Z -> Q -> option Point.

(** X28.  No method of [Rectangle3D] that computes geometry returns.
    [calc_points_layer] raises [NotImplementedError] for a slicing
    direction other than 0 and 1, [ZeroDivisionError] for hatch size 0,
    and otherwise [TypeError], because the line count [np.ceil(...)] is
    a float and [range] rejects it; [slicing_layers] raises
    [ZeroDivisionError] for layer height 0 and otherwise [TypeError]
    before it slices a single layer; and [draw_on] raises
    [NotImplementedError]. *)
Theorem rectangle3d_never_slices (self : Rectangle3D) (cs : CoordinateSystem) :
  (forall slicing_direction starting_point,
      calc_points_layer point_list layer_loop self slicing_direction
        starting_point =
      Raise (if ((slicing_direction =? 0) || (slicing_direction =? 1))%Z
             then if Qeq_bool (r_hatch_size self) 0 then ZeroDivisionError
                  else TypeError
             else NotImplementedError))
  /\ slicing_layers point_list layer_loop next_start self =
     Raise (if Qeq_bool (r_layer_height self) 0 then ZeroDivisionError
            else TypeError)
  /\ draw_on ShapeRectangle3D cs = Raise NotImplementedError.
Proof.
  split; [|split].
  - intros slicing_direction starting_point. unfold calc_points_layer.
    destruct (slicing_direction =? 0)%Z; cbn [orb bind].
    + unfold py_div. destruct (Qeq_bool (r_hatch_size self) 0); reflexivity.
    + destruct (slicing_direction =? 1)%Z; cbn [bind]; [|reflexivity].
      unfold py_div. destruct (Qeq_bool (r_hatch_size self) 0); reflexivity.
  - unfold slicing_layers, py_div.
    destruct (Qeq_bool (r_layer_height self) 0); reflexivity.
  - reflexivity.
Qed.

End Rectangles.

(** ** Vertical lines *)

Section VerticalLines.

Context {CoordinateSystem : Type}.

(** X10.  Lowering a vertical line never raises, for a 2D and for a 3D
    position alike: the program moves to the position at height [z_min],
    sets the gate on, moves to the same X and Y at height [z_max] and
    sets the gate off.  A Z coordinate of the position itself is
    overwritten and never reached. *)
Theorem vertical_line_lowering (cs : CoordinateSystem) (self : VerticalLine) :
  let x := pX (vl_position self) in
  let y := pY (vl_position self) in
  VerticalLine_draw_on self cs =
  OK (mkProgram cs
        [LINEAR [("X", x); ("Y", y); ("Z", z_min self)] (vl_F self) None;
         GALVO_LASER_OVERRIDE ON;
         LINEAR [("X", x); ("Y", y); ("Z", z_max self)] (vl_F self) None;
         GALVO_LASER_OVERRIDE OFF])
  /\ VerticalLine_center_point self = vl_position self.
Proof.
  destruct self as [[x y z] zmin zmax F]. cbv zeta.
  cbn [vl_position pX pY z_min z_max vl_F].
  split; [|reflexivity].
  destruct z as [z|]; reflexivity.
Qed.

End VerticalLines.

(** ** Closed instances *)

Lemma polyline_lowering_witness :
  let line := [[("X", 0); ("Y", 0)]; [("X", 1); ("Y", 2)]] in
  line <> [] /\ Forall plain_point line /\
  exists prog,
    PolyLine_draw_on (mkPolyLine line (Some 100) None) tt = OK prog /\
    move_targets (instructions prog) = line /\
    gate_trace (instructions prog) = [ON; OFF].
Proof.
  cbv zeta.
  assert (Hne : [[("X", 0); ("Y", 0)]; [("X", 1); ("Y", 2)]] <> [])
    by discriminate.
  assert (Hplain : Forall plain_point [[("X", 0); ("Y", 0)]; [("X", 1); ("Y", 2)]])
    by (repeat constructor).
  split; [exact Hne|]. split; [exact Hplain|].
  destruct (proj2 (proj2 (polyline_lowering tt _ (Some 100) None)) Hne Hplain)
    as (prog & Hprog & _ & Hmoves & Hgates).
  exists prog. repeat split; assumption.
Defined.

Lemma polylines_lowering_witness :
  let lines := [[[("X", 0); ("Y", 0)]; [("X", 1); ("Y", 2)]];
                [[("X", 5); ("Y", 5)]]] in
  Forall (fun line => line <> [] /\ Forall plain_point line) lines /\
  exists prog,
    PolyLines_draw_on (mkPolyLines lines (Some 100) None) tt = OK prog /\
    gate_trace (instructions prog) = on_off_pairs 2 /\
    move_targets (instructions prog) = List.concat lines.
Proof.
  cbv zeta.
  assert (Hlines : Forall (fun line => line <> [] /\ Forall plain_point line)
                     [[[("X", 0); ("Y", 0)]; [("X", 1); ("Y", 2)]];
                      [[("X", 5); ("Y", 5)]]]).
  { repeat constructor; discriminate. }
  split; [exact Hlines|].
  destruct (proj1 (polylines_lowering tt _ (Some 100) None) Hlines)
    as (prog & Hprog & _ & Hgates & Hmoves).
  exists prog. repeat split; assumption.
Defined.

Lemma sweep_moves_witness :
  XLines 7 8 [(0, 1); (2, 3)] 200 1000
  = OK (mkLines AxisX [(0, 1); (2, 3)] [("Y", 7); ("Z", 8)] 200 1000)
  /\ ~ 1000 == 0
  /\ exists prog,
      _Lines_draw_on
        (mkLines AxisX [(0, 1); (2, 3)] [("Y", 7); ("Z", 8)] 200 1000) tt
      = OK prog /\
      List.length (instructions prog) = 10%nat /\
      gate_trace (instructions prog) = [ON; OFF; ON; OFF] /\
      Forall (at_velocity 200) (instructions prog).
Proof.
  assert (Ha : ~ 1000 == 0) by discriminate.
  split; [reflexivity|]. split; [exact Ha|].
  destruct (sweep_moves AxisX 7 8 [(0, 1); (2, 3)] 200 1000 _ tt (0, 1)
              eq_refl Ha eq_refl)
    as (prog & sv & ev & Hprog & Hlen & Hgates & Hvel & _).
  exists prog. repeat split; assumption.
Defined.

Lemma sweep_center_point_witness :
  ~ 1000 == 0 /\
  exists start_value end_value middle,
    XLines_center_point
      (mkXLines (mkLines AxisX [(0, 1); (2, 3)] [("Y", 7); ("Z", 8)] 200 1000)
                7 8)
    = OK (Point3D middle 7 8) /\
    middle == (start_value + end_value) / 2.
Proof.
  assert (Ha : ~ 1000 == 0) by discriminate.
  split; [exact Ha|].
  destruct (proj1 (sweep_center_point tt 7 8 [(0, 1); (2, 3)] 200 1000 Ha)
              (mkXLines (mkLines AxisX [(0, 1); (2, 3)] [("Y", 7); ("Z", 8)]
                                 200 1000) 7 8) eq_refl)
    as (sv & ev & middle & _ & Hcenter & Hmid).
  exists sv, ev, middle. split; assumption.
Defined.

(** A corner whose width, height, hatch size and layer height are the
    doubles nearest to 0.05, 0.2, 0.02 and 0.04: five layers of three
    strokes. *)
Lemma corner_exposures_witness :
  let c := @Corner_init float_math_at_zero (Point2D 0 0) 10
             (3602879701896397 # 72057594037927936)
             (3602879701896397 # 18014398509481984)
             (5764607523034235 # 288230376151711744)
             (5764607523034235 # 144115188075855872) 0 None None in
  0 < c_height c
  /\ 0 < layer_height c
  /\ is_double (c_height c)
  /\ (1 <= py_round (binary64 (c_width c / hatch_size c)))%Z
  /\ Qceiling (binary64 (c_height c / layer_height c)) = 5%Z
  /\ py_round (binary64 (c_width c / hatch_size c)) = 2%Z
  /\ exists prog,
      @Corner_draw_on unit float_math_at_zero c tt = OK prog /\
      gate_trace (instructions prog) = on_off_pairs 15 /\
      List.length (instructions prog) = 90%nat.
Proof.
  intros c.
  assert (HH : 0 < c_height c) by reflexivity.
  assert (HL : 0 < layer_height c) by reflexivity.
  assert (Hd : is_double (c_height c)) by (vm_compute; reflexivity).
  assert (Hn : (1 <= py_round (binary64 (c_width c / hatch_size c)))%Z)
    by (vm_compute; discriminate).
  split; [exact HH|]. split; [exact HL|]. split; [exact Hd|].
  split; [exact Hn|].
  split; [vm_compute; reflexivity|]. split; [vm_compute; reflexivity|].
  destruct (@corner_exposures unit float_math_at_zero c tt HH HL Hd Hn)
    as (prog & Hprog & Hgates & Hlen).
  exists prog. split; [exact Hprog|]. split; [exact Hgates | exact Hlen].
Defined.

Lemma corner_rectangle_lowering_witness :
  let r := @CornerRectangle_init float_math_right_angles (Point2D 0 0)
             100 50 10 5 3 (3 # 4) (1 # 2) None None in
  py_round (binary64 (5 / (1 # 2))) <> 0%Z /\ ~ (3 # 4) == 0 /\
  exists tl tr br bl : DrawableAeroBasicProgram unit,
    @CornerRectangle_draw_on unit float_math_right_angles r tt =
    OK (mkProgram tt
          (corner_comment "Top Left" :: instructions tl
           ++ corner_comment "Top Right" :: instructions tr
           ++ corner_comment "Bottom Right" :: instructions br
           ++ corner_comment "Bottom Left" :: instructions bl)).
Proof.
  cbv zeta.
  assert (Hr : py_round (binary64 (5 / (1 # 2))) <> 0%Z)
    by (vm_compute; discriminate).
  assert (HL : ~ (3 # 4) == 0) by discriminate.
  split; [exact Hr|]. split; [exact HL|].
  destruct (proj2 (proj2 (@corner_rectangle_lowering unit
                            float_math_right_angles tt (Point2D 0 0)
                            100 50 10 5 3 (3 # 4) (1 # 2) None None)) Hr HL)
    as (tl & tr & br & bl & _ & _ & _ & _ & Hprog).
  exists tl, tr, br, bl. exact Hprog.
Defined.

Lemma points_to_cmds_lowering_witness :
  let structure := [[[[0; 0; 0]; [1; 0; 0]; [2; 0; 0]; [3; 0; 0]];
                     [[3; 1; 0]; [2; 1; 0]; [1; 1; 0]; [0; 1; 0]]]] in
  Forall (Forall drawable_line) structure /\
  exists added,
    points_to_cmds structure (new_program tt) = (mkProgram tt added, OK tt) /\
    List.length added = 12%nat /\
    gate_trace added = [ON; OFF; ON; OFF].
Proof.
  cbv zeta.
  assert (Hall : Forall (Forall drawable_line)
                   [[[[0; 0; 0]; [1; 0; 0]; [2; 0; 0]; [3; 0; 0]];
                     [[3; 1; 0]; [2; 1; 0]; [1; 1; 0]; [0; 1; 0]]]]).
  { repeat constructor.
    - exists [0; 0; 0], [1; 0; 0], [2; 0; 0], [3; 0; 0], [].
      unfold has_xyz. simpl. repeat split; lia.
    - exists [3; 1; 0], [2; 1; 0], [1; 1; 0], [0; 1; 0], [].
      unfold has_xyz. simpl. repeat split; lia. }
  split; [exact Hall|].
  destruct (points_to_cmds_lowering _ (new_program tt) Hall)
    as (Hrun & Hlen & Hgates & _).
  eexists. split; [exact Hrun|]. split; [exact Hlen | exact Hgates].
Defined.

Lemma points_to_cmds_leaves_gate_on_witness :
  has_xyz [0; 0; 0] /\ has_xyz [1; 0; 0] /\ ~ has_xyz [2; 0] /\
  exists program',
    points_to_cmds [[[[0; 0; 0]; [1; 0; 0]; [2; 0]; [3; 0; 0]]]]
                   (new_program tt)
    = (program', Raise IndexError) /\
    well_gated (instructions program') = false.
Proof.
  assert (H0 : has_xyz [0; 0; 0]) by (unfold has_xyz; simpl; lia).
  assert (H1 : has_xyz [1; 0; 0]) by (unfold has_xyz; simpl; lia).
  assert (H2 : ~ has_xyz [2; 0]) by (unfold has_xyz; simpl; lia).
  split; [exact H0|]. split; [exact H1|]. split; [exact H2|].
  destruct (points_to_cmds_leaves_gate_on [] [] [0; 0; 0] [1; 0; 0] [2; 0]
              [3; 0; 0] [] [] [] (new_program tt)
              (Forall_nil _) (Forall_nil _) H0 H1 H2 eq_refl)
    as (program' & Hrun & _ & Hgate).
  exists program'. split; [exact Hrun | exact Hgate].
Defined.


End DrawingsExtra.

(** * Further properties of the plane fit *)

Module PlaneExtra.

Import Plane PlaneSpec.
Local Open Scope R_scope.

(** ** The fields of a fitted plane *)

Lemma planefit_fields points given plane sx sy z0 :
  PlaneFit_init points given = OK plane ->
  params plane = (sx, sy, z0) ->
  points <> [] /\
  params plane =
    match given with
    | None => lstsq (map design_row points) (map target points)
    | Some p => p
    end /\
  dev plane =
    map (fun ab => dot (fst ab) (params plane) - snd ab)
        (combine (map design_row points) (map target points)) /\
  avg plane =
    sqrt (py_sum (map (fun d => d * d) (dev plane)))
    / INR (List.length (dev plane)) /\
  slope plane = np_hypot (- sx) (- sy) / 1 /\
  theta plane = np_arctan2 (np_hypot (- sx) (- sy)) 1 * 180 / PI /\
  phi plane = py_mod (np_arctan2 (- sy) (- sx) * 180 / PI) 360 - 180.
Proof.
  unfold PlaneFit_init. destruct points as [|pt rest]; [discriminate|].
  set (p := match given with None => _ | Some p => p end).
  destruct p as [[sx' sy'] z0'] eqn:Hp.
  rewrite normal_of_params. intros [= <-]. cbn [params dev avg slope theta phi].
  intros [= -> -> ->]. repeat split. discriminate.
Qed.

Lemma dev_length points given plane :
  PlaneFit_init points given = OK plane ->
  List.length (dev plane) = List.length points.
Proof.
  intros Hfit. destruct (params plane) as [[sx sy] z0] eqn:Hp.
  destruct (planefit_fields _ _ _ _ _ _ Hfit Hp) as (_ & _ & -> & _).
  rewrite length_map, length_combine, !length_map. apply Nat.min_id.
Qed.

(** ** Polar coordinates *)

Lemma hypot_factor x t : 0 <= x -> sqrt (x * x + (x * t) * (x * t)) = x * sqrt (1 + t²).
Proof.
  intros Hx. replace (x * x + x * t * (x * t)) with ((x * x) * (1 + t²))
    by (unfold Rsqr; ring).
  rewrite sqrt_mult_alt by nra. rewrite sqrt_square by exact Hx. reflexivity.
Qed.

Lemma sqrt_one_plus_sqr_pos t : 0 < sqrt (1 + t²).
Proof. apply sqrt_lt_R0. pose proof (Rle_0_sqr t). lra. Qed.

Lemma cos_minus_PI a : cos (a - PI) = - cos a.
Proof. rewrite cos_minus, cos_PI, sin_PI. ring. Qed.

Lemma sin_minus_PI a : sin (a - PI) = - sin a.
Proof. rewrite sin_minus, cos_PI, sin_PI. ring. Qed.

(** [np.hypot(x, y)] and [np.arctan2(y, x)] are the polar coordinates of
    [(x, y)]. *)
Lemma hypot_arctan2_polar x y :
  np_hypot x y * cos (np_arctan2 y x) = x /\
  np_hypot x y * sin (np_arctan2 y x) = y.
Proof.
  unfold np_hypot, np_arctan2.
  destruct (Rlt_dec 0 x) as [Hpos|Hnpos].
  - pose proof (sqrt_one_plus_sqr_pos (y / x)) as Hs.
    replace (y * y) with ((x * (y / x)) * (x * (y / x))) by (field; lra).
    rewrite hypot_factor by lra. rewrite cos_atan, sin_atan.
    split; field; lra.
  - destruct (Rlt_dec x 0) as [Hneg|Hnneg].
    + pose proof (sqrt_one_plus_sqr_pos (y / x)) as Hs.
      assert (Hh : sqrt (x * x + y * y) = - x * sqrt (1 + (y / x)²)).
      { replace (x * x) with ((- x) * (- x)) by ring.
        replace (y * y) with ((- x * (- (y / x))) * (- x * (- (y / x))))
          by (field; lra).
        rewrite hypot_factor by lra. rewrite <- Rsqr_neg. reflexivity. }
      rewrite Hh.
      destruct (Rle_dec 0 y).
      * rewrite neg_cos, neg_sin, cos_atan, sin_atan. split; field; lra.
      * rewrite cos_minus_PI, sin_minus_PI, cos_atan, sin_atan.
        split; field; lra.
    + assert (Hx : x = 0) by lra. subst x.
      replace (0 * 0 + y * y) with (y * y) by ring.
      destruct (Rlt_dec 0 y) as [Hy|Hy].
      * rewrite sqrt_square by lra. rewrite cos_PI2, sin_PI2. split; ring.
      * destruct (Rlt_dec y 0) as [Hy'|Hy'].
        -- replace (y * y) with ((- y) * (- y)) by ring.
           rewrite sqrt_square by lra.
           replace (- PI / 2) with (- (PI / 2)) by field.
           rewrite cos_neg, sin_neg, cos_PI2, sin_PI2. split; ring.
        -- assert (Hy0 : y = 0) by lra. subst y.
           rewrite Rmult_0_l, sqrt_0. split; ring.
Qed.

Lemma cos_period_Z x k : cos (x + 2 * IZR k * PI) = cos x.
Proof.
  destruct (Z_le_gt_dec 0 k) as [Hk|Hk].
  - rewrite <- (Z2Nat.id k Hk), <- INR_IZR_INZ. apply cos_period.
  - rewrite <- (cos_period (x + 2 * IZR k * PI) (Z.to_nat (- k))).
    rewrite INR_IZR_INZ, Z2Nat.id by lia. rewrite opp_IZR.
    f_equal. ring.
Qed.

Lemma sin_period_Z x k : sin (x + 2 * IZR k * PI) = sin x.
Proof.
  destruct (Z_le_gt_dec 0 k) as [Hk|Hk].
  - rewrite <- (Z2Nat.id k Hk), <- INR_IZR_INZ. apply sin_period.
  - rewrite <- (sin_period (x + 2 * IZR k * PI) (Z.to_nat (- k))).
    rewrite INR_IZR_INZ, Z2Nat.id by lia. rewrite opp_IZR.
    f_equal. ring.
Qed.

(** The angle [(degrees(a) % 360) - 180] is [a] turned by half a turn. *)
Lemma half_turn a :
  let shifted := (py_mod (a * 180 / PI) 360 - 180) * PI / 180 in
  cos shifted = - cos a /\ sin shifted = - sin a.
Proof.
  cbv zeta. unfold py_mod.
  set (k := Int_part (a * 180 / PI / 360)).
  replace ((a * 180 / PI - 360 * IZR k - 180) * PI / 180)
    with ((a - PI) + 2 * IZR (- k) * PI)
    by (rewrite opp_IZR; field; apply PI_neq0).
  rewrite cos_period_Z, sin_period_Z, cos_minus_PI, sin_minus_PI.
  split; reflexivity.
Qed.

(** X13.  The slope of a fitted plane [z = sx x + sy y + z0] is the
    length of its gradient [(sx, sy)] and the polar angle is the
    arctangent of the slope in degrees: it lies in [[0, 90)] and is 0
    exactly for a horizontal plane. *)
Theorem planefit_polar_angle points given plane sx sy z0 :
  PlaneFit_init points given = OK plane ->
  params plane = (sx, sy, z0) ->
  slope plane = sqrt (sx * sx + sy * sy) /\
  theta plane = atan (slope plane) * 180 / PI /\
  0 <= theta plane < 90 /\
  (theta plane = 0 <-> sx = 0 /\ sy = 0).
Proof.
  intros Hfit Hp.
  destruct (planefit_fields _ _ _ _ _ _ Hfit Hp)
    as (_ & _ & _ & _ & Hslope & Htheta & _).
  assert (Hs : slope plane = sqrt (sx * sx + sy * sy)).
  { rewrite Hslope. unfold np_hypot.
    replace (- sx * - sx + - sy * - sy) with (sx * sx + sy * sy) by ring.
    field. }
  assert (Ht : theta plane = atan (slope plane) * 180 / PI).
  { rewrite Htheta, Hslope. unfold np_arctan2.
    destruct (Rlt_dec 0 1); [reflexivity | lra]. }
  assert (Hs0 : 0 <= slope plane) by (rewrite Hs; apply sqrt_pos).
  pose proof PI_RGT_0 as Hpi.
  pose proof (atan_bound (slope plane)) as [_ Hhi].
  assert (Ha0 : 0 <= atan (slope plane)).
  { destruct Hs0 as [Hlt| <-]; [|rewrite atan_0; lra].
    apply atan_increasing in Hlt. rewrite atan_0 in Hlt. lra. }
  split; [exact Hs|]. split; [exact Ht|]. split.
  - rewrite Ht. split.
    + apply Rmult_le_pos; [nra | apply Rlt_le, Rinv_0_lt_compat; exact Hpi].
    + apply (Rmult_lt_reg_r PI); [exact Hpi|].
      replace (atan (slope plane) * 180 / PI * PI)
        with (atan (slope plane) * 180) by (field; lra).
      lra.
  - rewrite Ht. split.
    + intros H0.
      assert (Hat : atan (slope plane) = 0).
      { apply (Rmult_eq_reg_r (180 / PI)); [|apply Rgt_not_eq;
          apply Rdiv_lt_0_compat; lra].
        rewrite Rmult_0_l. rewrite <- H0. field. lra. }
      assert (Hz : slope plane = 0).
      { destruct Hs0 as [Hlt|Heq]; [|symmetry; exact Heq].
        apply atan_increasing in Hlt. rewrite atan_0 in Hlt. lra. }
      rewrite Hs in Hz. apply sqrt_eq_0 in Hz; [|nra]. split; nra.
    + intros [-> ->]. rewrite Hs.
      replace (0 * 0 + 0 * 0) with 0 by ring.
      rewrite sqrt_0, atan_0. field. lra.
Qed.

(** X14.  The azimuth of a fitted plane lies in [[-180, 180)], and slope
    and azimuth are the polar coordinates of the gradient [(sx, sy)]:
    the azimuth is the direction in which the plane rises, opposite to
    the lateral direction [(-sx, -sy)] of the surface normal computed
    from the cross product. *)
Theorem planefit_azimuth_uphill points given plane sx sy z0 :
  PlaneFit_init points given = OK plane ->
  params plane = (sx, sy, z0) ->
  -180 <= phi plane < 180 /\
  slope plane * cos (phi plane * PI / 180) = sx /\
  slope plane * sin (phi plane * PI / 180) = sy.
Proof.
  intros Hfit Hp.
  destruct (planefit_fields _ _ _ _ _ _ Hfit Hp)
    as (_ & _ & _ & _ & Hslope & _ & Hphi).
  split.
  - rewrite Hphi.
    pose proof (py_mod_range (np_arctan2 (- sy) (- sx) * 180 / PI) 360) as Hr.
    lra.
  - destruct (half_turn (np_arctan2 (- sy) (- sx))) as [Hc Hsn].
    destruct (hypot_arctan2_polar (- sx) (- sy)) as [Hx Hy].
    rewrite Hphi, Hc, Hsn, Hslope. split.
    + transitivity (- (np_hypot (- sx) (- sy) * cos (np_arctan2 (- sy) (- sx))));
        [field | rewrite Hx; ring].
    + transitivity (- (np_hypot (- sx) (- sy) * sin (np_arctan2 (- sy) (- sx))));
        [field | rewrite Hy; ring].
Qed.

(** ** Deviations *)

Lemma fold_left_Rplus l a : fold_left Rplus l a = a + fold_left Rplus l 0.
Proof.
  revert a. induction l as [|x l IH]; intros a; simpl; [ring|].
  rewrite (IH (a + x)), (IH (0 + x)). ring.
Qed.

Lemma py_sum_cons x l : py_sum (x :: l) = x + py_sum l.
Proof. unfold py_sum. simpl. rewrite fold_left_Rplus. ring. Qed.

Lemma py_sum_nil : py_sum [] = 0.
Proof. reflexivity. Qed.

Lemma py_sum_squares_nonneg l : 0 <= py_sum (map (fun d => d * d) l).
Proof.
  induction l as [|d l IH]; simpl; [rewrite py_sum_nil; lra|].
  rewrite py_sum_cons. nra.
Qed.

Lemma py_sum_squares_zero_inv l :
  py_sum (map (fun d => d * d) l) = 0 -> Forall (fun d => d = 0) l.
Proof.
  induction l as [|d l IH]; simpl; [constructor|].
  rewrite py_sum_cons. intros Hs.
  pose proof (py_sum_squares_nonneg l) as Hl.
  constructor; [nra | apply IH; nra].
Qed.

Lemma py_sum_squares_bound m l :
  Forall (fun d => Rabs d <= m) l ->
  py_sum (map (fun d => d * d) l) <= INR (List.length l) * (m * m).
Proof.
  induction 1 as [|d l Hd _ IH].
  - simpl. rewrite py_sum_nil. lra.
  - cbn [map List.length]. rewrite py_sum_cons, S_INR.
    assert (d * d <= m * m).
    { rewrite <- (Rabs_mult d d) at 1 || idtac.
      replace (d * d) with (Rabs d * Rabs d)
        by (rewrite <- Rabs_mult; apply Rabs_pos_eq; nra).
      pose proof (Rabs_pos d). nra. }
    lra.
Qed.

Lemma fold_left_Rmax_bounds l x :
  x <= fold_left Rmax l x /\ Forall (fun d => d <= fold_left Rmax l x) l.
Proof.
  revert x. induction l as [|d l IH]; intros x; simpl.
  - split; [lra | constructor].
  - destruct (IH (Rmax x d)) as [Hx Hl]. split.
    + pose proof (Rmax_l x d). lra.
    + constructor; [pose proof (Rmax_r x d); lra | exact Hl].
Qed.

Lemma fold_left_Rmax_in l x :
  fold_left Rmax l x = x \/ In (fold_left Rmax l x) l.
Proof.
  revert x. induction l as [|d l IH]; intros x; simpl; [left; reflexivity|].
  destruct (IH (Rmax x d)) as [Heq|Hin]; [|right; right; exact Hin].
  rewrite Heq. unfold Rmax. destruct (Rle_dec x d); [right; left|left];
    reflexivity.
Qed.

(** [np.max(np.abs(v))] of a non-empty vector: the largest absolute
    value. *)
Lemma np_max_abs l :
  l <> [] ->
  exists m, np_max (map Rabs l) = OK m /\ 0 <= m /\
            Forall (fun d => Rabs d <= m) l /\
            Exists (fun d => Rabs d = m) l.
Proof.
  destruct l as [|d l]; [contradiction|]. intros _. cbn [map np_max].
  eexists. split; [reflexivity|].
  destruct (fold_left_Rmax_bounds (map Rabs l) (Rabs d)) as [Hx Hl].
  split; [pose proof (Rabs_pos d); lra|]. split.
  - constructor; [exact Hx|]. rewrite Forall_map in Hl. exact Hl.
  - destruct (fold_left_Rmax_in (map Rabs l) (Rabs d)) as [Heq|Hin].
    + left. symmetry. exact Heq.
    + right. apply in_map_iff in Hin. destruct Hin as (d' & Hd' & Hin).
      apply Exists_exists. exists d'. split; assumption.
Qed.

Lemma dev_zero_on_plane p points :
  Forall (fun d => d = 0)
    (map (fun ab => dot (fst ab) p - snd ab)
         (combine (map design_row points) (map target points)))
  -> on_plane p points.
Proof.
  induction points as [|pt points IH]; intros Hall point Hin; [contradiction|].
  cbn [map combine] in Hall. inversion Hall as [|? ? Hd Hrest]; subst.
  destruct Hin as [<-|Hin].
  - cbn [fst snd] in Hd. lra.
  - apply IH; assumption.
Qed.

Lemma residual2_dev A b p :
  residual2 A b p
  = py_sum (map (fun d => d * d)
              (map (fun ab => dot (fst ab) p - snd ab) (combine A b))).
Proof.
  revert b. induction A as [|a A IH]; intros [|z b]; try reflexivity.
  cbn [residual2 combine map fst snd]. rewrite py_sum_cons, IH. reflexivity.
Qed.

Lemma atb_dev points p :
  atb (map design_row points)
      (map (fun ab => dot (fst ab) p - snd ab)
           (combine (map design_row points) (map target points)))
  = vsub (mat_vec (gram (map design_row points)) p)
         (atb (map design_row points) (map target points)).
Proof.
  rewrite <- atb_of_plane.
  induction points as [|[[x y] z] points IH]; [simpl; apply vec3_eq; ring|].
  cbn [map combine fst snd design_row target atb]. rewrite IH.
  destruct (atb (map design_row points) (map _ (map design_row points)))
    as [[c1 c2] c3].
  destruct (atb (map design_row points) (map target points)) as [[e1 e2] e3].
  simpl. apply vec3_eq; ring.
Qed.

(** [A^T d] by its three sums. *)
Lemma atb_sums points ds :
  List.length ds = List.length points ->
  atb (map design_row points) ds =
  (py_sum (map (fun pd => fst (fst (fst pd)) * snd pd) (combine points ds)),
   py_sum (map (fun pd => snd (fst (fst pd)) * snd pd) (combine points ds)),
   py_sum ds).
Proof.
  revert ds. induction points as [|[[x y] z] points IH]; intros [|d ds] Hlen;
    try discriminate; [reflexivity|].
  cbn [map combine design_row atb fst snd].
  rewrite IH by (simpl in Hlen; lia). rewrite !py_sum_cons.
  apply vec3_eq; ring.
Qed.

(** The fields of the fit, for the theorems below. *)
Lemma planefit_dev points given plane :
  PlaneFit_init points given = OK plane ->
  points <> [] /\
  params plane =
    match given with
    | None => lstsq (map design_row points) (map target points)
    | Some p => p
    end /\
  dev plane =
    map (fun ab => dot (fst ab) (params plane) - snd ab)
        (combine (map design_row points) (map target points)) /\
  avg plane =
    sqrt (py_sum (map (fun d => d * d) (dev plane)))
    / INR (List.length points).
Proof.
  intros Hfit. destruct (params plane) as [[sx sy] z0] eqn:Hp.
  destruct (planefit_fields _ _ _ _ _ _ Hfit Hp) as (Hne & Hpar & Hdev & Havg & _).
  rewrite <- Hp. rewrite (dev_length _ _ _ Hfit) in Havg. auto.
Qed.

Lemma INR_length_pos {A : Type} (l : list A) : l <> [] -> 0 < INR (List.length l).
Proof.
  destruct l; [contradiction|]. intros _. cbn [List.length].
  rewrite S_INR. pose proof (pos_INR (List.length l)). lra.
Qed.

(** X15.  For every fitted plane [max_dev] returns the largest absolute
    deviation, which one of the samples attains, and the average
    deviation [sqrt(sum(dev^2)) / n] is non-negative and at most
    [max_dev / sqrt(n)], hence at most [max_dev]; the deviations are the
    fitted minus the measured heights, in sample order. *)
Theorem planefit_deviation_bounds points given plane :
  PlaneFit_init points given = OK plane ->
  exists m,
    dev plane =
      map (fun point => getz plane (fst (fst point)) (snd (fst point))
                        - snd point) points /\
    max_dev plane = OK m /\
    Forall (fun d => Rabs d <= m) (dev plane) /\
    Exists (fun d => Rabs d = m) (dev plane) /\
    0 <= avg plane /\
    avg plane * sqrt (INR (List.length points)) <= m /\
    avg plane <= m.
Proof.
  intros Hfit. destruct (planefit_dev _ _ _ Hfit) as (Hne & Hpar & Hdev & Havg).
  pose proof (dev_length _ _ _ Hfit) as Hlen.
  pose proof (INR_length_pos points Hne) as Hn.
  assert (Hdne : dev plane <> []).
  { intros Hnil. rewrite Hnil in Hlen. destruct points; [contradiction|].
    discriminate. }
  destruct (np_max_abs (dev plane) Hdne) as (m & Hmax & Hm & Hall & Hex).
  exists m. unfold max_dev. split.
  { rewrite Hdev. clear. induction points as [|[[x y] z] points IH];
      [reflexivity|].
    cbn [map combine fst snd design_row target]. rewrite IH.
    apply (f_equal (fun d => d :: _)). unfold getz, getz_params.
    destruct (params plane) as [[sx sy] z0]. simpl. ring. }
  split; [exact Hmax|]. split; [exact Hall|].
  split; [exact Hex|].
  pose proof (py_sum_squares_bound m (dev plane) Hall) as Hbound.
  rewrite Hlen in Hbound.
  set (S := py_sum (map (fun d => d * d) (dev plane))) in *.
  set (n := INR (List.length points)) in *.
  assert (HS : sqrt S <= sqrt n * m).
  { apply Rle_trans with (sqrt (n * (m * m)));
      [apply sqrt_le_1_alt; exact Hbound|].
    rewrite sqrt_mult_alt by lra. rewrite sqrt_square by exact Hm. lra. }
  pose proof (sqrt_pos S) as HS0.
  assert (Hsn : 0 < sqrt n) by (apply sqrt_lt_R0; exact Hn).
  assert (Hnn : sqrt n * sqrt n = n) by (apply sqrt_sqrt; lra).
  assert (Hscaled : avg plane * sqrt n <= m).
  { rewrite Havg.
    replace (sqrt S / n * sqrt n) with (sqrt S / sqrt n).
    - apply (Rmult_le_reg_r (sqrt n)); [exact Hsn|].
      replace (sqrt S / sqrt n * sqrt n) with (sqrt S) by (field; lra). lra.
    - rewrite <- Hnn at 2. field. lra. }
  assert (Havg0 : 0 <= avg plane).
  { rewrite Havg. apply Rmult_le_pos; [exact HS0|].
    apply Rlt_le, Rinv_0_lt_compat. exact Hn. }
  split; [exact Havg0|]. split; [exact Hscaled|].
  assert (H1 : 1 <= sqrt n).
  { rewrite <- sqrt_1. apply sqrt_le_1_alt. unfold n.
    destruct points; [contradiction|]. cbn [List.length]. rewrite S_INR.
    pose proof (pos_INR (List.length points)). lra. }
  nra.
Qed.

(** X16.  The deviations of a least-squares fit are orthogonal to the
    three columns of the design matrix: the signed deviations sum to 0,
    and so do the deviations weighted by the x and by the y positions of
    their samples. *)
Theorem planefit_residuals_orthogonal points plane :
  PlaneFit_init points None = OK plane ->
  py_sum (dev plane) = 0 /\
  py_sum (map (fun pd => fst (fst (fst pd)) * snd pd)
              (combine points (dev plane))) = 0 /\
  py_sum (map (fun pd => snd (fst (fst pd)) * snd pd)
              (combine points (dev plane))) = 0.
Proof.
  intros Hfit. destruct (planefit_dev _ _ _ Hfit) as (_ & Hpar & Hdev & _).
  pose proof (atb_sums points (dev plane) (dev_length _ _ _ Hfit)) as Hsums.
  rewrite Hdev in Hsums at 1.
  rewrite atb_dev, Hpar, lstsq_normal_equations in Hsums.
  destruct (atb _ _) as [[c1 c2] c3]. simpl in Hsums.
  injection Hsums as H1 H2 H3. repeat split; lra.
Qed.

(** X17.  A plane fit with given parameters keeps those parameters, and
    its sum of squared deviations and its average deviation are never
    below those of the least-squares fit of the same samples. *)
Theorem planefit_least_squares points p fitted other :
  PlaneFit_init points None = OK fitted ->
  PlaneFit_init points (Some p) = OK other ->
  params other = p /\
  py_sum (map (fun d => d * d) (dev fitted))
    <= py_sum (map (fun d => d * d) (dev other)) /\
  avg fitted <= avg other.
Proof.
  intros Hfit Hother.
  destruct (planefit_dev _ _ _ Hfit) as (Hne & Hpar & Hdev & Havg).
  destruct (planefit_dev _ _ _ Hother) as (_ & Hpar' & Hdev' & Havg').
  split; [exact Hpar'|].
  assert (Hle : py_sum (map (fun d => d * d) (dev fitted))
                <= py_sum (map (fun d => d * d) (dev other))).
  { rewrite Hdev, Hdev', <- !residual2_dev, Hpar.
    apply lstsq_minimum_norm_least_squares. rewrite !length_map. reflexivity. }
  split; [exact Hle|].
  rewrite Havg, Havg'. pose proof (INR_length_pos points Hne) as Hn.
  apply Rmult_le_compat_r; [apply Rlt_le, Rinv_0_lt_compat; exact Hn|].
  apply sqrt_le_1_alt. exact Hle.
Qed.

(** X18.  The average deviation of a fitted plane is 0 exactly when
    every sample lies on the plane, and so is the maximum deviation. *)
Theorem planefit_exact points given plane :
  PlaneFit_init points given = OK plane ->
  (avg plane = 0 <-> on_plane (params plane) points) /\
  (max_dev plane = OK 0 <-> on_plane (params plane) points).
Proof.
  intros Hfit. destruct (planefit_dev _ _ _ Hfit) as (Hne & Hpar & Hdev & Havg).
  pose proof (INR_length_pos points Hne) as Hn.
  assert (Hzero : on_plane (params plane) points ->
                  Forall (fun d => d = 0) (dev plane)).
  { intros Hon. rewrite Hdev. apply deviations_zero. exact Hon. }
  assert (Hdne : dev plane <> []).
  { pose proof (dev_length _ _ _ Hfit) as Hlen. intros Hnil.
    rewrite Hnil in Hlen. destruct points; [contradiction | discriminate]. }
  split; split.
  - intros H0. apply dev_zero_on_plane. rewrite <- Hdev.
    apply py_sum_squares_zero_inv.
    apply sqrt_eq_0; [apply py_sum_squares_nonneg|].
    rewrite Havg in H0.
    apply (Rmult_eq_reg_r (/ INR (List.length points)));
      [|apply Rgt_not_eq, Rinv_0_lt_compat; exact Hn].
    rewrite Rmult_0_l. exact H0.
  - intros Hon. rewrite Havg, (py_sum_squares_zero _ (Hzero Hon)), sqrt_0.
    field. lra.
  - intros Hmax. apply dev_zero_on_plane. rewrite <- Hdev.
    destruct (np_max_abs (dev plane) Hdne) as (m & Hm & _ & Hall & _).
    unfold max_dev in Hmax. rewrite Hm in Hmax. injection Hmax as ->.
    eapply Forall_impl; [|exact Hall]. cbv beta. intros d Hd.
    unfold Rabs in Hd. destruct (Rcase_abs d); lra.
  - intros Hon. unfold max_dev.
    apply np_max_abs_zero; [exact Hdne | apply Hzero; exact Hon].
Qed.

(** ** Order of the samples *)

Lemma gram_permutation points points' :
  Permutation points points' ->
  gram (map design_row points) = gram (map design_row points').
Proof.
  induction 1 as [|pt l l' _ IH|p q l|l l' l'' _ IH1 _ IH2].
  - reflexivity.
  - cbn [map gram]. rewrite IH. reflexivity.
  - cbn [map gram]. destruct (design_row p) as [[a1 a2] a3].
    destruct (design_row q) as [[b1 b2] b3].
    destruct (gram (map design_row l))
      as [[[[n11 n12] n13] [[n21 n22] n23]] [[n31 n32] n33]].
    apply f_equal2; [apply f_equal2|]; apply vec3_eq; ring.
  - rewrite IH1. exact IH2.
Qed.

Lemma atb_permutation points points' :
  Permutation points points' ->
  atb (map design_row points) (map target points)
  = atb (map design_row points') (map target points').
Proof.
  induction 1 as [|pt l l' _ IH|p q l|l l' l'' _ IH1 _ IH2].
  - reflexivity.
  - cbn [map atb]. rewrite IH. reflexivity.
  - cbn [map atb]. destruct (design_row p) as [[a1 a2] a3].
    destruct (design_row q) as [[b1 b2] b3].
    destruct (atb (map design_row l) (map target l)) as [[c1 c2] c3].
    apply vec3_eq; ring.
  - rewrite IH1. exact IH2.
Qed.

Lemma residual2_permutation points points' p :
  Permutation points points' ->
  residual2 (map design_row points) (map target points) p
  = residual2 (map design_row points') (map target points') p.
Proof.
  induction 1 as [|pt l l' _ IH|a b l|l l' l'' _ IH1 _ IH2].
  - reflexivity.
  - cbn [map residual2]. rewrite IH. reflexivity.
  - cbn [map residual2]. ring.
  - rewrite IH1. exact IH2.
Qed.

Lemma lstsq_permutation points points' :
  Permutation points points' ->
  lstsq (map design_row points) (map target points)
  = lstsq (map design_row points') (map target points').
Proof.
  intros Hperm. unfold lstsq.
  rewrite (gram_permutation _ _ Hperm), (atb_permutation _ _ Hperm).
  reflexivity.
Qed.

Lemma fold_left_Rmax_comm l x y :
  fold_left Rmax l (Rmax x y) = Rmax x (fold_left Rmax l y).
Proof.
  revert y. induction l as [|v l IH]; intros y; cbn [fold_left]; [reflexivity|].
  rewrite <- IH. f_equal. rewrite !Rmax_assoc. reflexivity.
Qed.

Lemma np_max_permutation l l' :
  Permutation l l' -> np_max l = np_max l'.
Proof.
  induction 1 as [|x l l' Hp IH|x y l|l l' l'' _ IH1 _ IH2].
  - reflexivity.
  - cbn [np_max]. f_equal. clear IH.
    revert x. induction Hp as [|v l l' _ IH|u v l|l l' l'' _ IH1 _ IH2];
      intros x; cbn [fold_left].
    + reflexivity.
    + apply IH.
    + f_equal. rewrite <- !Rmax_assoc. f_equal. apply Rmax_comm.
    + rewrite IH1. apply IH2.
  - cbn [np_max fold_left]. f_equal. f_equal. apply Rmax_comm.
  - rewrite IH1. exact IH2.
Qed.

(** X19.  The fit does not depend on the order of the samples: fitting a
    permutation of the samples gives the same parameters, hence the same
    slope and angles, the same average and maximum deviation, and the
    deviations permuted alike. *)
Theorem planefit_order_independent points points' given plane plane' :
  Permutation points points' ->
  PlaneFit_init points given = OK plane ->
  PlaneFit_init points' given = OK plane' ->
  params plane' = params plane /\
  slope plane' = slope plane /\
  theta plane' = theta plane /\
  phi plane' = phi plane /\
  avg plane' = avg plane /\
  max_dev plane' = max_dev plane /\
  Permutation (dev plane) (dev plane').
Proof.
  intros Hperm Hfit Hfit'.
  destruct (planefit_dev _ _ _ Hfit) as (Hne & Hpar & Hdev & Havg).
  destruct (planefit_dev _ _ _ Hfit') as (Hne' & Hpar' & Hdev' & Havg').
  assert (Hp : params plane' = params plane).
  { rewrite Hpar, Hpar'. destruct given as [p|]; [reflexivity|].
    symmetry. apply lstsq_permutation. exact Hperm. }
  destruct (params plane) as [[sx sy] z0] eqn:Hparams.
  destruct (planefit_fields _ _ _ _ _ _ Hfit Hparams)
    as (_ & _ & _ & _ & Hs & Ht & Hphi).
  destruct (planefit_fields _ _ _ _ _ _ Hfit' Hp)
    as (_ & _ & _ & _ & Hs' & Ht' & Hphi').
  assert (Hdevs : Permutation (dev plane) (dev plane')).
  { rewrite Hdev, Hdev', Hp. clear -Hperm.
    induction Hperm as [|pt l l' _ IH|a b l|l l' l'' _ IH1 _ IH2].
    - constructor.
    - cbn [map combine]. constructor. exact IH.
    - cbn [map combine]. apply perm_swap.
    - eapply perm_trans; eassumption. }
  split; [exact Hp|]. split; [congruence|]. split; [congruence|].
  split; [congruence|]. split; [|split; [|exact Hdevs]].
  - rewrite Havg, Havg', Hdev, Hdev', <- !residual2_dev, Hp.
    rewrite (residual2_permutation _ _ _ Hperm).
    rewrite (Permutation_length Hperm). reflexivity.
  - unfold max_dev. symmetry. apply np_max_permutation.
    apply Permutation_map. exact Hdevs.
Qed.

(** ** Tilting the samples *)

Lemma design_tilted q points :
  map design_row (tilted q points) = map design_row points.
Proof.
  unfold tilted. rewrite map_map. apply map_ext. intros [[x y] z]. reflexivity.
Qed.

Lemma atb_tilted q points :
  atb (map design_row points) (map target (tilted q points))
  = vadd3 (atb (map design_row points) (map target points))
          (mat_vec (gram (map design_row points)) q).
Proof.
  rewrite <- atb_of_plane. unfold tilted. rewrite map_map. cbn [target].
  induction points as [|[[x y] z] points IH];
    [unfold vadd3; simpl; apply vec3_eq; ring|].
  cbn [map atb design_row]. rewrite IH.
  destruct (atb (map design_row points) (map target points)) as [[c1 c2] c3].
  destruct (atb (map design_row points) (map _ (map design_row points)))
    as [[e1 e2] e3].
  destruct q as [[q1 q2] q3]. unfold vadd3. simpl. apply vec3_eq; ring.
Qed.

(** Regular normal equations have one solution. *)
Lemma lstsq_unique A b x :
  det (gram A) <> 0 -> mat_vec (gram A) x = atb A b -> lstsq A b = x.
Proof.
  intros Hdet Hx. unfold lstsq.
  destruct (Req_dec_T (det (gram A)) 0) as [E|_]; [contradiction|].
  rewrite <- Hx, adjugate_mul.
  destruct x as [[x1 x2] x3]. simpl. apply vec3_eq; field; exact Hdet.
Qed.

Lemma mat_vec_vadd3 N u v :
  mat_vec N (vadd3 u v) = vadd3 (mat_vec N u) (mat_vec N v).
Proof.
  destruct N as [[[[a11 a12] a13] [[a21 a22] a23]] [[a31 a32] a33]].
  destruct u as [[u1 u2] u3], v as [[v1 v2] v3]. unfold vadd3. simpl.
  apply vec3_eq; ring.
Qed.

Lemma non_collinear_tilted q points :
  non_collinear points -> non_collinear (tilted q points).
Proof.
  intros (p1 & p2 & p3 & H1 & H2 & H3 & Hdet).
  set (f := fun point : vec3 =>
              (fst (fst point), snd (fst point),
               snd point + dot (design_row point) q)).
  exists (f p1), (f p2), (f p3).
  repeat split; try (apply in_map; assumption).
  destruct p1 as [[x1 y1] z1], p2 as [[x2 y2] z2], p3 as [[x3 y3] z3].
  exact Hdet.
Qed.

(** X20.  For samples of which three are not collinear the fit follows
    a tilt of the data: adding a plane [q] to the heights of all samples
    adds [q] to the fitted parameters and leaves every deviation, and so
    the average and the maximum deviation, unchanged. *)
Theorem planefit_tilt_equivariant q points plane plane' :
  non_collinear points ->
  PlaneFit_init points None = OK plane ->
  PlaneFit_init (tilted q points) None = OK plane' ->
  params plane' = vadd3 (params plane) q /\
  dev plane' = dev plane /\
  avg plane' = avg plane /\
  max_dev plane' = max_dev plane.
Proof.
  intros Hnc Hfit Hfit'.
  destruct (planefit_dev _ _ _ Hfit) as (Hne & Hpar & Hdev & Havg).
  destruct (planefit_dev _ _ _ Hfit') as (Hne' & Hpar' & Hdev' & Havg').
  pose proof (gram_regular _ Hnc) as Hdet.
  assert (Hp : params plane' = vadd3 (params plane) q).
  { rewrite Hpar'. rewrite design_tilted. apply lstsq_unique; [exact Hdet|].
    rewrite atb_tilted, mat_vec_vadd3, Hpar, lstsq_normal_equations.
    reflexivity. }
  assert (Hd : dev plane' = dev plane).
  { rewrite Hdev', Hdev, Hp, design_tilted. unfold tilted. rewrite map_map.
    cbn [target].
    clear. induction points as [|[[x y] z] points IH]; [reflexivity|].
    cbn [map combine design_row]. rewrite IH.
    apply (f_equal (fun d => d :: _)).
    destruct (params plane) as [[sx sy] z0], q as [[q1 q2] q3].
    unfold vadd3. simpl. ring. }
  split; [exact Hp|]. split; [exact Hd|]. split.
  - rewrite Havg', Havg, Hd. unfold tilted. rewrite length_map. reflexivity.
  - unfold max_dev. rewrite Hd. reflexivity.
Qed.

(** ** Closed instances *)

Lemma planefit_returns_given (points : list vec3) (p : vec3) :
  points <> [] ->
  exists plane, PlaneFit_init points (Some p) = OK plane /\ params plane = p.
Proof.
  intros Hne. unfold PlaneFit_init. destruct points as [|pt rest]; [contradiction|].
  destruct (cross _ _) as [[nx ny] nz].
  eexists. split; reflexivity.
Qed.

Lemma planefit_polar_angle_witness :
  exists plane,
    PlaneFit_init [(0, 0, 0); (2, 0, 1)] (Some (3, 4, 0)) = OK plane /\
    params plane = (3, 4, 0) /\
    slope plane = sqrt (3 * 3 + 4 * 4) /\
    0 <= theta plane < 90.
Proof.
  destruct (planefit_returns_given [(0, 0, 0); (2, 0, 1)] (3, 4, 0))
    as (plane & Hfit & Hp); [discriminate|].
  exists plane. split; [exact Hfit|]. split; [exact Hp|].
  destruct (planefit_polar_angle _ _ _ _ _ _ Hfit Hp) as (Hs & _ & Ht & _).
  split; [exact Hs | exact Ht].
Defined.

Lemma planefit_azimuth_uphill_witness :
  exists plane,
    PlaneFit_init [(0, 0, 0); (2, 0, 1)] (Some (3, 4, 0)) = OK plane /\
    params plane = (3, 4, 0) /\
    slope plane * cos (phi plane * PI / 180) = 3 /\
    slope plane * sin (phi plane * PI / 180) = 4.
Proof.
  destruct (planefit_returns_given [(0, 0, 0); (2, 0, 1)] (3, 4, 0))
    as (plane & Hfit & Hp); [discriminate|].
  exists plane. split; [exact Hfit|]. split; [exact Hp|].
  exact (proj2 (planefit_azimuth_uphill _ _ _ _ _ _ Hfit Hp)).
Defined.

Lemma planefit_deviation_bounds_witness :
  exists plane m,
    PlaneFit_init [(0, 0, 0); (1, 0, 1); (2, 0, 1)] None = OK plane /\
    max_dev plane = OK m /\
    0 <= avg plane <= m.
Proof.
  destruct (planefit_returns [(0, 0, 0); (1, 0, 1); (2, 0, 1)])
    as (plane & Hfit & _); [discriminate|].
  destruct (planefit_deviation_bounds _ _ _ Hfit)
    as (m & _ & Hmax & _ & _ & H0 & _ & Hm).
  exists plane, m. split; [exact Hfit|]. split; [exact Hmax|].
  split; [exact H0 | exact Hm].
Defined.

Lemma planefit_residuals_orthogonal_witness :
  exists plane,
    PlaneFit_init [(0, 0, 0); (1, 0, 1); (2, 0, 1)] None = OK plane /\
    py_sum (dev plane) = 0.
Proof.
  destruct (planefit_returns [(0, 0, 0); (1, 0, 1); (2, 0, 1)])
    as (plane & Hfit & _); [discriminate|].
  exists plane. split; [exact Hfit|].
  exact (proj1 (planefit_residuals_orthogonal _ _ Hfit)).
Defined.

Lemma planefit_least_squares_witness :
  exists fitted other,
    PlaneFit_init [(0, 0, 0); (1, 0, 1); (2, 0, 1)] None = OK fitted /\
    PlaneFit_init [(0, 0, 0); (1, 0, 1); (2, 0, 1)] (Some (1, 0, 0))
    = OK other /\
    avg fitted <= avg other.
Proof.
  destruct (planefit_returns [(0, 0, 0); (1, 0, 1); (2, 0, 1)])
    as (fitted & Hfit & _); [discriminate|].
  destruct (planefit_returns_given [(0, 0, 0); (1, 0, 1); (2, 0, 1)] (1, 0, 0))
    as (other & Hother & _); [discriminate|].
  exists fitted, other. split; [exact Hfit|]. split; [exact Hother|].
  exact (proj2 (proj2 (planefit_least_squares _ _ _ _ Hfit Hother))).
Defined.

Lemma planefit_exact_witness :
  exists plane,
    PlaneFit_init [(0, 0, 0); (1, 0, 1); (2, 0, 2)] (Some (1, 0, 0))
    = OK plane /\
    avg plane = 0 /\ max_dev plane = OK 0.
Proof.
  destruct (planefit_returns_given [(0, 0, 0); (1, 0, 1); (2, 0, 2)] (1, 0, 0))
    as (plane & Hfit & Hp); [discriminate|].
  exists plane. split; [exact Hfit|].
  destruct (planefit_exact _ _ _ Hfit) as [Havg Hmax].
  assert (Hon : on_plane (params plane) [(0, 0, 0); (1, 0, 1); (2, 0, 2)]).
  { rewrite Hp. intros point [<-|[<-|[<-|[]]]]; simpl; lra. }
  split; [apply Havg | apply Hmax]; exact Hon.
Defined.

Lemma planefit_order_independent_witness :
  exists plane plane',
    PlaneFit_init [(0, 0, 0); (1, 0, 1)] None = OK plane /\
    PlaneFit_init [(1, 0, 1); (0, 0, 0)] None = OK plane' /\
    params plane' = params plane /\ avg plane' = avg plane.
Proof.
  destruct (planefit_returns [(0, 0, 0); (1, 0, 1)])
    as (plane & Hfit & _); [discriminate|].
  destruct (planefit_returns [(1, 0, 1); (0, 0, 0)])
    as (plane' & Hfit' & _); [discriminate|].
  exists plane, plane'. split; [exact Hfit|]. split; [exact Hfit'|].
  destruct (planefit_order_independent _ _ _ _ _
              (perm_swap (1, 0, 1) (0, 0, 0) []) Hfit Hfit')
    as (Hp & _ & _ & _ & Havg & _).
  split; [exact Hp | exact Havg].
Defined.

Lemma planefit_tilt_equivariant_witness :
  let points := [(0, 0, 0); (1, 0, 1); (0, 1, 0); (1, 1, 2)] in
  non_collinear points /\
  exists plane plane',
    PlaneFit_init points None = OK plane /\
    PlaneFit_init (tilted (1, 2, 3) points) None = OK plane' /\
    params plane' = vadd3 (params plane) (1, 2, 3) /\
    dev plane' = dev plane.
Proof.
  cbv zeta.
  assert (Hnc : non_collinear [(0, 0, 0); (1, 0, 1); (0, 1, 0); (1, 1, 2)]).
  { exists (0, 0, 0), (1, 0, 1), (0, 1, 0).
    simpl. repeat split; auto. lra. }
  split; [exact Hnc|].
  destruct (planefit_returns [(0, 0, 0); (1, 0, 1); (0, 1, 0); (1, 1, 2)])
    as (plane & Hfit & _); [discriminate|].
  destruct (planefit_returns
              (tilted (1, 2, 3) [(0, 0, 0); (1, 0, 1); (0, 1, 0); (1, 1, 2)]))
    as (plane' & Hfit' & _); [discriminate|].
  exists plane, plane'. split; [exact Hfit|]. split; [exact Hfit'|].
  destruct (planefit_tilt_equivariant _ _ _ _ Hnc Hfit Hfit')
    as (Hp & Hd & _).
  split; [exact Hp | exact Hd].
Defined.

End PlaneExtra.

(** * Properties of the lead-in and lead-out points *)

Module AccelerationExtra.

Import Plane PlaneSpec Acceleration.
Local Open Scope R_scope.

Lemma np_norm_nonneg v : 0 <= np_norm v.
Proof. apply sqrt_pos. Qed.

Lemma dot_self_nonneg v : 0 <= dot v v.
Proof. destruct v as [[v1 v2] v3]. simpl. nra. Qed.

Lemma np_norm_zero v : np_norm v = 0 -> v = (0, 0, 0).
Proof.
  intros Hn. apply norm2_zero. unfold norm2.
  apply sqrt_eq_0; [apply dot_self_nonneg | exact Hn].
Qed.

Lemma vsub_zero u v : vsub u v = (0, 0, 0) -> u = v.
Proof.
  destruct u as [[u1 u2] u3], v as [[v1 v2] v3]. simpl.
  intros [= H1 H2 H3]. apply vec3_eq; lra.
Qed.

Lemma np_norm_sqr v : np_norm v * np_norm v = dot v v.
Proof. apply sqrt_sqrt, dot_self_nonneg. Qed.

(** A vector divided by its norm has norm 1. *)
Lemma np_norm_normalized d :
  np_norm d <> 0 -> np_norm (vscale (/ np_norm d) d) = 1.
Proof.
  intros Hn. unfold np_norm at 1.
  replace (dot (vscale (/ np_norm d) d) (vscale (/ np_norm d) d)) with 1;
    [apply sqrt_1|].
  transitivity ((/ np_norm d) * (/ np_norm d) * dot d d).
  - rewrite <- np_norm_sqr. field. exact Hn.
  - destruct d as [[d1 d2] d3]. simpl. ring.
Qed.

Lemma adding_acceleration_line_short line :
  (List.length line < 2)%nat ->
  adding_acceleration_line line = Raise IndexError.
Proof.
  destruct line as [|p0 [|p1 line]]; simpl; try lia; reflexivity.
Qed.

Lemma adding_acceleration_line_long line :
  (2 <= List.length line)%nat ->
  exists lead_in lead_out,
    adding_acceleration_line line =
    OK [lead_in; Numbers (nth 0 line (0, 0, 0));
        Numbers (nth 1 line (0, 0, 0)); lead_out].
Proof.
  destruct line as [|p0 [|p1 line]]; simpl; try lia. intros _.
  unfold adding_acceleration_line. cbn [py_index nth_error bind].
  destruct (Req_dec_T _ 0); eexists _, _; reflexivity.
Qed.

(** X11.  For a line from [start_point] to a different [end_point],
    [adding_acceleration] returns the four points lead-in, start, end,
    lead-out, where the lead-in lies at distance exactly 1 before the
    start and the lead-out at distance exactly 1 behind the end, both on
    the straight line through start and end: start minus lead-in and
    lead-out minus end are the same unit vector, the direction of
    travel.  The lead length does not depend on the length of the
    line. *)
Theorem acceleration_leads start_point end_point more :
  start_point <> end_point ->
  exists lead_in lead_out,
    adding_acceleration_line (start_point :: end_point :: more) =
    OK [Numbers lead_in; Numbers start_point; Numbers end_point;
        Numbers lead_out] /\
    distance start_point lead_in = 1 /\
    distance lead_out end_point = 1 /\
    vsub start_point lead_in = vsub lead_out end_point /\
    vsub end_point start_point =
    vscale (distance end_point start_point) (vsub start_point lead_in).
Proof.
  intros Hne.
  set (d := vsub end_point start_point).
  assert (Hn : np_norm d <> 0).
  { intros H0. apply Hne. symmetry. apply vsub_zero, np_norm_zero. exact H0. }
  pose proof (np_norm_normalized d Hn) as Hunit.
  set (u := vscale (/ np_norm d) d) in *.
  exists (vsub start_point (vscale 1 u)), (vadd end_point (vscale 1 u)).
  assert (Hin : vsub start_point (vsub start_point (vscale 1 u)) = u).
  { destruct start_point as [[s1 s2] s3], u as [[u1 u2] u3]. simpl.
    apply vec3_eq; ring. }
  assert (Hout : vsub (vadd end_point (vscale 1 u)) end_point = u).
  { destruct end_point as [[e1 e2] e3], u as [[u1 u2] u3]. simpl.
    apply vec3_eq; ring. }
  split; [|split; [|split; [|split]]].
  - unfold adding_acceleration_line. cbn [py_index nth_error bind].
    fold d. destruct (Req_dec_T (np_norm d) 0) as [H0|_]; [contradiction|].
    reflexivity.
  - unfold distance. rewrite Hin. exact Hunit.
  - unfold distance. rewrite Hout. exact Hunit.
  - rewrite Hin, Hout. reflexivity.
  - rewrite Hin. unfold distance. fold d. unfold u.
    destruct d as [[d1 d2] d3]. cbn [vscale].
    apply vec3_eq; field; exact Hn.
Qed.

Lemma mapM_ok {A B : Type} (f : A -> result B) l out :
  mapM f l = OK out -> Forall2 (fun a b => f a = OK b) l out.
Proof.
  revert out. induction l as [|a l IH]; intros out; simpl.
  - intros [= <-]. constructor.
  - destruct (f a) as [b|e] eqn:Hfa; simpl; [|discriminate].
    destruct (mapM f l) as [bs|e]; simpl; [|discriminate].
    intros [= <-]. constructor; [exact Hfa | apply IH; reflexivity].
Qed.

Lemma mapM_raise {A B : Type} (f : A -> result B) l e :
  mapM f l = Raise e -> Exists (fun a => f a = Raise e) l.
Proof.
  induction l as [|a l IH]; simpl; [discriminate|].
  destruct (f a) as [b|e'] eqn:Hfa; simpl.
  - destruct (mapM f l) as [bs|e'']; simpl; [discriminate|].
    intros [= ->]. right. apply IH. reflexivity.
  - intros [= ->]. left. exact Hfa.
Qed.

Lemma mapM_total {A B : Type} (f : A -> result B) l :
  Forall (fun a => exists b, f a = OK b) l -> exists out, mapM f l = OK out.
Proof.
  induction 1 as [|a l [b Hb] _ [out IH]]; simpl.
  - eexists. reflexivity.
  - rewrite Hb, IH. eexists. reflexivity.
Qed.

(** X12.  [adding_acceleration] keeps the shape of the structure: when
    every line has at least two points it returns, layer by layer and
    line by line, four points per line whose two middle points are the
    first two points of the line; further points of a line are dropped.
    It raises only [IndexError], and only when some line has fewer than
    two points. *)
Theorem acceleration_structure structure :
  (Forall (Forall (fun line => (2 <= List.length line)%nat)) structure ->
   exists out,
     adding_acceleration structure = OK out /\
     Forall2 (Forall2 (fun line new_line =>
                exists lead_in lead_out,
                  new_line = [lead_in; Numbers (nth 0 line (0, 0, 0));
                              Numbers (nth 1 line (0, 0, 0)); lead_out]))
             structure out)
  /\ (forall e, adding_acceleration structure = Raise e ->
      e = IndexError /\
      Exists (Exists (fun line => (List.length line < 2)%nat)) structure).
Proof.
  split.
  - intros Hall.
    assert (Hlayer : forall layer,
               Forall (fun line => (2 <= List.length line)%nat) layer ->
               exists out, mapM adding_acceleration_line layer = OK out).
    { intros layer Hl. apply mapM_total.
      eapply Forall_impl; [|exact Hl]. cbv beta. intros line Hlen.
      destruct (adding_acceleration_line_long line Hlen) as (a & b & Hab).
      eexists. exact Hab. }
    destruct (mapM_total (fun layer => mapM adding_acceleration_line layer)
                structure) as [out Hout].
    { eapply Forall_impl; [|exact Hall]. exact Hlayer. }
    exists out. split; [exact Hout|].
    apply mapM_ok in Hout. clear Hlayer.
    induction Hout as [|layer new_layer structure out Hl _ IH];
      [constructor|].
    inversion Hall as [|? ? Hlines Hrest]; subst.
    constructor; [|apply IH; exact Hrest].
    apply mapM_ok in Hl. clear IH Hall Hrest.
    induction Hl as [|line new_line layer new_layer Hline _ IH];
      [constructor|].
    inversion Hlines as [|? ? Hlen Hrest]; subst.
    constructor; [|apply IH; exact Hrest].
    destruct (adding_acceleration_line_long line Hlen) as (a & b & Hab).
    rewrite Hab in Hline. injection Hline as <-. exists a, b. reflexivity.
  - intros e He. apply mapM_raise in He.
    assert (Hline : forall line,
               adding_acceleration_line line = Raise e ->
               e = IndexError /\ (List.length line < 2)%nat).
    { intros line Hr.
      destruct (le_lt_dec 2 (List.length line)) as [Hlen|Hlen].
      - destruct (adding_acceleration_line_long line Hlen) as (a & b & Hab).
        rewrite Hab in Hr. discriminate.
      - rewrite (adding_acceleration_line_short line Hlen) in Hr.
        injection Hr as <-. split; [reflexivity | exact Hlen]. }
    apply Exists_exists in He. destruct He as (layer & Hin & Hr).
    apply mapM_raise in Hr. apply Exists_exists in Hr.
    destruct Hr as (line & Hin' & Hr). destruct (Hline line Hr) as [-> Hlen].
    split; [reflexivity|].
    apply Exists_exists. exists layer. split; [exact Hin|].
    apply Exists_exists. exists line. split; assumption.
Qed.

(** ** Closed instances *)

Lemma acceleration_leads_witness :
  (0, 0, 0) <> (3, 4, 0) /\
  exists lead_in lead_out,
    adding_acceleration_line [(0, 0, 0); (3, 4, 0)] =
    OK [Numbers lead_in; Numbers (0, 0, 0); Numbers (3, 4, 0);
        Numbers lead_out] /\
    distance (0, 0, 0) lead_in = 1 /\ distance lead_out (3, 4, 0) = 1.
Proof.
  assert (Hne : (0, 0, 0) <> (3, 4, 0)) by (intros [= H3 _]; lra).
  split; [exact Hne|].
  destruct (acceleration_leads (0, 0, 0) (3, 4, 0) [] Hne)
    as (a & b & Hrun & Ha & Hb & _).
  exists a, b. split; [exact Hrun|]. split; [exact Ha | exact Hb].
Defined.

Lemma acceleration_structure_witness :
  let structure := [[[(0, 0, 0); (3, 4, 0)]; [(3, 5, 0); (0, 5, 0)]]] in
  Forall (Forall (fun line => (2 <= List.length line)%nat)) structure /\
  exists out, adding_acceleration structure = OK out.
Proof.
  cbv zeta.
  assert (Hall : Forall (Forall (fun line : list vec3 =>
                                   (2 <= List.length line)%nat))
                   [[[(0, 0, 0); (3, 4, 0)]; [(3, 5, 0); (0, 5, 0)]]]).
  { repeat constructor. }
  split; [exact Hall|].
  destruct (proj1 (acceleration_structure _) Hall) as (out & Hout & _).
  exists out. exact Hout.
Defined.

End AccelerationExtra.

(** * Properties of the layer plane detector *)

Module PlaneScanExtra.

Import Plane PlaneSpec PlaneExtra PlaneScan.
Local Open Scope R_scope.
Local Open Scope string_scope.
Local Open Scope list_scope.

Lemma estimates_after_last lo up steps s :
  estimates_after lo up (steps ++ [s]) = (zLower s, zUpper s).
Proof.
  revert lo up. induction steps as [|s' steps IH]; intros lo up;
    [reflexivity|].
  cbn [app estimates_after]. apply IH.
Qed.

Lemma chained_last coarse fine k lo up steps s :
  chained coarse fine k lo up steps ->
  scan s = (k + List.length steps)%nat ->
  zLowerInit s = fst (estimates_after lo up steps) ->
  zUpperInit s = snd (estimates_after lo up steps) ->
  dzInit s = (if Req_dec_T (fst (estimates_after lo up steps))
                           (snd (estimates_after lo up steps))
              then coarse else fine) ->
  chained coarse fine k lo up (steps ++ [s]).
Proof.
  revert k lo up. induction steps as [|s' steps IH]; intros k lo up.
  - cbn [app chained estimates_after List.length fst snd].
    rewrite Nat.add_0_r. intros _ Hk Hlo Hup Hdz. repeat split; assumption.
  - cbn [app chained estimates_after List.length].
    intros (Hk' & Hlo' & Hup' & Hdz' & Hrest) Hk Hlo Hup Hdz.
    repeat (split; [assumption|]).
    apply IH; try assumption. rewrite Hk. lia.
Qed.

(** One call of [run] keeps the chain. *)
Lemma run_chained self x y result lo up :
  chained (dzCoarseDefault self) (dzFineDefault self) 0 lo up (steps self) ->
  (zlo self, zup self) = estimates_after lo up (steps self) ->
  let self' := run self x y result in
  chained (dzCoarseDefault self') (dzFineDefault self') 0 lo up (steps self')
  /\ (zlo self', zup self') = estimates_after lo up (steps self')
  /\ map recorded (steps self') = map recorded (steps self) ++ [(x, y, result)]
  /\ dzCoarseDefault self' = dzCoarseDefault self
  /\ dzFineDefault self' = dzFineDefault self.
Proof.
  intros Hchain Hest. cbv zeta. unfold run.
  cbn [steps zlo zup dzCoarseDefault dzFineDefault].
  split; [|split; [|split; [|split]]]; try reflexivity.
  - apply chained_last; cbn [scan zLowerInit zUpperInit dzInit];
      try rewrite <- Hest; cbn [fst snd]; try reflexivity. exact Hchain.
  - rewrite estimates_after_last. reflexivity.
  - rewrite map_app. cbn [map recorded step_x step_y zLower dzLower zUpper
                            dzUpper layerUuid].
    destruct result; reflexivity.
Qed.

(** X21.  Every sequence of scans keeps the steps of a plane detector
    chained: the steps are numbered 0, 1, 2, ... in the order of the
    scans, the first scan starts from the initial estimates and every
    later one from the interface positions found by the scan before it,
    with the coarse range exactly when the two estimates it starts from
    are equal; the estimates kept for the next scan are those of the last
    step, and the steps record the positions and reports of the scans in
    order. *)
Theorem plane_scan_chain self scans lo up :
  chained (dzCoarseDefault self) (dzFineDefault self) 0 lo up (steps self) ->
  (zlo self, zup self) = estimates_after lo up (steps self) ->
  let final := runs self scans in
  chained (dzCoarseDefault self) (dzFineDefault self) 0 lo up (steps final)
  /\ (zlo final, zup final) = estimates_after lo up (steps final)
  /\ map recorded (steps final) = map recorded (steps self) ++ scans.
Proof.
  cbv zeta. revert self.
  induction scans as [|[[x y] result] scans IH]; intros self Hchain Hest.
  - cbn [runs fold_left]. rewrite app_nil_r. auto.
  - unfold runs. cbn [fold_left fst snd]. fold (runs (run self x y result) scans).
    destruct (run_chained self x y result lo up Hchain Hest)
      as (Hchain' & Hest' & Hrec & Hc & Hf).
    rewrite <- Hc, <- Hf.
    destruct (IH (run self x y result) Hchain' Hest')
      as (Hchain'' & Hest'' & Hrec'').
    split; [exact Hchain''|]. split; [exact Hest''|].
    rewrite Hrec'', Hrec, <- app_assoc. reflexivity.
Qed.

(** A fit of a non-empty sample list gives a result entry. *)
Lemma fit_result_returns points :
  points <> [] ->
  exists plane m,
    PlaneFit_init points None = OK plane /\
    max_dev plane = OK m /\
    fit_result points =
    OK (mkFitResult (fst (fst (params plane))) (snd (fst (params plane)))
                    (snd (params plane)) (avg plane) m (slope plane)
                    (theta plane) (phi plane) points).
Proof.
  intros Hne. destruct (planefit_returns points Hne) as (plane & Hfit & _).
  assert (Hdne : dev plane <> []).
  { pose proof (dev_length _ _ _ Hfit) as Hlen. intros Hnil.
    rewrite Hnil in Hlen. destruct points; [contradiction | discriminate]. }
  destruct (np_max_abs (dev plane) Hdne) as (m & Hm & _).
  exists plane, m. split; [exact Hfit|]. split; [exact Hm|].
  unfold fit_result. rewrite Hfit. cbn [bind]. unfold max_dev at 1.
  rewrite Hm. reflexivity.
Qed.

(** With steps, [_pop_results] returns both fits and empties the step
    list; what [container] returns then depends on the building of the
    container alone. *)
Lemma container_returns self building :
  steps self <> [] ->
  exists lower upper ml mu,
    PlaneFit_init (map lower_point (steps self)) None = OK lower /\
    PlaneFit_init (map upper_point (steps self)) None = OK upper /\
    container self building =
    (mkPlane (zlo self) (zup self) [] (dzCoarseDefault self)
             (dzFineDefault self),
     match building with
     | Returned _ =>
         Returned
           (mkContainer (steps self)
              [("lower",
                mkFitResult (fst (fst (params lower)))
                  (snd (fst (params lower))) (snd (params lower)) (avg lower)
                  ml (slope lower) (theta lower) (phi lower)
                  (map lower_point (steps self)));
               ("upper",
                mkFitResult (fst (fst (params upper)))
                  (snd (fst (params upper))) (snd (params upper)) (avg upper)
                  mu (slope upper) (theta upper) (phi upper)
                  (map upper_point (steps self)))])
     | Raised e => Raised e
     end).
Proof.
  intros Hne.
  assert (Hlo : map lower_point (steps self) <> []).
  { destruct (steps self); [contradiction | discriminate]. }
  assert (Hup : map upper_point (steps self) <> []).
  { destruct (steps self); [contradiction | discriminate]. }
  destruct (fit_result_returns _ Hlo) as (lower & ml & Hl & _ & Hrl).
  destruct (fit_result_returns _ Hup) as (upper & mu & Hu & _ & Hru).
  exists lower, upper, ml, mu. split; [exact Hl|]. split; [exact Hu|].
  unfold container, _pop_results.
  destruct (steps self) as [|s rest] eqn:Hsteps; [contradiction|].
  cbn [List.length Nat.eqb]. rewrite Hrl. cbn [bind]. rewrite Hru.
  cbn [bind]. destruct building; reflexivity.
Qed.

(** X22.  [container] needs results and consumes them, whether or not
    the container can be built: without steps it raises [RuntimeError]
    and changes nothing; with steps it empties the step list and keeps
    the estimates before it builds the container, so that when the
    building raises the exception is passed on and the steps are lost,
    and when the building returns the container holds exactly those
    steps and the two fits; either way, calling it again right away
    raises [RuntimeError]. *)
Theorem plane_container_consumes self :
  (steps self = [] ->
   forall building,
     container self building = (self, Raised (RuntimeError "No results!")))
  /\ (steps self <> [] ->
      exists self',
        steps self' = [] /\
        zlo self' = zlo self /\ zup self' = zup self /\
        (forall e, container self (Raised e) = (self', Raised e)) /\
        (forall u, exists c,
            container self (Returned u) = (self', Returned c) /\
            meas_steps c = steps self /\
            dict_keys (meas_result c) = ["lower"; "upper"]) /\
        (forall building,
            container self' building
            = (self', Raised (RuntimeError "No results!")))).
Proof.
  split.
  - intros Hnil building. unfold container. rewrite Hnil. reflexivity.
  - intros Hne.
    exists (mkPlane (zlo self) (zup self) [] (dzCoarseDefault self)
                    (dzFineDefault self)).
    split; [reflexivity|]. split; [reflexivity|]. split; [reflexivity|].
    split; [|split].
    + intros e.
      destruct (container_returns self (Raised e) Hne)
        as (lower & upper & ml & mu & _ & _ & Hrun).
      exact Hrun.
    + intros u.
      destruct (container_returns self (Returned u) Hne)
        as (lower & upper & ml & mu & _ & _ & Hrun).
      eexists. split; [exact Hrun|]. split; reflexivity.
    + intros building. reflexivity.
Qed.

(** X23.  The parameters [zPlane] reads back from a plane container are
    those of the fits the container was built from: for the keys
    ["lower"] and ["upper"] its [getz] agrees everywhere with the [getz]
    of the least-squares fit of the lower and of the upper interface
    positions of the steps, and any other key raises [KeyError]. *)
Theorem zplane_round_trip self building self' c :
  container self building = (self', Returned c) ->
  exists lower upper zl zu,
    PlaneFit_init (map lower_point (steps self)) None = OK lower /\
    PlaneFit_init (map upper_point (steps self)) None = OK upper /\
    zPlane_init c "lower" = OK zl /\
    zPlane_init c "upper" = OK zu /\
    (forall x y, zPlane_getz zl x y = getz lower x y) /\
    (forall x y, zPlane_getz zu x y = getz upper x y) /\
    (forall key, key <> "lower" -> key <> "upper" ->
                 zPlane_init c key = Raise (KeyError key)).
Proof.
  intros Hrun.
  assert (Hne : steps self <> []).
  { intros Hnil. unfold container in Hrun. rewrite Hnil in Hrun.
    discriminate Hrun. }
  destruct (container_returns self building Hne)
    as (lower & upper & ml & mu & Hl & Hu & Hrun').
  rewrite Hrun' in Hrun.
  destruct building as [u|e]; [|discriminate Hrun].
  injection Hrun as _ <-.
  exists lower, upper. eexists _, _.
  split; [exact Hl|]. split; [exact Hu|].
  split; [reflexivity|]. split; [reflexivity|].
  split; [|split].
  - intros x y. unfold zPlane_getz, getz, getz_params.
    cbn [zp_params xSlope ySlope z0].
    destruct (params lower) as [[sx sy] z0']. reflexivity.
  - intros x y. unfold zPlane_getz, getz, getz_params.
    cbn [zp_params xSlope ySlope z0].
    destruct (params upper) as [[sx sy] z0']. reflexivity.
  - intros key Hl' Hu'. unfold zPlane_init. cbn [meas_result dict_get].
    destruct (String.eqb key "lower") eqn:E1;
      [apply String.eqb_eq in E1; contradiction|].
    destruct (String.eqb key "upper") eqn:E2;
      [apply String.eqb_eq in E2; contradiction|].
    reflexivity.
Qed.

(** ** Closed instances *)

Lemma plane_scan_chain_witness :
  let self := Plane_init 5 5 100 10 in
  let scans := [(0, 0, mkLayerResult 4 1 9 1 "a");
                (1, 0, mkLayerResult 3 1 8 1 "b")] in
  chained 100 10 0 5 5 (steps self) /\
  (zlo self, zup self) = estimates_after 5 5 (steps self) /\
  chained 100 10 0 5 5 (steps (runs self scans)) /\
  map scan (steps (runs self scans)) = [0%nat; 1%nat] /\
  (zlo (runs self scans), zup (runs self scans)) = (3, 8).
Proof.
  cbv zeta.
  assert (Hchain : chained (dzCoarseDefault (Plane_init 5 5 100 10))
                     (dzFineDefault (Plane_init 5 5 100 10)) 0 5 5
                     (steps (Plane_init 5 5 100 10))) by exact I.
  assert (Hest : (zlo (Plane_init 5 5 100 10), zup (Plane_init 5 5 100 10))
                 = estimates_after 5 5 (steps (Plane_init 5 5 100 10)))
    by reflexivity.
  split; [exact Hchain|]. split; [exact Hest|].
  destruct (plane_scan_chain (Plane_init 5 5 100 10)
              [(0, 0, mkLayerResult 4 1 9 1 "a");
               (1, 0, mkLayerResult 3 1 8 1 "b")] 5 5 Hchain Hest)
    as (Hfinal & Hlast & _).
  split; [exact Hfinal|]. split; [reflexivity|]. exact Hlast.
Defined.

Lemma plane_container_consumes_witness :
  let self := runs (Plane_init 5 5 100 10)
                   [(0, 0, mkLayerResult 4 1 9 1 "a")] in
  steps self <> [] /\
  exists self',
    steps self' = [] /\
    container self (Raised (RuntimeError "Author name is missing!"))
    = (self', Raised (RuntimeError "Author name is missing!")) /\
    (exists c,
        container self (Returned tt) = (self', Returned c) /\
        List.length (meas_steps c) = 1%nat) /\
    container self' (Returned tt)
    = (self', Raised (RuntimeError "No results!")).
Proof.
  cbv zeta.
  assert (Hne : steps (runs (Plane_init 5 5 100 10)
                            [(0, 0, mkLayerResult 4 1 9 1 "a")]) <> [])
    by discriminate.
  split; [exact Hne|].
  destruct (proj2 (plane_container_consumes _) Hne)
    as (self' & Hempty & _ & _ & Hraises & Hreturns & Hagain).
  exists self'. split; [exact Hempty|]. split; [apply Hraises|].
  split; [|apply Hagain].
  destruct (Hreturns tt) as (c & Hrun & Hsteps & _).
  exists c. split; [exact Hrun|]. rewrite Hsteps. reflexivity.
Defined.

Lemma zplane_round_trip_witness :
  exists self' c zl lower,
    container (runs (Plane_init 5 5 100 10)
                    [(0, 0, mkLayerResult 4 1 9 1 "a")]) (Returned tt)
    = (self', Returned c) /\
    zPlane_init c "lower" = OK zl /\
    PlaneFit_init [(0, 0, 4)] None = OK lower /\
    forall x y, zPlane_getz zl x y = getz lower x y.
Proof.
  assert (Hne : steps (runs (Plane_init 5 5 100 10)
                            [(0, 0, mkLayerResult 4 1 9 1 "a")]) <> [])
    by discriminate.
  destruct (container_returns _ (Returned tt) Hne)
    as (lower0 & upper0 & ml & mu & _ & _ & Hrun).
  destruct (zplane_round_trip _ _ _ _ Hrun)
    as (lower & upper & zl & zu & Hl & _ & Hzl & _ & Hgetz & _).
  eexists _, _, zl, lower. split; [exact Hrun|]. split; [exact Hzl|].
  split; [exact Hl | exact Hgetz].
Defined.

End PlaneScanExtra.

(** * Properties of the exposure methods of the system *)

Module SystemExtra.

Import SystemModel.
Local Open Scope R_scope.
Local Open Scope string_scope.
Local Open Scope list_scope.

(** ** Minimum and maximum *)

Lemma fold_left_Rmin_least l x : least (fold_left Rmin l x) (x :: l).
Proof.
  revert x. induction l as [|v l IH]; intros x; cbn [fold_left].
  - split; [left; reflexivity | constructor; [lra | constructor]].
  - destruct (IH (Rmin x v)) as [Hin Hall]. split.
    + destruct Hin as [Heq|Hin]; [|right; right; exact Hin].
      rewrite <- Heq. unfold Rmin. destruct (Rle_dec x v);
        [left | right; left]; reflexivity.
    + inversion Hall as [|? ? Hm Hl]; subst.
      pose proof (Rmin_l x v). pose proof (Rmin_r x v).
      constructor; [lra|]. constructor; [lra | exact Hl].
Qed.

Lemma fold_left_Rmax_greatest l x : greatest (fold_left Rmax l x) (x :: l).
Proof.
  revert x. induction l as [|v l IH]; intros x; cbn [fold_left].
  - split; [left; reflexivity | constructor; [lra | constructor]].
  - destruct (IH (Rmax x v)) as [Hin Hall]. split.
    + destruct Hin as [Heq|Hin]; [|right; right; exact Hin].
      rewrite <- Heq. unfold Rmax. destruct (Rle_dec x v);
        [right; left | left]; reflexivity.
    + inversion Hall as [|? ? Hm Hl]; subst.
      pose proof (Rmax_l x v). pose proof (Rmax_r x v).
      constructor; [lra|]. constructor; [lra | exact Hl].
Qed.

Lemma least_unique m m' l : least m l -> least m' l -> m = m'.
Proof.
  intros [Hin Hall] [Hin' Hall']. rewrite Forall_forall in Hall, Hall'.
  pose proof (Hall _ Hin'). pose proof (Hall' _ Hin). lra.
Qed.

Lemma greatest_unique m m' l : greatest m l -> greatest m' l -> m = m'.
Proof.
  intros [Hin Hall] [Hin' Hall']. rewrite Forall_forall in Hall, Hall'.
  pose proof (Hall _ Hin'). pose proof (Hall' _ Hin). lra.
Qed.

(** ** Polylines *)

Section Polylines.

Variable travel_speed : R.

Lemma laser_after_app sent sent' on :
  laser_after on (sent ++ sent') = laser_after (laser_after on sent) sent'.
Proof.
  revert on. induction sent as [|c sent IH]; intros on; [reflexivity|].
  destruct c; cbn [app laser_after]; apply IH.
Qed.

Lemma laser_after_moves (f : R * R -> dict R) speed points on :
  laser_after on (map (fun xy => moveabs speed (f xy)) points) = on.
Proof. induction points as [|p points IH]; [reflexivity | exact IH]. Qed.

Lemma exposures_app sent sent' :
  exposures (sent ++ sent') = (exposures sent + exposures sent')%nat.
Proof.
  induction sent as [|c sent IH]; [reflexivity|].
  destruct c; cbn [app exposures]; rewrite IH; reflexivity.
Qed.

Lemma exposures_moves (f : R * R -> dict R) speed points :
  exposures (map (fun xy => moveabs speed (f xy)) points) = 0%nat.
Proof. induction points as [|p points IH]; [reflexivity | exact IH]. Qed.

(** The three ways [polyline] treats a line that is not empty. *)
Lemma polyline_cases first rest power speed dia :
  let line := first :: rest in
  exists llx lly urx ury,
    least llx (map fst line) /\ least lly (map snd line) /\
    greatest urx (map fst line) /\ greatest ury (map snd line) /\
    let size := sqrt ((urx - llx) ^ 2 + (ury - lly) ^ 2) in
    let centre := [("x", 0.5 * (llx + urx)); ("y", 0.5 * (lly + ury))] in
    (size < 0.2 * dia -> speed <> 0 ->
     polyline travel_speed line power speed dia =
     ([moveabs travel_speed centre; pulse power (10 * dia / speed)],
      Returned tt))
    /\ (size < 0.2 * dia -> speed = 0 ->
        polyline travel_speed line power speed dia =
        ([moveabs travel_speed centre], Raised (Py ZeroDivisionError)))
    /\ (~ size < 0.2 * dia ->
        polyline travel_speed line power speed dia =
        (moveabs travel_speed [("x", fst first); ("y", snd first)]
         :: laseron power
         :: map (fun xy => moveabs speed [("x", fst xy); ("y", snd xy)]) rest
         ++ [laseroff],
         Returned tt)).
Proof.
  cbv zeta. destruct first as [x0 y0].
  exists (fold_left Rmin (map fst rest) x0), (fold_left Rmin (map snd rest) y0),
         (fold_left Rmax (map fst rest) x0), (fold_left Rmax (map snd rest) y0).
  split; [apply fold_left_Rmin_least|]. split; [apply fold_left_Rmin_least|].
  split; [apply fold_left_Rmax_greatest|].
  split; [apply fold_left_Rmax_greatest|].
  unfold polyline. cbn [map fst snd py_min py_max].
  split; [|split].
  - intros Hshort Hspeed.
    destruct (Rlt_dec _ _) as [_|Hn]; [|contradiction].
    destruct (Req_dec_T speed 0) as [H0|_]; [contradiction|]. reflexivity.
  - intros Hshort Hspeed.
    destruct (Rlt_dec _ _) as [_|Hn]; [|contradiction].
    destruct (Req_dec_T speed 0) as [_|Hn]; [|contradiction]. reflexivity.
  - intros Hlong.
    destruct (Rlt_dec _ _) as [Hshort|_]; [contradiction|]. reflexivity.
Qed.

(** Whatever the line is, the laser is off when [polyline] ends, and a
    call that returns has exposed once. *)
Lemma polyline_outcome line power speed dia :
  let sent := fst (polyline travel_speed line power speed dia) in
  let r := snd (polyline travel_speed line power speed dia) in
  laser_after false sent = false /\
  (line = [] -> sent = [] /\ r = Raised ValueError_empty_sequence) /\
  (r = Returned tt -> line <> [] /\ exposures sent = 1%nat) /\
  (line <> [] -> speed <> 0 -> r = Returned tt) /\
  (forall e, r = Raised e -> exposures sent = 0%nat).
Proof.
  cbv zeta. destruct line as [|first rest].
  - cbn. repeat split; try discriminate; try contradiction.
  - destruct (polyline_cases first rest power speed dia)
      as (llx & lly & urx & ury & _ & _ & _ & _ & Hpulse & Hzero & Hlong).
    cbv zeta in Hpulse, Hzero, Hlong.
    destruct (Rlt_dec (sqrt ((urx - llx) ^ 2 + (ury - lly) ^ 2)) (0.2 * dia))
      as [Hshort|Hnshort].
    + destruct (Req_dec_T speed 0) as [H0|Hn0].
      * rewrite (Hzero Hshort H0). cbn [fst snd laser_after exposures].
        repeat split; try discriminate; try contradiction.
      * rewrite (Hpulse Hshort Hn0). cbn [fst snd laser_after exposures].
        repeat split; try discriminate.
    + rewrite (Hlong Hnshort). cbn [fst snd laser_after exposures].
      rewrite laser_after_app, laser_after_moves, exposures_app,
        exposures_moves.
      repeat split; try discriminate.
Qed.

(** X24.  [System.polyline] sends nothing and raises [ValueError] for an
    empty line.  For any other line, with the bounding box of its points
    and [size] the length of the diagonal of the box: a line shorter than
    [0.2 * dia] is exposed by one move to the centre of the box at travel
    speed and one pulse of duration [10 * dia / speed], where exposure
    speed 0 raises [ZeroDivisionError] after the move; every other line
    is exposed by a move to its first point at travel speed, laser on,
    moves through the remaining points at exposure speed, and laser
    off. *)
Theorem polyline_exposure line power speed dia :
  (line = [] ->
   polyline travel_speed line power speed dia =
   ([], Raised ValueError_empty_sequence))
  /\ (forall first rest, line = first :: rest ->
      exists llx lly urx ury,
        least llx (map fst line) /\ least lly (map snd line) /\
        greatest urx (map fst line) /\ greatest ury (map snd line) /\
        let size := sqrt ((urx - llx) ^ 2 + (ury - lly) ^ 2) in
        let centre := [("x", 0.5 * (llx + urx)); ("y", 0.5 * (lly + ury))] in
        (size < 0.2 * dia -> speed <> 0 ->
         polyline travel_speed line power speed dia =
         ([moveabs travel_speed centre; pulse power (10 * dia / speed)],
          Returned tt))
        /\ (size < 0.2 * dia -> speed = 0 ->
            polyline travel_speed line power speed dia =
            ([moveabs travel_speed centre], Raised (Py ZeroDivisionError)))
        /\ (~ size < 0.2 * dia ->
            polyline travel_speed line power speed dia =
            (moveabs travel_speed [("x", fst first); ("y", snd first)]
             :: laseron power
             :: map (fun xy => moveabs speed [("x", fst xy); ("y", snd xy)])
                    rest
             ++ [laseroff],
             Returned tt))).
Proof.
  split.
  - intros ->. reflexivity.
  - intros first rest ->. exact (polyline_cases first rest power speed dia).
Qed.

Lemma polylines_loop_outcome lines power speed dia :
  let sent := fst (polylines_loop travel_speed lines power speed dia) in
  let r := snd (polylines_loop travel_speed lines power speed dia) in
  laser_after false sent = false /\
  (r = Returned tt ->
   Forall (fun line => line <> []) lines /\
   exposures sent = List.length lines) /\
  (Forall (fun line => line <> []) lines -> speed <> 0 -> r = Returned tt) /\
  (forall e, r = Raised e -> (exposures sent < List.length lines)%nat).
Proof.
  cbv zeta. induction lines as [|line lines (IHoff & IHret & IHok & IHraise)].
  - cbn. repeat split; try discriminate. constructor.
  - cbn [polylines_loop].
    destruct (polyline_outcome line power speed dia)
      as (Hoff & _ & Hret & Hok & Hraise).
    cbv zeta in Hoff, Hret, Hok, Hraise.
    destruct (polyline travel_speed line power speed dia) as [sent [[]|e]].
    + cbn [fst snd] in Hoff, Hret, Hok, Hraise.
      destruct (Hret eq_refl) as [Hne Hone].
      destruct (polylines_loop travel_speed lines power speed dia)
        as [sent' r'].
      cbn [fst snd] in *. split; [|split; [|split]].
      * rewrite laser_after_app, Hoff. exact IHoff.
      * intros Hr. destruct (IHret Hr) as [Hall Hexp]. split.
        -- constructor; assumption.
        -- rewrite exposures_app, Hone, Hexp. reflexivity.
      * intros Hall Hspeed. apply IHok; [|exact Hspeed].
        inversion Hall; assumption.
      * intros e Hr. rewrite exposures_app, Hone.
        cbn [List.length]. pose proof (IHraise e Hr). lia.
    + cbn [fst snd] in *. split; [exact Hoff|]. split; [discriminate|]. split.
      * intros Hall Hspeed. inversion Hall as [|? ? Hne _]; subst.
        exact (Hok Hne Hspeed).
      * intros e' _. rewrite (Hraise e eq_refl). cbn [List.length]. lia.
Qed.

(** X25.  [System.polylines] first moves to height [z].  Whether it
    returns or raises, the laser is off when it ends.  It returns only if
    no line is empty, and then it has exposed exactly once per line, by a
    pulse or by switching the laser on and off; it does return when no
    line is empty and the exposure speed is not 0.  When it raises, fewer
    exposures than lines were made. *)
Theorem polylines_exposure z lines power speed dia :
  let sent := fst (polylines travel_speed z lines power speed dia) in
  let r := snd (polylines travel_speed z lines power speed dia) in
  hd_error sent = Some (moveabs travel_speed [("z", z)]) /\
  laser_after false sent = false /\
  (r = Returned tt ->
   Forall (fun line => line <> []) lines /\
   exposures sent = List.length lines) /\
  (Forall (fun line => line <> []) lines -> speed <> 0 -> r = Returned tt) /\
  (forall e, r = Raised e -> (exposures sent < List.length lines)%nat).
Proof.
  cbv zeta. unfold polylines.
  destruct (polylines_loop_outcome lines power speed dia)
    as (Hoff & Hret & Hok & Hraise).
  cbv zeta in Hoff, Hret, Hok, Hraise.
  destruct (polylines_loop travel_speed lines power speed dia) as [sent r].
  cbn [fst snd hd_error laser_after exposures] in *.
  split; [reflexivity|]. split; [exact Hoff|].
  split; [exact Hret|]. split; [exact Hok | exact Hraise].
Qed.

End Polylines.

(** ** Dots *)

Section Dots.

Variable travel_speed : R.

Lemma pulses_app sent sent' : pulses (sent ++ sent') = pulses sent ++ pulses sent'.
Proof.
  induction sent as [|c sent IH]; [reflexivity|].
  destruct c; cbn [app pulses]; rewrite IH; reflexivity.
Qed.

Lemma targets_app sent sent' :
  targets (sent ++ sent') = targets sent ++ targets sent'.
Proof.
  induction sent as [|c sent IH]; [reflexivity|].
  destruct c; cbn [app targets]; rewrite IH; reflexivity.
Qed.

(** The commands of one exposed pixel: the move to it at travel speed,
    then the pulse. *)
Local Abbreviation pixel_commands x0 y0 pitch power dt h :=
  (fun pixel : nat * nat * nat =>
     [moveabs travel_speed (pixel_target x0 y0 pitch h pixel);
      pulse power dt]).

Lemma dots_row_commands x0 y0 pitch power dt h j row :
  dots_row travel_speed x0 (pixel_position y0 pitch h j) pitch power dt row
  = flat_map (pixel_commands x0 y0 pitch power dt h) (exposed_row j row).
Proof.
  unfold dots_row, exposed_row.
  generalize (List.length row) as w. generalize (enumerate row) as ivs.
  induction ivs as [|[i v] ivs IH]; intros w; [reflexivity|].
  cbn [flat_map fst snd]. destruct (Rlt_dec 0 v).
  - cbn [app flat_map]. rewrite IH. reflexivity.
  - cbn [app]. apply IH.
Qed.

Lemma dots_rows_commands x0 y0 pitch power dt h jrows :
  flat_map (fun jrow =>
              dots_row travel_speed x0
                (pixel_position y0 pitch h (fst jrow)) pitch power dt
                (snd jrow)) jrows
  = flat_map (pixel_commands x0 y0 pitch power dt h)
      (flat_map (fun jrow => exposed_row (fst jrow) (snd jrow)) jrows).
Proof.
  induction jrows as [|[j row] jrows IH]; [reflexivity|].
  cbn [flat_map fst snd].
  rewrite flat_map_app, dots_row_commands, IH. reflexivity.
Qed.

Lemma pixel_commands_facts x0 y0 pitch power dt h pixels :
  let sent := flat_map (pixel_commands x0 y0 pitch power dt h) pixels in
  pulses sent = map (fun _ => (power, dt)) pixels /\
  targets sent = map (pixel_target x0 y0 pitch h) pixels /\
  List.length sent = (2 * List.length pixels)%nat /\
  forall on, laser_after on sent = on.
Proof.
  cbv zeta. induction pixels as [|pixel pixels (IHp & IHt & IHl & IHon)].
  - repeat split.
  - cbn [flat_map app pulses targets map List.length laser_after].
    rewrite IHp, IHt, IHl. repeat split; [lia | exact IHon].
Qed.

Lemma enumerate_from_In {A : Type} (l : list A) s k (a : A) :
  In (k, a) (combine (seq s (List.length l)) l) <->
  (s <= k)%nat /\ nth_error l (k - s) = Some a.
Proof.
  revert s. induction l as [|b l IH]; intros s.
  - cbn. split; [contradiction|]. intros [_ H].
    destruct (k - s)%nat; discriminate H.
  - cbn [List.length seq combine In]. rewrite IH. split.
    + intros [Heq|[Hle Hnth]].
      * injection Heq as <- <-. split; [lia|].
        rewrite Nat.sub_diag. reflexivity.
      * split; [lia|].
        replace (k - s)%nat with (S (k - S s)) by lia. exact Hnth.
    + intros [Hle Hnth].
      destruct (Nat.eq_dec s k) as [<-|Hne].
      * left. rewrite Nat.sub_diag in Hnth. cbn in Hnth.
        injection Hnth as <-. reflexivity.
      * right. split; [lia|].
        replace (k - s)%nat with (S (k - S s)) in Hnth by lia. exact Hnth.
Qed.

Lemma enumerate_In {A : Type} (l : list A) k (a : A) :
  In (k, a) (enumerate l) <-> nth_error l k = Some a.
Proof.
  unfold enumerate. rewrite enumerate_from_In, Nat.sub_0_r.
  split; [intros [_ H]; exact H | intros H; split; [lia | exact H]].
Qed.

(** The exposed pixels are the pixels of the image with a positive
    value. *)
Lemma exposed_In img i j w :
  In (i, j, w) (exposed img) <->
  exists row v,
    nth_error img j = Some row /\ nth_error row i = Some v /\
    w = List.length row /\ 0 < v.
Proof.
  unfold exposed, exposed_row. rewrite in_flat_map. split.
  - intros ([j' row] & Hrow & Hin). cbn [fst snd] in Hin.
    apply in_flat_map in Hin. destruct Hin as ([i' v] & Hv & Hin).
    cbn [fst snd] in Hin.
    destruct (Rlt_dec 0 v) as [Hpos|]; [|contradiction].
    destruct Hin as [Heq|[]]. injection Heq as -> -> <-.
    exists row, v. apply enumerate_In in Hrow. apply enumerate_In in Hv.
    repeat split; assumption.
  - intros (row & v & Hrow & Hv & -> & Hpos).
    exists (j, row). split; [apply enumerate_In; exact Hrow|].
    cbn [fst snd]. apply in_flat_map. exists (i, v).
    split; [apply enumerate_In; exact Hv|].
    cbn [fst snd]. destruct (Rlt_dec 0 v); [left; reflexivity | contradiction].
Qed.

(** X26.  [System.dots] sends exactly these commands: the move to height
    [z], then for every pixel with a positive value, row by row, the
    move to that pixel at travel speed followed at once by one pulse of
    the given power and duration, and finally the move back to the
    position it started from, all moves at travel speed; it never
    switches the laser on.  Pixel [i] of a row of [w] pixels lies at
    [x0 + (i - (w - 1) / 2) * pitch], so each row and the column of rows
    are centred on the start position: mirrored pixels lie symmetric to
    it. *)
Theorem dots_exposure x0 y0 z img pitch power dt :
  let sent := dots travel_speed (x0, y0) z img pitch power dt in
  sent =
    moveabs travel_speed [("z", z)]
    :: flat_map
         (fun pixel =>
            [moveabs travel_speed
               (pixel_target x0 y0 pitch (List.length img) pixel);
             pulse power dt])
         (exposed img)
    ++ [moveabs travel_speed [("x", x0); ("y", y0)]] /\
  (forall i j w,
      In (i, j, w) (exposed img) <->
      exists row v,
        nth_error img j = Some row /\ nth_error row i = Some v /\
        w = List.length row /\ 0 < v) /\
  pulses sent = map (fun _ => (power, dt)) (exposed img) /\
  targets sent =
    [("z", z)]
    :: map (pixel_target x0 y0 pitch (List.length img)) (exposed img)
    ++ [[("x", x0); ("y", y0)]] /\
  List.length sent = (2 * List.length (exposed img) + 2)%nat /\
  laser_after false sent = false /\
  (forall c n i, (i < n)%nat ->
     pixel_position c pitch n i + pixel_position c pitch n (n - 1 - i)
     = 2 * c).
Proof.
  cbv zeta.
  assert (Hsent :
            dots travel_speed (x0, y0) z img pitch power dt =
            moveabs travel_speed [("z", z)]
            :: flat_map (pixel_commands x0 y0 pitch power dt (List.length img))
                 (exposed img)
            ++ [moveabs travel_speed [("x", x0); ("y", y0)]]).
  { unfold dots, exposed. rewrite dots_rows_commands. reflexivity. }
  destruct (pixel_commands_facts x0 y0 pitch power dt (List.length img)
              (exposed img)) as (Hp & Ht & Hl & Hon).
  cbv zeta in Hp, Ht, Hl, Hon.
  split; [exact Hsent|]. split; [intros i j w; apply exposed_In|].
  rewrite Hsent.
  split; [|split; [|split; [|split]]].
  - cbn [pulses]. rewrite pulses_app, Hp. cbn [pulses]. apply app_nil_r.
  - cbn [targets]. rewrite targets_app, Ht. reflexivity.
  - cbn [List.length]. rewrite length_app, Hl. cbn [List.length]. lia.
  - cbn [laser_after]. rewrite laser_after_app, Hon. reflexivity.
  - intros c n i Hi. unfold pixel_position.
    rewrite !minus_INR by lia. cbn [INR].
    replace 0.5 with (/ 2) by lra. field.
Qed.

End Dots.

(** ** Closed instances *)

Lemma polyline_exposure_witness :
  exists centre,
    polyline 2000 [(1, 2)] 3 5 1 =
    ([moveabs 2000 centre; pulse 3 (10 * 1 / 5)], Returned tt).
Proof.
  destruct (proj2 (polyline_exposure 2000 [(1, 2)] 3 5 1) (1, 2) [] eq_refl)
    as (llx & lly & urx & ury & [Hllx _] & [Hlly _] & [Hurx _] & [Hury _]
        & Hpulse & _).
  cbn [map fst snd In] in Hllx, Hlly, Hurx, Hury.
  destruct Hllx as [<-|[]], Hlly as [<-|[]], Hurx as [<-|[]], Hury as [<-|[]].
  eexists. apply Hpulse.
  - replace ((1 - 1) ^ 2 + (2 - 2) ^ 2) with 0 by ring. rewrite sqrt_0. lra.
  - lra.
Defined.

End SystemExtra.
